(** * HIVEMIND simulation engine: a shallow embedding and its properties

    The engine of the swarm debugger is embedded as Rocq functions: the
    vector utilities (utils/vector.ts), the spatial hash
    (utils/spatialHash.ts), the three strategies (algorithms/boids.ts,
    antColony.ts, pso.ts), the registry (algorithms/index.ts), the
    simulation worker with its anomaly detector
    (workers/simulation.worker.ts), the analytics utilities
    (utils/analytics.ts) and the store of the main thread (core/store.ts).

    Modelling choices.
    - A JavaScript [number] that carries a coordinate, a speed, a force or
      a pheromone level is a real number ([R]): arithmetic is exact, and
      rounding, NaN and signed zeros are outside the model.  A [number]
      that is only ever an integer (agent ids, cell coordinates, tick
      counters, array indices) is a [Z] or a [nat].  Fitness values, which
      start from [Infinity], are reals extended by [Infinity].
    - [Math.random()] reads the next value of an explicit random source,
      which is threaded through every function that draws from it, in the
      order of the calls in the source.
    - A [Map] is a finite map ([gmap]); a mutable object that the code
      takes from a map and updates in place is stored back after the
      update.  Arrays are lists.
    - Class instances are records of their fields; a method takes the
      instance and returns the new one.  The fields [x], [y] and
      [heading] of an agent are called [ax], [ay] and [aheading] (the
      short names are those of [Vec2] and of the vector utility), and
      likewise [ox], [fx], [tx] ... for obstacles, food sources and
      targets.
    - The debugger's force breakdown ([lastDebugInfo], the [debugInfo] of a
      tick message) is written but never read back by the engine; it is
      left out.
    - A [Set] of indices is a finite set ([gset]); a [Uint16Array] is a
      list of integers, stored modulo 2^16.  The [while] loop of the
      cluster search is defined by well-founded recursion on the number
      of unvisited indices plus the length of the queue.
    - The store is a record of its state fields together with the
      module-level obstacle counter; its worker reference, when set, is
      the list of the messages posted to it, oldest first.
    - Where rounding or overflow decides what the code returns, the
      statements allow for it (a speed within its cap up to rounding, a
      cell window instead of exact reach), and module [Double] evaluates
      the code's own binary64 arithmetic on the inputs that show it. *)

From Stdlib Require Import Reals Lra Lia ZArith List Ascii.
From stdpp Require Import gmap strings list pretty.
From Stdlib Require PrimFloat.
From Equations Require Import Equations.

Open Scope R_scope.

(** ** Numbers *)

(** The comparisons [a < b] and [a <= b] of two numbers, as booleans. *)
Definition Rltb (a b : R) : bool := if Rlt_dec a b then true else false.
Definition Rleb (a b : R) : bool := if Rle_dec a b then true else false.

(** A number that may be [Infinity] (the fitness values of the particle
    swarm start from it). *)
Inductive XR := Num (r : R) | Infinity.

(** [a < b] on such numbers. *)
Definition xltb (a b : XR) : bool :=
  match a, b with
  | Num a, Num b => Rltb a b
  | Num _, Infinity => true
  | Infinity, _ => false
  end.

(** [Math.floor] and [Math.ceil], with an integer result. *)
Definition Math_floor (r : R) : Z := Int_part r.
Definition Math_ceil (r : R) : Z := (- Int_part (- r))%Z.

(** [Math.max] and [Math.min] on two arguments are [Rmax] and [Rmin]. *)

(** [Math.atan2 y x]. *)
Definition Math_atan2 (y x : R) : R :=
  if Rltb 0 x then atan (y / x)
  else if Rltb x 0 then
    (if Rleb 0 y then atan (y / x) + PI else atan (y / x) - PI)
  else if Rltb 0 y then PI / 2
  else if Rltb y 0 then - (PI / 2)
  else 0.

(** The integers [lo, lo+1, ..., hi] of a [for (d = lo; d <= hi; d++)]. *)
Definition upto (lo hi : Z) : list Z := seqZ lo (hi - lo + 1).

(** The random source: an infinite sequence of draws.  [Math.random()]
    returns the head and leaves the tail. *)
Definition RandomSource := nat -> R.
Definition Math_random (s : RandomSource) : R * RandomSource :=
  (s O, fun n => s (S n)).

(** ** Core types (core/types.ts) *)

Record Vec2 := mkVec2 { x : R; y : R }.

Inductive AgentState := Active | Stuck | Anomaly.

Record Agent := mkAgent {
  id : Z;
  ax : R;
  ay : R;
  vx : R;
  vy : R;
  aheading : R;
  state : AgentState
}.

(** An [Agent] used where the code expects a [Vec2] (its position). *)
Definition posA (a : Agent) : Vec2 := {| x := ax a; y := ay a |}.

Inductive AlgorithmType := Boids | AntColony | PSO.

Inductive ObstacleShape := circle | rect.

Record Obstacle := mkObstacle {
  oid : Z;
  ox : R;
  oy : R;
  oradius : R;
  otype : ObstacleShape;
  owidth : option R;
  oheight : option R
}.

Definition posO (o : Obstacle) : Vec2 := {| x := ox o; y := oy o |}.

Record SimConfig := mkSimConfig {
  algorithm : AlgorithmType;
  agentCount : Z;
  worldWidth : R;
  worldHeight : R;
  maxSpeed : R;
  maxForce : R;
  separationWeight : R;
  alignmentWeight : R;
  cohesionWeight : R;
  separationRadius : R;
  neighborRadius : R;
  communicationRange : R;
  trailLength : R;
  speedMultiplier : R
}.

Definition DEFAULT_CONFIG : SimConfig :=
  {| algorithm := Boids;
     agentCount := 200;
     worldWidth := 1200;
     worldHeight := 800;
     maxSpeed := 3;
     maxForce := 0.15;
     separationWeight := 1.5;
     alignmentWeight := 1.0;
     cohesionWeight := 1.0;
     separationRadius := 30;
     neighborRadius := 60;
     communicationRange := 80;
     trailLength := 30;
     speedMultiplier := 1.0 |}.

(** ** Vec2 math utilities (utils/vector.ts) *)

Definition add (a b : Vec2) : Vec2 := {| x := x a + x b; y := y a + y b |}.
Definition sub (a b : Vec2) : Vec2 := {| x := x a - x b; y := y a - y b |}.
Definition scale (v : Vec2) (s : R) : Vec2 := {| x := x v * s; y := y v * s |}.
Definition mag (v : Vec2) : R := sqrt (x v * x v + y v * y v).
Definition magSq (v : Vec2) : R := x v * x v + y v * y v.

Definition normalize (v : Vec2) : Vec2 :=
  let m := mag v in
  if Rltb 0 m then {| x := x v / m; y := y v / m |} else {| x := 0; y := 0 |}.

Definition limit (v : Vec2) (max : R) : Vec2 :=
  let msq := magSq v in
  if Rltb (max * max) msq then
    let m := sqrt msq in
    {| x := (x v / m) * max; y := (y v / m) * max |}
  else v.

Definition dist (a b : Vec2) : R :=
  let dx := x a - x b in
  let dy := y a - y b in
  sqrt (dx * dx + dy * dy).

Definition distSq (a b : Vec2) : R :=
  let dx := x a - x b in
  let dy := y a - y b in
  dx * dx + dy * dy.

Definition heading (v : Vec2) : R := Math_atan2 (y v) (x v).

Definition zero : Vec2 := {| x := 0; y := 0 |}.

(** [random(maxMag)]: two draws, the angle first. *)
Definition random (maxMag : R) (s : RandomSource) : Vec2 * RandomSource :=
  let '(u1, s) := Math_random s in
  let angle := u1 * PI * 2 in
  let '(u2, s) := Math_random s in
  let r := u2 * maxMag in
  ({| x := cos angle * r; y := sin angle * r |}, s).

(** ** Grid-based spatial hash (utils/spatialHash.ts) *)

Module SpatialHash.

(** The grid is a [Map<string, Agent[]>]; a cell's key is the string
    [`${cx},${cy}`]. *)
Record t := mk {
  cellSize : R;
  grid : gmap string (list Agent)
}.

(** [new SpatialHash(cellSize)] *)
Definition new (cellSize : R) : t := {| cellSize := cellSize; grid := ∅ |}.

Definition key (cx cy : Z) : string := pretty cx +:+ "," +:+ pretty cy.

Definition cellCoords (h : t) (x y : R) : Z * Z :=
  (Math_floor (x / cellSize h), Math_floor (y / cellSize h)).

Definition clear (h : t) : t := {| cellSize := cellSize h; grid := ∅ |}.

Definition insert (h : t) (agent : Agent) : t :=
  let '(cx, cy) := cellCoords h (ax agent) (ay agent) in
  let k := key cx cy in
  match grid h !! k with
  | Some cell => {| cellSize := cellSize h; grid := <[k := cell ++ [agent]]> (grid h) |}
  | None => {| cellSize := cellSize h; grid := <[k := [agent]]> (grid h) |}
  end.

Definition insertAll (h : t) (agents : list Agent) : t :=
  fold_left insert agents (clear h).

(** The test applied to each candidate [a] of a visited cell:
    [if (a.id === excludeId) continue;] and then
    [ddx * ddx + ddy * ddy <= r2]. *)
Definition keeps (x y r2 : R) (excludeId : Z) (a : Agent) : bool :=
  if Z.eq_dec (id a) excludeId then false
  else
    let ddx := ax a - x in
    let ddy := ay a - y in
    Rleb (ddx * ddx + ddy * ddy) r2.

(** [queryRadius]; callers that rely on the default of [excludeId] pass
    [-1]. *)
Definition queryRadius (h : t) (x y radius : R) (excludeId : Z) : list Agent :=
  let r2 := radius * radius in
  let '(cx, cy) := cellCoords h x y in
  let span := Math_ceil (radius / cellSize h) in
  flat_map (fun dx =>
    flat_map (fun dy =>
      match grid h !! key (cx + dx) (cy + dy) with
      | None => []
      | Some cell => List.filter (keeps x y r2 excludeId) cell
      end) (upto (- span) span)) (upto (- span) span).

End SpatialHash.

(** ** Reynolds Boids (algorithms/boids.ts) *)

Module BoidsAlgorithm.

Definition separation (agent : Agent) (neighbors : list Agent) (config : SimConfig)
  : Vec2 :=
  let sepRadSq := separationRadius config * separationRadius config in
  let '(steer, count) :=
    fold_left (fun '(steer, count) n =>
      let dsq := distSq (posA agent) (posA n) in
      if Rltb 0 dsq && Rltb dsq sepRadSq then
        let diff := sub (posA agent) (posA n) in
        let diff := normalize diff in
        let diff := scale diff (1 / sqrt dsq) in
        (add steer diff, S count)
      else (steer, count)) neighbors (zero, O) in
  if (0 <? count)%nat then
    let steer := scale steer (1 / INR count) in
    if Rltb 0 (mag steer) then
      let steer := normalize steer in
      let steer := scale steer (maxSpeed config) in
      let steer := sub steer {| x := vx agent; y := vy agent |} in
      limit steer (maxForce config)
    else steer
  else steer.

Definition alignment (agent : Agent) (neighbors : list Agent) (config : SimConfig)
  : Vec2 :=
  if (length neighbors =? 0)%nat then zero
  else
    let avg := fold_left (fun avg n => add avg {| x := vx n; y := vy n |})
                 neighbors zero in
    let avg := scale avg (1 / INR (length neighbors)) in
    if Rltb 0 (mag avg) then
      let avg := normalize avg in
      let avg := scale avg (maxSpeed config) in
      let avg := sub avg {| x := vx agent; y := vy agent |} in
      limit avg (maxForce config)
    else avg.

Definition cohesion (agent : Agent) (neighbors : list Agent) (config : SimConfig)
  : Vec2 :=
  if (length neighbors =? 0)%nat then zero
  else
    let center := fold_left (fun center n => add center {| x := ax n; y := ay n |})
                    neighbors zero in
    let center := scale center (1 / INR (length neighbors)) in
    let desired := sub center {| x := ax agent; y := ay agent |} in
    if Rltb 0 (mag desired) then
      let desired := normalize desired in
      let desired := scale desired (maxSpeed config) in
      let desired := sub desired {| x := vx agent; y := vy agent |} in
      limit desired (maxForce config)
    else desired.

Definition avoidObstacles (agent : Agent) (obstacles : list Obstacle)
    (config : SimConfig) : Vec2 :=
  let avoidRadius := 50 in
  let steer :=
    fold_left (fun steer obs =>
      let dx := ax agent - ox obs in
      let dy := ay agent - oy obs in
      let d := sqrt (dx * dx + dy * dy) in
      let boundary := oradius obs + avoidRadius in
      if Rltb d boundary && Rltb 0 d then
        let away := normalize {| x := dx; y := dy |} in
        let away := scale away (maxSpeed config * (1 - d / boundary)) in
        add steer away
      else steer) obstacles zero in
  limit steer (maxForce config).

(** The body of the loop of [tick], for one agent. *)
Definition step (config : SimConfig) (obstacles : list Obstacle)
    (spatialHash : SpatialHash.t) (agent : Agent) : Agent :=
  let neighbors :=
    SpatialHash.queryRadius spatialHash (ax agent) (ay agent)
      (neighborRadius config) (id agent) in
  let sep := separation agent neighbors config in
  let ali := alignment agent neighbors config in
  let coh := cohesion agent neighbors config in
  let obs := avoidObstacles agent obstacles config in
  let sepW := scale sep (separationWeight config) in
  let aliW := scale ali (alignmentWeight config) in
  let cohW := scale coh (cohesionWeight config) in
  let obsW := scale obs 3 in
  let force := zero in
  let force := add force sepW in
  let force := add force aliW in
  let force := add force cohW in
  let force := add force obsW in
  let force := limit force (maxForce config) in
  let newVx := vx agent + x force in
  let newVy := vy agent + y force in
  let vel := limit {| x := newVx; y := newVy |} (maxSpeed config) in
  let newVx := x vel in
  let newVy := y vel in
  let newX := ax agent + newVx * speedMultiplier config in
  let newY := ay agent + newVy * speedMultiplier config in
  let newX := if Rltb newX 0 then newX + worldWidth config else newX in
  let newX := if Rleb (worldWidth config) newX then newX - worldWidth config else newX in
  let newY := if Rltb newY 0 then newY + worldHeight config else newY in
  let newY := if Rleb (worldHeight config) newY then newY - worldHeight config else newY in
  {| id := id agent; ax := newX; ay := newY; vx := newVx; vy := newVy;
     aheading := heading vel; state := Active |}.

Definition tick (agents : list Agent) (config : SimConfig)
    (obstacles : list Obstacle) (spatialHash : SpatialHash.t) : list Agent :=
  map (step config obstacles spatialHash) agents.

End BoidsAlgorithm.

(** ** Ant colony optimisation (algorithms/antColony.ts) *)

Module AntColonyAlgorithm.

Record FoodSource := mkFood { fx : R; fy : R; fradius : R }.

Definition posF (f : FoodSource) : Vec2 := {| x := fx f; y := fy f |}.

(** The two modes ['search'] and ['return']. *)
Inductive Mode := Search | Return.

Record AntMemory := mkMem {
  mode : Mode;
  wanderAngle : R;
  targetFoodIdx : Z;
  stepsSearching : Z
}.

(** The instance state.  [pheromoneGrid] is the row-major [Float32Array];
    [ants] is the [Map<number, AntMemory>]. *)
Record t := mk {
  pheromoneGrid : list R;
  gridCols : Z;
  gridRows : Z;
  cellSize : R;
  nestX : R;
  nestY : R;
  foodSources : list FoodSource;
  ants : gmap Z AntMemory;
  initialized : bool;
  tickCount : Z
}.

(** [new AntColonyAlgorithm()]: the field initialisers. *)
Definition new : t :=
  {| pheromoneGrid := []; gridCols := 0; gridRows := 0; cellSize := 8;
     nestX := 0; nestY := 0; foodSources := []; ants := ∅;
     initialized := false; tickCount := 0 |}.

Definition setGrid (st : t) (g : list R) : t :=
  {| pheromoneGrid := g; gridCols := gridCols st; gridRows := gridRows st;
     cellSize := cellSize st; nestX := nestX st; nestY := nestY st;
     foodSources := foodSources st; ants := ants st;
     initialized := initialized st; tickCount := tickCount st |}.

Definition setAnts (st : t) (m : gmap Z AntMemory) : t :=
  {| pheromoneGrid := pheromoneGrid st; gridCols := gridCols st;
     gridRows := gridRows st; cellSize := cellSize st; nestX := nestX st;
     nestY := nestY st; foodSources := foodSources st; ants := m;
     initialized := initialized st; tickCount := tickCount st |}.

Definition setTickCount (st : t) (n : Z) : t :=
  {| pheromoneGrid := pheromoneGrid st; gridCols := gridCols st;
     gridRows := gridRows st; cellSize := cellSize st; nestX := nestX st;
     nestY := nestY st; foodSources := foodSources st; ants := ants st;
     initialized := initialized st; tickCount := n |}.

Definition init (st : t) (config : SimConfig) : t :=
  let gridCols := Math_ceil (worldWidth config / cellSize st) in
  let gridRows := Math_ceil (worldHeight config / cellSize st) in
  {| pheromoneGrid := replicate (Z.to_nat (gridCols * gridRows)) 0;
     gridCols := gridCols;
     gridRows := gridRows;
     cellSize := cellSize st;
     nestX := worldWidth config * 0.12;
     nestY := worldHeight config * 0.5;
     foodSources :=
       [ {| fx := worldWidth config * 0.85; fy := worldHeight config * 0.2; fradius := 25 |};
         {| fx := worldWidth config * 0.80; fy := worldHeight config * 0.8; fradius := 25 |};
         {| fx := worldWidth config * 0.55; fy := worldHeight config * 0.12; fradius := 20 |};
         {| fx := worldWidth config * 0.60; fy := worldHeight config * 0.88; fradius := 20 |};
         {| fx := worldWidth config * 0.45; fy := worldHeight config * 0.5; fradius := 15 |} ];
     ants := ants st;
     initialized := true;
     tickCount := tickCount st |}.

(** [grid[idx]] for an index the code has bounds-checked. *)
Definition gridAt (g : list R) (idx : Z) : R := default 0 (g !! Z.to_nat idx).

(** [nx >= 0 && nx < gridCols && ny >= 0 && ny < gridRows] *)
Definition inGrid (st : t) (nx ny : Z) : bool :=
  (0 <=? nx)%Z && (nx <? gridCols st)%Z && (0 <=? ny)%Z && (ny <? gridRows st)%Z.

(** One cell of the evaporation loop: multiply, then snap to 0 below 0.01. *)
Definition evaporateCell (v : R) : R :=
  let v := v * 0.993 in
  if Rltb v 0.01 then 0 else v.

Definition evaporate (st : t) : t := setGrid st (map evaporateCell (pheromoneGrid st)).

Definition depositPheromone (st : t) (x y strength : R) : t :=
  let cx := Math_floor (x / cellSize st) in
  let cy := Math_floor (y / cellSize st) in
  let offsets := [(0, 0); (1, 0); (-1, 0); (0, 1); (0, -1)]%Z in
  setGrid st
    (fold_left (fun g '(dx, dy) =>
       let nx := (cx + dx)%Z in
       let ny := (cy + dy)%Z in
       if inGrid st nx ny then
         let idx := (ny * gridCols st + nx)%Z in
         let s := if (dx =? 0)%Z && (dy =? 0)%Z then strength else strength * 0.3 in
         <[Z.to_nat idx := Rmin (gridAt g idx + s) 12]> g
       else g) offsets (pheromoneGrid st)).

(** The value [sum / count] that [diffusePheromones] stores for cell (x, y). *)
Definition diffuseCell (st : t) (x y : Z) : R :=
  let idx := (y * gridCols st + x)%Z in
  let sum := gridAt (pheromoneGrid st) idx * 0.6 in
  let count := 0.6 in
  let '(sum, count) :=
    fold_left (fun acc dy =>
      fold_left (fun '(sum, count) dx =>
        if (dx =? 0)%Z && (dy =? 0)%Z then (sum, count)
        else
          let nx := (x + dx)%Z in
          let ny := (y + dy)%Z in
          if inGrid st nx ny then
            (sum + gridAt (pheromoneGrid st) (ny * gridCols st + nx) * 0.05,
             count + 0.05)
          else (sum, count)) (upto (-1) 1) acc) (upto (-1) 1) (sum, count) in
  sum / count.

Definition diffusePheromones (st : t) : t :=
  let newGrid := replicate (length (pheromoneGrid st)) 0 in
  setGrid st
    (fold_left (fun g y =>
       fold_left (fun g x =>
         let idx := (y * gridCols st + x)%Z in
         <[Z.to_nat idx := diffuseCell st x y]> g)
         (upto 0 (gridCols st - 1)) g)
       (upto 0 (gridRows st - 1)) newGrid).

Definition samplePheromone (st : t) (x y : R) : R :=
  let cx := Math_floor (x / cellSize st) in
  let cy := Math_floor (y / cellSize st) in
  if (cx <? 0)%Z || (gridCols st <=? cx)%Z || (cy <? 0)%Z || (gridRows st <=? cy)%Z
  then 0
  else gridAt (pheromoneGrid st) (cy * gridCols st + cx).

Definition setWanderAngle (mem : AntMemory) (a : R) : AntMemory :=
  {| mode := mode mem; wanderAngle := a; targetFoodIdx := targetFoodIdx mem;
     stepsSearching := stepsSearching mem |}.

Definition wanderForce (_agent : Agent) (mem : AntMemory) (s : RandomSource)
  : Vec2 * AntMemory * RandomSource :=
  let '(u, s) := Math_random s in
  let mem := setWanderAngle mem (wanderAngle mem + (u - 0.5) * 0.9) in
  ({| x := cos (wanderAngle mem) * 0.8; y := sin (wanderAngle mem) * 0.8 |}, mem, s).

Definition senseAndSteerPheromone (st : t) (agent : Agent) (mem : AntMemory)
    (s : RandomSource) : Vec2 * AntMemory * RandomSource :=
  let senseAngle := 0.6 in
  let senseDistance := 30 in
  let sense angle :=
    let sx := ax agent + cos angle * senseDistance in
    let sy := ay agent + sin angle * senseDistance in
    samplePheromone st sx sy in
  let left := sense (wanderAngle mem - senseAngle) in
  let center := sense (wanderAngle mem) in
  let right := sense (wanderAngle mem + senseAngle) in
  let total := left + center + right in
  if Rltb total 0.1 then (zero, mem, s)
  else
    let '(u, s) := Math_random s in
    let rand := u * total in
    let mem :=
      if Rltb rand left then setWanderAngle mem (wanderAngle mem - 0.25)
      else if Rltb rand (left + center) then mem
      else setWanderAngle mem (wanderAngle mem + 0.25) in
    let strength := Rmax (Rmax left center) right in
    ({| x := cos (wanderAngle mem) * Rmin strength 1;
        y := sin (wanderAngle mem) * Rmin strength 1 |}, mem, s).

(** The food-detection loop: the index of the first food source whose
    circle contains the agent, scanning from index [fi]. *)
Fixpoint findFood (agent : Agent) (foods : list FoodSource) (fi : Z) : option Z :=
  match foods with
  | [] => None
  | food :: rest =>
      if Rltb (dist (posA agent) (posF food)) (fradius food) then Some fi
      else findFood agent rest (fi + 1)
  end.

(** The block guarded by [mem.mode === 'search']. *)
Definition searchBlock (st : t) (agent : Agent) (mem : AntMemory)
    (s : RandomSource) : Vec2 * AntMemory * RandomSource :=
  let mem := {| mode := mode mem; wanderAngle := wanderAngle mem;
                targetFoodIdx := targetFoodIdx mem;
                stepsSearching := (stepsSearching mem + 1)%Z |} in
  match findFood agent (foodSources st) 0 with
  | Some fi =>
      (zero,
       {| mode := Return; wanderAngle := wanderAngle mem; targetFoodIdx := fi;
          stepsSearching := 0 |}, s)
  | None =>
      let isExplorer := (Z.rem (id agent) 10 <? 3)%Z in
      let '(force, mem, s) :=
        if isExplorer || (stepsSearching mem <? 50)%Z then
          let '(force, mem, s) := wanderForce agent mem s in
          (scale force 1.5, mem, s)
        else
          let '(phero, mem, s) := senseAndSteerPheromone st agent mem s in
          let '(wander, mem, s) := wanderForce agent mem s in
          if Rltb 0.05 (mag phero) then
            (add (scale phero 1.5) (scale wander 0.8), mem, s)
          else (scale wander 1.2, mem, s) in
      if (300 <? stepsSearching mem)%Z && (Z.rem (stepsSearching mem) 50 =? 0)%Z then
        let '(u, s) := Math_random s in
        (force, setWanderAngle mem (wanderAngle mem + (u - 0.5) * PI), s)
      else (force, mem, s)
  end.

(** The block guarded by [mem.mode === 'return'].  [foodSources[targetFoodIdx]]
    is read only for an index [>= 0]; every index the code stores is one
    that [findFood] returned, so the lookup cannot miss (JavaScript would
    throw there; the model reads distance 0). *)
Definition returnBlock (st : t) (config : SimConfig) (agent : Agent)
    (mem : AntMemory) (s : RandomSource) : Vec2 * AntMemory * t * RandomSource :=
  let foodDist :=
    if (0 <=? targetFoodIdx mem)%Z then
      match foodSources st !! Z.to_nat (targetFoodIdx mem) with
      | Some food => dist (posA agent) (posF food)
      | None => 0
      end
    else 100 in
  let strength := Rmax 0.5 (3.0 - foodDist * 0.005) in
  let st := depositPheromone st (ax agent) (ay agent) strength in
  let toNest := sub {| x := nestX st; y := nestY st |} (posA agent) in
  let nestDist := mag toNest in
  if Rltb nestDist 15 then
    let '(u, s) := Math_random s in
    let mem := {| mode := Search; wanderAngle := u * PI * 2;
                  targetFoodIdx := -1; stepsSearching := 0 |} in
    ({| x := cos (wanderAngle mem) * 2; y := sin (wanderAngle mem) * 2 |},
     mem, st, s)
  else
    let force := scale (normalize toNest) (maxSpeed config * 0.9) in
    let '(u, s) := Math_random s in
    let wobble := (u - 0.5) * 0.4 in
    let force := add force
      {| x := cos (heading toNest + PI / 2) * wobble;
         y := sin (heading toNest + PI / 2) * wobble |} in
    (force, mem, st, s).

(** Obstacle avoidance and wall avoidance, added to the force afterwards. *)
Definition avoid (config : SimConfig) (obstacles : list Obstacle)
    (agent : Agent) (force : Vec2) : Vec2 :=
  let force :=
    fold_left (fun force obs =>
      let d := dist (posA agent) (posO obs) in
      let boundary := oradius obs + 30 in
      if Rltb d boundary && Rltb 0 d then
        let away := normalize (sub (posA agent) (posO obs)) in
        add force (scale away (maxSpeed config * 2 * (1 - d / boundary)))
      else force) obstacles force in
  let margin := 25 in
  let force := if Rltb (ax agent) margin then add force {| x := 2; y := 0 |} else force in
  let force := if Rltb (worldWidth config - margin) (ax agent)
               then add force {| x := -2; y := 0 |} else force in
  let force := if Rltb (ay agent) margin then add force {| x := 0; y := 2 |} else force in
  let force := if Rltb (worldHeight config - margin) (ay agent)
               then add force {| x := 0; y := -2 |} else force in
  force.

(** The memory record the loop body works on: created on first sight of
    the id (one draw for the initial heading), otherwise the stored one. *)
Definition recall (st : t) (agent : Agent) (s : RandomSource)
  : AntMemory * RandomSource :=
  match ants st !! id agent with
  | Some mem => (mem, s)
  | None =>
      let '(u, s) := Math_random s in
      ({| mode := Search; wanderAngle := u * PI * 2; targetFoodIdx := -1;
          stepsSearching := 0 |}, s)
  end.

(** The body of the agent loop of [tick].  [mem] is the object held in
    [ants] under the agent's id; the loop mutates it in place, which the
    model renders by storing the final record back under that id. *)
Definition step (config : SimConfig) (obstacles : list Obstacle)
    (st : t) (s : RandomSource) (agent : Agent) : Agent * t * RandomSource :=
  let '(mem, s) := recall st agent s in
  let force := zero in
  let '(force, mem, s) :=
    match mode mem with
    | Search => searchBlock st agent mem s
    | Return => (force, mem, s)
    end in
  let '(force, mem, st, s) :=
    match mode mem with
    | Return => returnBlock st config agent mem s
    | Search => (force, mem, st, s)
    end in
  let force := avoid config obstacles agent force in
  let force := limit force (maxForce config * 3) in
  let newVx := vx agent * 0.8 + x force in
  let newVy := vy agent * 0.8 + y force in
  let speed := match mode mem with
               | Return => maxSpeed config * 0.8
               | Search => maxSpeed config * 0.6
               end in
  let vel := limit {| x := newVx; y := newVy |} speed in
  let newVx := x vel in
  let newVy := y vel in
  let newX := ax agent + newVx * speedMultiplier config in
  let newY := ay agent + newVy * speedMultiplier config in
  let newX := Rmax 1 (Rmin (worldWidth config - 1) newX) in
  let newY := Rmax 1 (Rmin (worldHeight config - 1) newY) in
  ({| id := id agent; ax := newX; ay := newY; vx := newVx; vy := newVy;
      aheading := heading vel;
      state := match mode mem with Return => Stuck | Search => Active end |},
   setAnts st (<[id agent := mem]> (ants st)), s).

(** The agent loop: [updated[i]] is the result of the body on [agents[i]]. *)
Fixpoint loop (config : SimConfig) (obstacles : list Obstacle)
    (st : t) (s : RandomSource) (agents : list Agent)
  : list Agent * t * RandomSource :=
  match agents with
  | [] => ([], st, s)
  | agent :: rest =>
      let '(a', st, s) := step config obstacles st s agent in
      let '(updated, st, s) := loop config obstacles st s rest in
      (a' :: updated, st, s)
  end.

(** The field maintenance that opens [tick]: lazy init, tick counter,
    evaporation, and diffusion on every 4th tick. *)
Definition maintain (st : t) (config : SimConfig) : t :=
  let st := if initialized st then st else init st config in
  let st := setTickCount st (tickCount st + 1) in
  let st := evaporate st in
  if (Z.rem (tickCount st) 4 =? 0)%Z then diffusePheromones st else st.

Definition tick (st : t) (agents : list Agent) (config : SimConfig)
    (obstacles : list Obstacle) (_spatialHash : SpatialHash.t)
    (s : RandomSource) : list Agent * t * RandomSource :=
  loop config obstacles (maintain st config) s agents.

End AntColonyAlgorithm.

(** ** Particle swarm optimisation (algorithms/pso.ts) *)

Module PSOAlgorithm.

Record ParticleMemory := mkMem {
  personalBestX : R;
  personalBestY : R;
  personalBestFitness : XR
}.

Record Target := mkTarget { tx : R; ty : R; tvx : R; tvy : R }.

Definition posT (t : Target) : Vec2 := {| x := tx t; y := ty t |}.

Record t := mk {
  globalBestFitness : XR;
  particles : gmap Z ParticleMemory;
  targets : list Target;
  initialized : bool;
  tickCount : Z
}.

(** [new PSOAlgorithm()]: the field initialisers. *)
Definition new : t :=
  {| globalBestFitness := Infinity; particles := ∅; targets := [];
     initialized := false; tickCount := 0 |}.

Definition init (st : t) (config : SimConfig) : t :=
  {| targets :=
       [ {| tx := worldWidth config * 0.25; ty := worldHeight config * 0.25;
            tvx := 2.5; tvy := 1.8 |};
         {| tx := worldWidth config * 0.75; ty := worldHeight config * 0.75;
            tvx := -2.0; tvy := 2.2 |};
         {| tx := worldWidth config * 0.5; ty := worldHeight config * 0.15;
            tvx := 1.5; tvy := -1.5 |} ];
     globalBestFitness := Infinity;
     particles := ∅;
     initialized := true;
     tickCount := tickCount st |}.

Definition fitness (st : t) (x y : R) : XR :=
  fold_left (fun best t =>
    let dx := x - tx t in
    let dy := y - ty t in
    let d := sqrt (dx * dx + dy * dy) in
    if xltb (Num d) best then Num d else best) (targets st) Infinity.

(** [nearestTarget] starts from [targets[0]].  The list is never empty
    when the agent loop runs ([init] installs three targets and nothing
    removes one); for an empty list, where JavaScript yields [undefined],
    the model yields a target at the origin. *)
Definition nearestTarget (st : t) (x y : R) : Target :=
  let best := hd {| tx := 0; ty := 0; tvx := 0; tvy := 0 |} (targets st) in
  fst (fold_left (fun '(best, bestD) t =>
         let d := (x - tx t) ^ 2 + (y - ty t) ^ 2 in
         if xltb (Num d) bestD then (t, Num d) else (best, bestD))
       (targets st) (best, Infinity)).

(** One target of the "move targets" loop. *)
Definition moveTarget (config : SimConfig) (t : Target) : Target :=
  let x := tx t + tvx t in
  let y := ty t + tvy t in
  let '(vx, x) :=
    if Rltb x 40 || Rltb (worldWidth config - 40) x
    then (tvx t * -1, Rmax 40 (Rmin (worldWidth config - 40) x))
    else (tvx t, x) in
  let '(vy, y) :=
    if Rltb y 40 || Rltb (worldHeight config - 40) y
    then (tvy t * -1, Rmax 40 (Rmin (worldHeight config - 40) y))
    else (tvy t, y) in
  {| tx := x; ty := y; tvx := vx; tvy := vy |}.

Definition setTargets (st : t) (ts : list Target) : t :=
  {| globalBestFitness := globalBestFitness st; particles := particles st;
     targets := ts; initialized := initialized st; tickCount := tickCount st |}.

(** The block run when [tickCount % 120 === 0]: one target is moved to a
    random place with a random velocity (four draws), then the particle
    memory is cleared and the global best reset.  [tickCount / 120] is
    exact there. *)
Definition teleport (st : t) (config : SimConfig) (s : RandomSource)
  : t * RandomSource :=
  let idx := Z.to_nat (Z.rem (tickCount st / 120) (Z.of_nat (length (targets st)))) in
  let '(u1, s) := Math_random s in
  let '(u2, s) := Math_random s in
  let '(u3, s) := Math_random s in
  let angle := u3 * PI * 2 in
  let '(u4, s) := Math_random s in
  let speed := 1.5 + u4 * 2.0 in
  let moved :=
    {| tx := 80 + u1 * (worldWidth config - 160);
       ty := 80 + u2 * (worldHeight config - 160);
       tvx := cos angle * speed;
       tvy := sin angle * speed |} in
  ({| targets := <[idx := moved]> (targets st);
      particles := ∅;
      globalBestFitness := Infinity;
      initialized := initialized st;
      tickCount := tickCount st |}, s).

(** What [tick] does before the agent loop. *)
Definition prepare (st : t) (config : SimConfig) (s : RandomSource)
  : t * RandomSource :=
  let st := if initialized st then st else init st config in
  let st := {| globalBestFitness := globalBestFitness st;
               particles := particles st; targets := targets st;
               initialized := initialized st;
               tickCount := (tickCount st + 1)%Z |} in
  let st := setTargets st (map (moveTarget config) (targets st)) in
  if (Z.rem (tickCount st) 120 =? 0)%Z then teleport st config s else (st, s).

(** "Init particle memory": the stored record, or a new one at the
    agent's position (which may lower the global best). *)
Definition recall (st : t) (agent : Agent) : ParticleMemory * XR :=
  match particles st !! id agent with
  | Some mem => (mem, globalBestFitness st)
  | None =>
      let fit := fitness st (ax agent) (ay agent) in
      ({| personalBestX := ax agent; personalBestY := ay agent;
          personalBestFitness := fit |},
       if xltb fit (globalBestFitness st) then fit else globalBestFitness st)
  end.

(** The body of the agent loop of [tick]; the mutated memory object is
    stored back under the agent's id. *)
Definition step (config : SimConfig) (obstacles : list Obstacle)
    (st : t) (s : RandomSource) (agent : Agent) : Agent * t * RandomSource :=
  let '(mem, gbest) := recall st agent in
  let currentFitness := fitness st (ax agent) (ay agent) in
  let mem :=
    if xltb currentFitness (personalBestFitness mem) then
      {| personalBestX := ax agent; personalBestY := ay agent;
         personalBestFitness := currentFitness |}
    else mem in
  let gbest := if xltb currentFitness gbest then currentFitness else gbest in
  let '(r1, s) := Math_random s in
  let '(r2, s) := Math_random s in
  let nearest := nearestTarget st (ax agent) (ay agent) in
  let toTarget := sub (posT nearest) (posA agent) in
  let targetPull := scale toTarget (0.02 * r2) in
  let toPersonal :=
    sub {| x := personalBestX mem; y := personalBestY mem |} (posA agent) in
  let cognitive := scale toPersonal (0.015 * r1) in
  let '(n1, s) := Math_random s in
  let '(n2, s) := Math_random s in
  let noise := {| x := (n1 - 0.5) * 1.2; y := (n2 - 0.5) * 1.2 |} in
  let inertia := 0.75 in
  let newVx := inertia * vx agent + x cognitive + x targetPull + x noise in
  let newVy := inertia * vy agent + y cognitive + y targetPull + y noise in
  let '(newVx, newVy) :=
    fold_left (fun '(newVx, newVy) obs =>
      let d := dist (posA agent) (posO obs) in
      let boundary := oradius obs + 40 in
      if Rltb d boundary && Rltb 0 d then
        let away := normalize (sub (posA agent) (posO obs)) in
        (newVx + x away * maxSpeed config * (1 - d / boundary),
         newVy + y away * maxSpeed config * (1 - d / boundary))
      else (newVx, newVy)) obstacles (newVx, newVy) in
  let vel := limit {| x := newVx; y := newVy |} (maxSpeed config) in
  let newVx := x vel in
  let newVy := y vel in
  let newX := ax agent + newVx * speedMultiplier config in
  let newY := ay agent + newVy * speedMultiplier config in
  let '(newVx, newX) :=
    if Rltb newX 10 then (Rabs newVx, 10) else (newVx, newX) in
  let '(newVx, newX) :=
    if Rltb (worldWidth config - 10) newX
    then (- Rabs newVx, worldWidth config - 10) else (newVx, newX) in
  let '(newVy, newY) :=
    if Rltb newY 10 then (Rabs newVy, 10) else (newVy, newY) in
  let '(newVy, newY) :=
    if Rltb (worldHeight config - 10) newY
    then (- Rabs newVy, worldHeight config - 10) else (newVy, newY) in
  let nearTarget := Rltb (dist {| x := newX; y := newY |} (posT nearest)) 35 in
  ({| id := id agent; ax := newX; ay := newY; vx := newVx; vy := newVy;
      aheading := heading vel;
      state := if nearTarget then Stuck else Active |},
   {| globalBestFitness := gbest;
      particles := <[id agent := mem]> (particles st);
      targets := targets st;
      initialized := initialized st;
      tickCount := tickCount st |}, s).

Fixpoint loop (config : SimConfig) (obstacles : list Obstacle)
    (st : t) (s : RandomSource) (agents : list Agent)
  : list Agent * t * RandomSource :=
  match agents with
  | [] => ([], st, s)
  | agent :: rest =>
      let '(a', st, s) := step config obstacles st s agent in
      let '(updated, st, s) := loop config obstacles st s rest in
      (a' :: updated, st, s)
  end.

Definition tick (st : t) (agents : list Agent) (config : SimConfig)
    (obstacles : list Obstacle) (_spatialHash : SpatialHash.t)
    (s : RandomSource) : list Agent * t * RandomSource :=
  let '(st, s) := prepare st config s in
  loop config obstacles st s agents.

End PSOAlgorithm.

(** ** Algorithm registry (algorithms/index.ts, algorithms/base.ts) *)

(** A [SwarmAlgorithm] instance is one of the three classes, with that
    class's private state. *)
Inductive SwarmAlgorithm :=
| BoidsInstance
| AntColonyInstance (st : AntColonyAlgorithm.t)
| PSOInstance (st : PSOAlgorithm.t).

Definition getAlgorithm (type : AlgorithmType) : SwarmAlgorithm :=
  match type with
  | Boids => BoidsInstance
  | AntColony => AntColonyInstance AntColonyAlgorithm.new
  | PSO => PSOInstance PSOAlgorithm.new
  end.

(** The interface method [tick], dispatched on the instance. *)
Definition algorithmTick (alg : SwarmAlgorithm) (agents : list Agent)
    (config : SimConfig) (obstacles : list Obstacle)
    (spatialHash : SpatialHash.t) (s : RandomSource)
  : list Agent * SwarmAlgorithm * RandomSource :=
  match alg with
  | BoidsInstance =>
      (BoidsAlgorithm.tick agents config obstacles spatialHash, BoidsInstance, s)
  | AntColonyInstance st =>
      let '(updated, st, s) :=
        AntColonyAlgorithm.tick st agents config obstacles spatialHash s in
      (updated, AntColonyInstance st, s)
  | PSOInstance st =>
      let '(updated, st, s) :=
        PSOAlgorithm.tick st agents config obstacles spatialHash s in
      (updated, PSOInstance st, s)
  end.

(** ** Simulation worker (workers/simulation.worker.ts, workers/protocol.ts) *)

Module Worker.

(** [Partial<SimConfig>]: a field is present or absent. *)
Record PartialConfig := mkPartial {
  p_algorithm : option AlgorithmType;
  p_agentCount : option Z;
  p_worldWidth : option R;
  p_worldHeight : option R;
  p_maxSpeed : option R;
  p_maxForce : option R;
  p_separationWeight : option R;
  p_alignmentWeight : option R;
  p_cohesionWeight : option R;
  p_separationRadius : option R;
  p_neighborRadius : option R;
  p_communicationRange : option R;
  p_trailLength : option R;
  p_speedMultiplier : option R
}.

(** The spread [{ ...config, ...partial }]. *)
Definition merge (config : SimConfig) (p : PartialConfig) : SimConfig :=
  {| algorithm := default (algorithm config) (p_algorithm p);
     agentCount := default (agentCount config) (p_agentCount p);
     worldWidth := default (worldWidth config) (p_worldWidth p);
     worldHeight := default (worldHeight config) (p_worldHeight p);
     maxSpeed := default (maxSpeed config) (p_maxSpeed p);
     maxForce := default (maxForce config) (p_maxForce p);
     separationWeight := default (separationWeight config) (p_separationWeight p);
     alignmentWeight := default (alignmentWeight config) (p_alignmentWeight p);
     cohesionWeight := default (cohesionWeight config) (p_cohesionWeight p);
     separationRadius := default (separationRadius config) (p_separationRadius p);
     neighborRadius := default (neighborRadius config) (p_neighborRadius p);
     communicationRange := default (communicationRange config) (p_communicationRange p);
     trailLength := default (trailLength config) (p_trailLength p);
     speedMultiplier := default (speedMultiplier config) (p_speedMultiplier p) |}.

(** Truthiness of an optional field, as tested by [if (msg.config.f)]:
    an algorithm name is a non-empty string, so it is truthy when present;
    a number is truthy when present and not 0. *)
Definition truthyAlgorithm (o : option AlgorithmType) : bool :=
  match o with Some _ => true | None => false end.
Definition truthyNumber (o : option R) : bool :=
  match o with
  | Some r => if Req_dec_T r 0 then false else true
  | None => false
  end.

Inductive WorkerInMessage :=
| INIT (config : SimConfig) (agents : list Agent) (obstacles : list Obstacle)
| UPDATE_CONFIG (config : PartialConfig)
| UPDATE_OBSTACLES (obstacles : list Obstacle)
| SET_DEBUG (enabled : bool)
| SET_AGENTS (agents : list Agent)
| PLAY
| PAUSE
| STEP
| RESET (config : SimConfig).

(** The messages posted to the main thread (without [debugInfo]). *)
Inductive WorkerOutMessage :=
| TICK (agents : list Agent) (tick : Z)
| READY.

(** [config.algorithm], named apart from the worker's own [algorithm]. *)
Definition selector (config : SimConfig) : AlgorithmType := algorithm config.

(** The worker's module-level variables, together with what it reads from
    and writes to its environment: the random source, the messages posted
    so far (newest last) and the timers that are scheduled. *)
Record t := mk {
  agents : list Agent;
  config : option SimConfig;
  obstacles : list Obstacle;
  algorithm : option SwarmAlgorithm;
  spatialHash : option SpatialHash.t;
  tick : Z;
  running : bool;
  debugEnabled : bool;
  animFrameId : option nat;
  posHistory : gmap Z (list Vec2);
  rng : RandomSource;
  posted : list WorkerOutMessage;
  timers : list nat;
  nextTimer : nat
}.

Definition initial (s : RandomSource) : t :=
  {| agents := []; config := None; obstacles := []; algorithm := None;
     spatialHash := None; tick := 0; running := false; debugEnabled := false;
     animFrameId := None; posHistory := ∅; rng := s; posted := [];
     timers := []; nextTimer := 0 |}.

(** One iteration of the loop of [spawnAgents]. *)
Definition spawnOne (cfg : SimConfig) (i : Z) (s : RandomSource)
  : Agent * RandomSource :=
  let '(vel, s) := random (maxSpeed cfg * 0.5) s in
  let '(u1, s) := Math_random s in
  let '(u2, s) := Math_random s in
  ({| id := i; ax := u1 * worldWidth cfg; ay := u2 * worldHeight cfg;
      vx := x vel; vy := y vel; aheading := heading vel; state := Active |}, s).

Fixpoint spawnLoop (cfg : SimConfig) (indices : list Z) (s : RandomSource)
  : list Agent * RandomSource :=
  match indices with
  | [] => ([], s)
  | i :: rest =>
      let '(a, s) := spawnOne cfg i s in
      let '(spawned, s) := spawnLoop cfg rest s in
      (a :: spawned, s)
  end.

Definition spawnAgents (cfg : SimConfig) (s : RandomSource)
  : list Agent * RandomSource :=
  spawnLoop cfg (upto 0 (agentCount cfg - 1)) s.

Definition ANOMALY_WINDOW : nat := 40.

Definition setState (a : Agent) (st : AgentState) : Agent :=
  {| id := id a; ax := ax a; ay := ay a; vx := vx a; vy := vy a;
     aheading := aheading a; state := st |}.

(** The body of the anomaly-detection loop for [agents[i]]: the history
    array of the agent's id gets the position pushed and, beyond the
    window, its first entry shifted out; a full window whose oldest entry
    is closer than 8 to the agent replaces the agent by an [Anomaly] copy. *)
Definition detect (hist : gmap Z (list Vec2)) (a : Agent)
  : Agent * gmap Z (list Vec2) :=
  let h := default [] (hist !! id a) in
  let h := h ++ [posA a] in
  let h := if (ANOMALY_WINDOW <? length h)%nat then tail h else h in
  let a' :=
    if (ANOMALY_WINDOW <=? length h)%nat then
      match head h with
      | Some oldest =>
          let dx := ax a - x oldest in
          let dy := ay a - y oldest in
          let displacement := sqrt (dx * dx + dy * dy) in
          if Rltb displacement 8 then setState a Anomaly else a
      | None => a
      end
    else a in
  (a', <[id a := h]> hist).

Fixpoint detectAll (hist : gmap Z (list Vec2)) (agents : list Agent)
  : list Agent * gmap Z (list Vec2) :=
  match agents with
  | [] => ([], hist)
  | a :: rest =>
      let '(a', hist) := detect hist a in
      let '(out, hist) := detectAll hist rest in
      (a' :: out, hist)
  end.

Definition post (w : t) (m : WorkerOutMessage) : t :=
  {| agents := agents w; config := config w; obstacles := obstacles w;
     algorithm := algorithm w; spatialHash := spatialHash w; tick := tick w;
     running := running w; debugEnabled := debugEnabled w;
     animFrameId := animFrameId w; posHistory := posHistory w; rng := rng w;
     posted := posted w ++ [m]; timers := timers w; nextTimer := nextTimer w |}.

Definition simTick (w : t) : t :=
  match config w, algorithm w, spatialHash w with
  | Some cfg, Some alg, Some hash =>
      let hash := SpatialHash.insertAll hash (agents w) in
      let '(updated, alg, s) :=
        algorithmTick alg (agents w) cfg (obstacles w) hash (rng w) in
      let tick := (tick w + 1)%Z in
      let '(flagged, hist) := detectAll (posHistory w) updated in
      post {| agents := flagged; config := Some cfg; obstacles := obstacles w;
              algorithm := Some alg; spatialHash := Some hash; tick := tick;
              running := running w; debugEnabled := debugEnabled w;
              animFrameId := animFrameId w; posHistory := hist; rng := s;
              posted := posted w; timers := timers w;
              nextTimer := nextTimer w |}
           (TICK flagged tick)
  | _, _, _ => w
  end.

(** [simLoop]: one tick and a new 16 ms timer, when running. *)
Definition simLoop (w : t) : t :=
  if running w then
    let w := simTick w in
    {| agents := agents w; config := config w; obstacles := obstacles w;
       algorithm := algorithm w; spatialHash := spatialHash w; tick := tick w;
       running := running w; debugEnabled := debugEnabled w;
       animFrameId := Some (nextTimer w); posHistory := posHistory w;
       rng := rng w; posted := posted w;
       timers := timers w ++ [nextTimer w]; nextTimer := S (nextTimer w) |}
  else w.

Definition setRunning (w : t) (b : bool) : t :=
  {| agents := agents w; config := config w; obstacles := obstacles w;
     algorithm := algorithm w; spatialHash := spatialHash w; tick := tick w;
     running := b; debugEnabled := debugEnabled w;
     animFrameId := animFrameId w; posHistory := posHistory w; rng := rng w;
     posted := posted w; timers := timers w; nextTimer := nextTimer w |}.

Definition startLoop (w : t) : t := simLoop (setRunning w true).

Definition stopLoop (w : t) : t :=
  let w := setRunning w false in
  match animFrameId w with
  | Some n =>
      {| agents := agents w; config := config w; obstacles := obstacles w;
         algorithm := algorithm w; spatialHash := spatialHash w; tick := tick w;
         running := running w; debugEnabled := debugEnabled w;
         animFrameId := None; posHistory := posHistory w; rng := rng w;
         posted := posted w;
         timers := List.filter (fun m => negb (m =? n)%nat) (timers w);
         nextTimer := nextTimer w |}
  | None => w
  end.

(** The [SET_AGENTS] statement
    [posHistory.get(agents[0]?.id)?.fill({x: agents[0]?.x, y: agents[0]?.y})]:
    when the first agent of the new population has a history array, every
    entry of that array becomes the agent's position. *)
Definition fillFirst (hist : gmap Z (list Vec2)) (agents : list Agent)
  : gmap Z (list Vec2) :=
  match agents with
  | a0 :: _ =>
      match hist !! id a0 with
      | Some h => <[id a0 := replicate (length h) (posA a0)]> hist
      | None => hist
      end
  | [] => hist
  end.

(** [self.onmessage] *)
Definition onmessage (w : t) (msg : WorkerInMessage) : t :=
  match msg with
  | INIT cfg msgAgents obs =>
      let '(agents, s) :=
        if (0 <? length msgAgents)%nat then (msgAgents, rng w)
        else spawnAgents cfg (rng w) in
      let w :=
        {| agents := agents; config := Some cfg; obstacles := obs;
           algorithm := Some (getAlgorithm (selector cfg));
           spatialHash := Some (SpatialHash.new (neighborRadius cfg));
           tick := 0; running := running w; debugEnabled := debugEnabled w;
           animFrameId := animFrameId w; posHistory := posHistory w; rng := s;
           posted := posted w; timers := timers w; nextTimer := nextTimer w |} in
      let w := post w READY in
      post w (TICK agents 0)
  | UPDATE_CONFIG p =>
      match config w with
      | Some cfg =>
          let cfg := merge cfg p in
          let alg :=
            if truthyAlgorithm (p_algorithm p)
            then Some (getAlgorithm (selector cfg)) else algorithm w in
          let hash :=
            if truthyNumber (p_neighborRadius p)
            then Some (SpatialHash.new (neighborRadius cfg)) else spatialHash w in
          {| agents := agents w; config := Some cfg; obstacles := obstacles w;
             algorithm := alg; spatialHash := hash; tick := tick w;
             running := running w; debugEnabled := debugEnabled w;
             animFrameId := animFrameId w; posHistory := posHistory w;
             rng := rng w; posted := posted w; timers := timers w;
             nextTimer := nextTimer w |}
      | None => w
      end
  | UPDATE_OBSTACLES obs =>
      {| agents := agents w; config := config w; obstacles := obs;
         algorithm := algorithm w; spatialHash := spatialHash w; tick := tick w;
         running := running w; debugEnabled := debugEnabled w;
         animFrameId := animFrameId w; posHistory := posHistory w;
         rng := rng w; posted := posted w; timers := timers w;
         nextTimer := nextTimer w |}
  | SET_DEBUG enabled =>
      {| agents := agents w; config := config w; obstacles := obstacles w;
         algorithm := algorithm w; spatialHash := spatialHash w; tick := tick w;
         running := running w; debugEnabled := enabled;
         animFrameId := animFrameId w; posHistory := posHistory w;
         rng := rng w; posted := posted w; timers := timers w;
         nextTimer := nextTimer w |}
  | SET_AGENTS msgAgents =>
      {| agents := msgAgents; config := config w; obstacles := obstacles w;
         algorithm := algorithm w; spatialHash := spatialHash w; tick := tick w;
         running := running w; debugEnabled := debugEnabled w;
         animFrameId := animFrameId w;
         posHistory := fillFirst (posHistory w) msgAgents;
         rng := rng w; posted := posted w; timers := timers w;
         nextTimer := nextTimer w |}
  | PLAY => startLoop w
  | PAUSE => stopLoop w
  | STEP => simTick (stopLoop w)
  | RESET cfg =>
      let w := stopLoop w in
      let '(agents, s) := spawnAgents cfg (rng w) in
      post {| agents := agents; config := Some cfg; obstacles := obstacles w;
              algorithm := Some (getAlgorithm (selector cfg));
              spatialHash := Some (SpatialHash.new (neighborRadius cfg));
              tick := 0; running := running w; debugEnabled := debugEnabled w;
              animFrameId := animFrameId w; posHistory := ∅; rng := s;
              posted := posted w; timers := timers w;
              nextTimer := nextTimer w |}
           (TICK agents 0)
  end.

(** What the worker reacts to: a message from the main thread, or one of
    its scheduled timers firing (which calls [simLoop]). *)
Inductive Event :=
| Message (msg : WorkerInMessage)
| Timeout (n : nat).

Definition react (w : t) (e : Event) : t :=
  match e with
  | Message msg => onmessage w msg
  | Timeout n =>
      if existsb (Nat.eqb n) (timers w) then
        simLoop
          {| agents := agents w; config := config w; obstacles := obstacles w;
             algorithm := algorithm w; spatialHash := spatialHash w;
             tick := tick w; running := running w;
             debugEnabled := debugEnabled w; animFrameId := animFrameId w;
             posHistory := posHistory w; rng := rng w; posted := posted w;
             timers := List.filter (fun m => negb (m =? n)%nat) (timers w);
             nextTimer := nextTimer w |}
      else w
  end.

(** The worker after a sequence of events, from its initial state. *)
Definition run (s : RandomSource) (es : list Event) : t :=
  fold_left react es (initial s).

End Worker.

(** ** Vec2 math utilities in binary64 (utils/vector.ts)

    A JavaScript number is an IEEE 754 binary64 value.  [mag], [magSq] and
    [limit] and the distance test of the spatial hash are given here a
    second time, over the kernel's binary64 floats, to evaluate them on
    inputs where rounding or overflow decides the result. *)

Module Double.
Import PrimFloat.
Local Open Scope float_scope.

Record Vec2 := mkVec2 { x : float; y : float }.

Definition mag (v : Vec2) : float := sqrt (x v * x v + y v * y v).

Definition magSq (v : Vec2) : float := x v * x v + y v * y v.

Definition limit (v : Vec2) (max : float) : Vec2 :=
  let msq := magSq v in
  if max * max <? msq then
    let m := sqrt msq in
    {| x := (x v / m) * max; y := (y v / m) * max |}
  else v.

(** The distance test of [SpatialHash.queryRadius] (utils/spatialHash.ts)
    for a candidate at [(ax, ay)]: [ddx * ddx + ddy * ddy <= r2]. *)
Definition near (ax ay x y radius : float) : bool :=
  let r2 := radius * radius in
  let ddx := ax - x in
  let ddy := ay - y in
  ddx * ddx + ddy * ddy <=? r2.

End Double.

(** ** Analytics utilities (utils/analytics.ts) *)

Module Analytics.

(** The visit grid is a [Uint16Array]: a list of integers of [0, 65535].
    Reading past its end yields [undefined], which is not [> 0].  The
    result is meant for [gridCols * gridRows > 0]; for 0 cells JavaScript
    computes [0 / 0]. *)
Definition computeCoverage (visitGrid : list Z) (gridCols gridRows : Z) : R :=
  let total := (gridCols * gridRows)%Z in
  let visited :=
    fold_left (fun visited i =>
      match visitGrid !! Z.to_nat i with
      | Some v => if (0 <? v)%Z then (visited + 1)%Z else visited
      | None => visited
      end) (upto 0 (total - 1)) 0%Z in
  IZR visited / IZR total * 100.

(** The body of the loop of [updateVisitGrid], for [agents[i]];
    [visitGrid[idx]++] stores the sum modulo 2^16, as a [Uint16Array]
    does.  The cell size is meant to be other than 0: JavaScript divides
    by 0 into an infinity or NaN, which is no index. *)
Definition visit (cellSize : R) (gridCols : Z) (visitGrid : list Z) (a : Agent)
  : list Z :=
  let cx := Math_floor (ax a / cellSize) in
  let cy := Math_floor (ay a / cellSize) in
  let idx := (cy * gridCols + cx)%Z in
  if (0 <=? idx)%Z && (idx <? Z.of_nat (length visitGrid))%Z then
    match visitGrid !! Z.to_nat idx with
    | Some v =>
        if (v <? 65535)%Z
        then <[Z.to_nat idx := ((v + 1) mod 65536)%Z]> visitGrid
        else visitGrid
    | None => visitGrid
    end
  else visitGrid.

Definition updateVisitGrid (agents : list Agent) (visitGrid : list Z)
    (cellSize : R) (gridCols : Z) : list Z :=
  fold_left (visit cellSize gridCols) agents visitGrid.

End Analytics.

(** ** Analytics: the cluster count (utils/analytics.ts) *)

Module Clusters.

(** The distance test of [bfs]: [dx * dx + dy * dy <= r2]. *)
Definition near (r2 : R) (a b : Agent) : bool :=
  let dx := ax a - ax b in
  let dy := ay a - ay b in
  Rleb (dx * dx + dy * dy) r2.

(** The [for] loop inside the [while] loop of [bfs], for the popped agent
    [a]: every index not yet visited whose agent is near [a] is added to
    [visited] and pushed on the queue. *)
Definition scan (agents : list Agent) (r2 : R) (a : Agent)
    (visited : gset nat) (queue : list nat) : gset nat * list nat :=
  fold_left (fun '(visited, queue) i =>
    if bool_decide (i ∈ visited) then (visited, queue)
    else
      match agents !! i with
      | Some b =>
          if near r2 a b then ({[i]} ∪ visited, queue ++ [i])
          else (visited, queue)
      | None => (visited, queue)
      end) (seq 0 (length agents)) (visited, queue).

(** [queue.pop()]: the last element and the remaining array. *)
Definition pop (queue : list nat) : option (nat * list nat) :=
  match last queue with
  | Some idx => Some (idx, removelast queue)
  | None => None
  end.

(** The number of indices below [n] that are not in [visited]. *)
Definition unvisited (n : nat) (visited : gset nat) : nat :=
  length (List.filter (fun i => negb (bool_decide (i ∈ visited))) (seq 0 n)).

Definition inspect {A} (a : A) : {b | a = b} := exist _ a eq_refl.
End Clusters.

Section ScanFacts.
Import Clusters.
Context (agents : list Agent) (r2 : R).

(** The indices a scan for [a] adds, over the index list [l]. *)
Definition fresh (a : Agent) (v : gset nat) (l : list nat) : list nat :=
  List.filter (fun i => negb (bool_decide (i ∈ v)) &&
                 match agents !! i with Some b => near r2 a b | None => false end) l.

Lemma fresh_ext a v v' l :
  (forall i, i ∈ l -> (i ∈ v <-> i ∈ v')) -> fresh a v l = fresh a v' l.
Proof.
  intros H. unfold fresh. induction l as [|i l IH]; [done|]. cbn [List.filter].
  rewrite IH by (intros j Hj; apply H; by right).
  assert (Hi : bool_decide (i ∈ v) = bool_decide (i ∈ v')).
  { apply bool_decide_ext, H. by left. }
  by rewrite Hi.
Qed.

Lemma scan_fold a l : forall v q,
  NoDup l ->
  fold_left (fun '(visited, queue) i =>
    if bool_decide (i ∈ visited) then (visited, queue)
    else
      match agents !! i with
      | Some b =>
          if near r2 a b then ({[i]} ∪ visited, queue ++ [i])
          else (visited, queue)
      | None => (visited, queue)
      end) l (v, q)
  = (list_to_set (fresh a v l) ∪ v, q ++ fresh a v l).
Proof.
  induction l as [|i l IH]; intros v q Hnd.
  - simpl. f_equal; [set_solver|by rewrite app_nil_r].
  - apply NoDup_cons in Hnd as [Hi Hnd]. cbn [fold_left].
    unfold fresh at 1 2. cbn [List.filter]. fold (fresh a v l).
    case_bool_decide as Hv; cbn [negb andb].
    + by apply IH.
    + destruct (agents !! i) as [b|] eqn:Eb; [|by apply IH].
      destruct (near r2 a b) eqn:En; [|by apply IH].
      rewrite IH by done.
      rewrite (fresh_ext a ({[i]} ∪ v) v l) by set_solver.
      f_equal; [set_solver|]. by rewrite <- app_assoc.
Qed.

Lemma scan_eq a v q :
  scan agents r2 a v q
  = (list_to_set (fresh a v (seq 0 (length agents))) ∪ v,
     q ++ fresh a v (seq 0 (length agents))).
Proof. unfold scan. apply scan_fold, NoDup_seq. Qed.

Lemma elem_of_fresh a v l i :
  i ∈ fresh a v l <->
  i ∈ l /\ (i ∉ v) /\ exists b, agents !! i = Some b /\ near r2 a b = true.
Proof.
  unfold fresh. rewrite list_elem_of_In, filter_In, <- list_elem_of_In.
  rewrite andb_true_iff, negb_true_iff, bool_decide_eq_false.
  split.
  - intros (Hl & Hv & Hb). split; [done|]. split; [done|].
    destruct (agents !! i) as [b|]; [|done]. by exists b.
  - intros (Hl & Hv & b & -> & Hb). done.
Qed.

Lemma filter_split_length {A} (P Q : A -> bool) (l : list A) :
  (length (List.filter P l)
   = length (List.filter (fun i => P i && negb (Q i)) l)
     + length (List.filter (fun i => P i && Q i) l))%nat.
Proof.
  induction l as [|i l IH]; [done|]. cbn [List.filter].
  destruct (P i), (Q i); cbn [andb negb length]; lia.
Qed.

Lemma scan_measure a v q :
  (unvisited (length agents) (scan agents r2 a v q).1
   + length (scan agents r2 a v q).2
   = unvisited (length agents) v + length q)%nat.
Proof.
  rewrite scan_eq. cbn [fst snd]. rewrite length_app. unfold unvisited.
  set (l := seq 0 (length agents)).
  rewrite (filter_split_length (fun i => negb (bool_decide (i ∈ v)))
             (fun i => match agents !! i with Some b => near r2 a b | None => false end) l).
  fold (fresh a v l).
  assert (E : List.filter
            (fun i => negb (bool_decide (i ∈ list_to_set (fresh a v l) ∪ v))) l
          = List.filter
            (fun i => negb (bool_decide (i ∈ v)) &&
               negb match agents !! i with Some b => near r2 a b | None => false end) l).
  { apply filter_ext_in. intros i Hi%list_elem_of_In.
    destruct (bool_decide (i ∈ v)) eqn:Ev.
    - apply bool_decide_eq_true in Ev. rewrite bool_decide_eq_true_2 by set_solver. done.
    - apply bool_decide_eq_false in Ev. cbn [negb andb].
      destruct (agents !! i) as [b|] eqn:Eb.
      + destruct (near r2 a b) eqn:En; cbn [negb].
        * rewrite bool_decide_eq_true_2; [done|].
          apply elem_of_union_l, elem_of_list_to_set, elem_of_fresh. eauto.
        * rewrite bool_decide_eq_false_2; [done|].
          rewrite elem_of_union, elem_of_list_to_set, elem_of_fresh.
          intros [(_ & _ & b' & ? & ?)|?]; [congruence|done].
      + rewrite bool_decide_eq_false_2; [done|].
        rewrite elem_of_union, elem_of_list_to_set, elem_of_fresh.
        intros [(_ & _ & b' & ? & ?)|?]; [congruence|done]. }
  rewrite E. lia.
Qed.
End ScanFacts.

Module ClusterSearch.
Import Clusters.

Lemma pop_length queue idx rest :
  pop queue = Some (idx, rest) -> length queue = S (length rest).
Proof.
  unfold pop. destruct (last queue) as [i|] eqn:E; [|done].
  intros [= <- <-]. apply last_Some in E as [l' ->].
  rewrite removelast_last, length_app. simpl. lia.
Qed.

Lemma scan_decreases agents r2 a visited queue idx rest :
  pop queue = Some (idx, rest) ->
  (unvisited (length agents) (scan agents r2 a visited rest).1
   + length (scan agents r2 a visited rest).2
   < unvisited (length agents) visited + length queue)%nat.
Proof.
  intros Hq. rewrite scan_measure, (pop_length _ _ _ Hq). lia.
Qed.

(** The [while] loop of [bfs].  It ends because every round either
    shortens the queue or visits new indices.  [agents[idx]] is defined
    for every index the queue holds; the last branch is never taken. *)
Equations bfsLoop (agents : list Agent) (r2 : R)
    (visited : gset nat) (queue : list nat) : gset nat
  by wf (unvisited (length agents) visited + length queue)%nat lt :=
bfsLoop agents r2 visited queue with inspect (pop queue) := {
  | exist _ None _ => visited
  | exist _ (Some (idx, rest)) Hq with inspect (agents !! idx) := {
      | exist _ (Some a) _ =>
          bfsLoop agents r2 (scan agents r2 a visited rest).1
                            (scan agents r2 a visited rest).2
      | exist _ None _ => visited } }.
Next Obligation. eapply scan_decreases; eassumption. Qed.

Definition bfs (agents : list Agent) (r2 : R) (visited : gset nat)
    (startIdx : nat) : gset nat :=
  bfsLoop agents r2 ({[startIdx]} ∪ visited) [startIdx].

Definition computeClusterCount (agents : list Agent) (radius : R) : nat :=
  if (length agents =? 0)%nat then O
  else
    let r2 := radius * radius in
    snd (fold_left (fun '(visited, clusters) i =>
           if bool_decide (i ∈ visited) then (visited, clusters)
           else (bfs agents r2 visited i, S clusters))
         (seq 0 (length agents)) (∅, O)).
End ClusterSearch.

(** ** The store of the main thread (core/store.ts) *)

Module Store.

Inductive SimStatus := Stopped | Running | Paused.

Record LayerVisibility := mkLayers {
  l_agents : bool;
  l_trails : bool;
  l_communication : bool;
  l_heatmap : bool;
  l_obstacles : bool;
  l_forceVectors : bool;
  l_voronoi : bool
}.

(** [keyof LayerVisibility] *)
Inductive Layer :=
| LAgents | LTrails | LCommunication | LHeatmap | LObstacles | LForceVectors
| LVoronoi.

Definition DEFAULT_LAYERS : LayerVisibility :=
  {| l_agents := true; l_trails := false; l_communication := false;
     l_heatmap := false; l_obstacles := true; l_forceVectors := false;
     l_voronoi := false |}.

Record AnalyticsState := mkAnalytics {
  avgSpeed : R;
  clusterCount : R;
  coveragePercent : R;
  convergence : R;
  speedHistory : list R;
  coverageHistory : list R
}.

(** [Partial<AnalyticsState>] *)
Record PartialAnalytics := mkPartialAnalytics {
  p_avgSpeed : option R;
  p_clusterCount : option R;
  p_coveragePercent : option R;
  p_convergence : option R;
  p_speedHistory : option (list R);
  p_coverageHistory : option (list R)
}.

Definition noAnalytics : AnalyticsState :=
  {| avgSpeed := 0; clusterCount := 0; coveragePercent := 0; convergence := 0;
     speedHistory := []; coverageHistory := [] |}.

(** The debugger's records ([ForceVector], [AgentDebugInfo]); the store
    only keeps them. *)
Record ForceVector := mkForce {
  label : string;
  force_x : R;
  force_y : R;
  color : string
}.

Record AgentDebugInfo := mkDebug {
  debug_id : Z;
  forces : list ForceVector;
  meta : gmap string (string + R)
}.

(** The state of the store, together with the module-level counter
    [nextObstacleId].  The worker, when one is set, is the list of the
    messages posted to it so far, oldest first. *)
Record t := mk {
  config : SimConfig;
  agents : list Agent;
  tick : Z;
  status : SimStatus;
  agentsHistory : list (list Agent);
  obstacles : list Obstacle;
  layers : LayerVisibility;
  analytics : AnalyticsState;
  selectedAgentId : option Z;
  debugInfo : list AgentDebugInfo;
  worker : option (list Worker.WorkerInMessage);
  nextObstacleId : Z
}.

Definition initial : t :=
  {| config := DEFAULT_CONFIG; agents := []; tick := 0; status := Stopped;
     agentsHistory := []; obstacles := []; layers := DEFAULT_LAYERS;
     analytics := noAnalytics; selectedAgentId := None; debugInfo := [];
     worker := None; nextObstacleId := 0 |}.

(** [worker?.postMessage(msg)] *)
Definition postMessage (w : option (list Worker.WorkerInMessage))
    (msg : Worker.WorkerInMessage) : option (list Worker.WorkerInMessage) :=
  match w with
  | Some msgs => Some (msgs ++ [msg])
  | None => None
  end.

Definition setConfig (s : t) (partial : Worker.PartialConfig) : t :=
  let newConfig := Worker.merge (config s) partial in
  {| config := newConfig; agents := agents s; tick := tick s; status := status s;
     agentsHistory := agentsHistory s; obstacles := obstacles s;
     layers := layers s; analytics := analytics s;
     selectedAgentId := selectedAgentId s; debugInfo := debugInfo s;
     worker := postMessage (worker s) (Worker.UPDATE_CONFIG partial);
     nextObstacleId := nextObstacleId s |}.

Definition setAgents (s : t) (newAgents : list Agent) (newTick : Z) : t :=
  let nextHistory := agentsHistory s ++ [newAgents] in
  let nextHistory :=
    if (300 <? length nextHistory)%nat then tail nextHistory else nextHistory in
  {| config := config s; agents := newAgents; tick := newTick; status := status s;
     agentsHistory := nextHistory; obstacles := obstacles s;
     layers := layers s; analytics := analytics s;
     selectedAgentId := selectedAgentId s; debugInfo := debugInfo s;
     worker := worker s; nextObstacleId := nextObstacleId s |}.

Definition setStatus (s : t) (newStatus : SimStatus) : t :=
  {| config := config s; agents := agents s; tick := tick s; status := newStatus;
     agentsHistory := agentsHistory s; obstacles := obstacles s;
     layers := layers s; analytics := analytics s;
     selectedAgentId := selectedAgentId s; debugInfo := debugInfo s;
     worker := worker s; nextObstacleId := nextObstacleId s |}.

(** [stepBack]: with at most one history entry nothing happens; otherwise
    the newest entry is dropped and the one before it restored.
    [newHistory[newHistory.length - 1]] exists there. *)
Definition stepBack (s : t) : t :=
  if (length (agentsHistory s) <=? 1)%nat then s
  else
    let newHistory := removelast (agentsHistory s) in
    match last newHistory with
    | Some previousState =>
        {| config := config s; agents := previousState;
           tick := Z.max 0 (tick s - 1); status := Paused;
           agentsHistory := newHistory; obstacles := obstacles s;
           layers := layers s; analytics := analytics s;
           selectedAgentId := selectedAgentId s; debugInfo := debugInfo s;
           worker := postMessage
                       (postMessage (worker s) (Worker.SET_AGENTS previousState))
                       Worker.PAUSE;
           nextObstacleId := nextObstacleId s |}
    | None => s
    end.

Definition addObstacle (s : t) (x y : R) : t :=
  let obs := {| oid := nextObstacleId s; ox := x; oy := y; oradius := 30;
                otype := circle; owidth := None; oheight := None |} in
  let newObstacles := obstacles s ++ [obs] in
  {| config := config s; agents := agents s; tick := tick s; status := status s;
     agentsHistory := agentsHistory s; obstacles := newObstacles;
     layers := layers s; analytics := analytics s;
     selectedAgentId := selectedAgentId s; debugInfo := debugInfo s;
     worker := postMessage (worker s) (Worker.UPDATE_OBSTACLES newObstacles);
     nextObstacleId := (nextObstacleId s + 1)%Z |}.

Definition clearObstacles (s : t) : t :=
  {| config := config s; agents := agents s; tick := tick s; status := status s;
     agentsHistory := agentsHistory s; obstacles := [];
     layers := layers s; analytics := analytics s;
     selectedAgentId := selectedAgentId s; debugInfo := debugInfo s;
     worker := postMessage (worker s) (Worker.UPDATE_OBSTACLES []);
     nextObstacleId := nextObstacleId s |}.

(** [{ ...s.layers, [layer]: !s.layers[layer] }] *)
Definition toggle (l : LayerVisibility) (layer : Layer) : LayerVisibility :=
  match layer with
  | LAgents =>
      {| l_agents := negb (l_agents l); l_trails := l_trails l;
         l_communication := l_communication l; l_heatmap := l_heatmap l;
         l_obstacles := l_obstacles l; l_forceVectors := l_forceVectors l;
         l_voronoi := l_voronoi l |}
  | LTrails =>
      {| l_agents := l_agents l; l_trails := negb (l_trails l);
         l_communication := l_communication l; l_heatmap := l_heatmap l;
         l_obstacles := l_obstacles l; l_forceVectors := l_forceVectors l;
         l_voronoi := l_voronoi l |}
  | LCommunication =>
      {| l_agents := l_agents l; l_trails := l_trails l;
         l_communication := negb (l_communication l); l_heatmap := l_heatmap l;
         l_obstacles := l_obstacles l; l_forceVectors := l_forceVectors l;
         l_voronoi := l_voronoi l |}
  | LHeatmap =>
      {| l_agents := l_agents l; l_trails := l_trails l;
         l_communication := l_communication l; l_heatmap := negb (l_heatmap l);
         l_obstacles := l_obstacles l; l_forceVectors := l_forceVectors l;
         l_voronoi := l_voronoi l |}
  | LObstacles =>
      {| l_agents := l_agents l; l_trails := l_trails l;
         l_communication := l_communication l; l_heatmap := l_heatmap l;
         l_obstacles := negb (l_obstacles l); l_forceVectors := l_forceVectors l;
         l_voronoi := l_voronoi l |}
  | LForceVectors =>
      {| l_agents := l_agents l; l_trails := l_trails l;
         l_communication := l_communication l; l_heatmap := l_heatmap l;
         l_obstacles := l_obstacles l; l_forceVectors := negb (l_forceVectors l);
         l_voronoi := l_voronoi l |}
  | LVoronoi =>
      {| l_agents := l_agents l; l_trails := l_trails l;
         l_communication := l_communication l; l_heatmap := l_heatmap l;
         l_obstacles := l_obstacles l; l_forceVectors := l_forceVectors l;
         l_voronoi := negb (l_voronoi l) |}
  end.

Definition toggleLayer (s : t) (layer : Layer) : t :=
  {| config := config s; agents := agents s; tick := tick s; status := status s;
     agentsHistory := agentsHistory s; obstacles := obstacles s;
     layers := toggle (layers s) layer; analytics := analytics s;
     selectedAgentId := selectedAgentId s; debugInfo := debugInfo s;
     worker := worker s; nextObstacleId := nextObstacleId s |}.

(** [{ ...s.analytics, ...partial }] *)
Definition mergeAnalytics (a : AnalyticsState) (p : PartialAnalytics)
  : AnalyticsState :=
  {| avgSpeed := default (avgSpeed a) (p_avgSpeed p);
     clusterCount := default (clusterCount a) (p_clusterCount p);
     coveragePercent := default (coveragePercent a) (p_coveragePercent p);
     convergence := default (convergence a) (p_convergence p);
     speedHistory := default (speedHistory a) (p_speedHistory p);
     coverageHistory := default (coverageHistory a) (p_coverageHistory p) |}.

Definition updateAnalytics (s : t) (partial : PartialAnalytics) : t :=
  {| config := config s; agents := agents s; tick := tick s; status := status s;
     agentsHistory := agentsHistory s; obstacles := obstacles s;
     layers := layers s; analytics := mergeAnalytics (analytics s) partial;
     selectedAgentId := selectedAgentId s; debugInfo := debugInfo s;
     worker := worker s; nextObstacleId := nextObstacleId s |}.

Definition setSelectedAgentId (s : t) (i : option Z) : t :=
  {| config := config s; agents := agents s; tick := tick s; status := status s;
     agentsHistory := agentsHistory s; obstacles := obstacles s;
     layers := layers s; analytics := analytics s;
     selectedAgentId := i; debugInfo := debugInfo s;
     worker := worker s; nextObstacleId := nextObstacleId s |}.

Definition setDebugInfo (s : t) (info : list AgentDebugInfo) : t :=
  {| config := config s; agents := agents s; tick := tick s; status := status s;
     agentsHistory := agentsHistory s; obstacles := obstacles s;
     layers := layers s; analytics := analytics s;
     selectedAgentId := selectedAgentId s; debugInfo := info;
     worker := worker s; nextObstacleId := nextObstacleId s |}.

(** [setWorker(worker)]: the worker comes with the messages it has been
    sent already. *)
Definition setWorker (s : t) (w : list Worker.WorkerInMessage) : t :=
  {| config := config s; agents := agents s; tick := tick s; status := status s;
     agentsHistory := agentsHistory s; obstacles := obstacles s;
     layers := layers s; analytics := analytics s;
     selectedAgentId := selectedAgentId s; debugInfo := debugInfo s;
     worker := Some w; nextObstacleId := nextObstacleId s |}.

Definition sendToWorker (s : t) (msg : Worker.WorkerInMessage) : t :=
  {| config := config s; agents := agents s; tick := tick s; status := status s;
     agentsHistory := agentsHistory s; obstacles := obstacles s;
     layers := layers s; analytics := analytics s;
     selectedAgentId := selectedAgentId s; debugInfo := debugInfo s;
     worker := postMessage (worker s) msg; nextObstacleId := nextObstacleId s |}.

Definition play (s : t) : t := sendToWorker (setStatus s Running) Worker.PLAY.
Definition pause (s : t) : t := sendToWorker (setStatus s Paused) Worker.PAUSE.
Definition step (s : t) : t := sendToWorker (setStatus s Paused) Worker.STEP.

Definition reset (s : t) : t :=
  {| config := config s; agents := []; tick := 0; status := Stopped;
     agentsHistory := []; obstacles := obstacles s;
     layers := layers s; analytics := noAnalytics;
     selectedAgentId := None; debugInfo := [];
     worker := postMessage (worker s) (Worker.RESET (config s));
     nextObstacleId := nextObstacleId s |}.

(** The actions of the store, and the store after a sequence of them. *)
Inductive Action :=
| SetConfig (partial : Worker.PartialConfig)
| SetAgents (newAgents : list Agent) (newTick : Z)
| SetStatus (newStatus : SimStatus)
| StepBack
| AddObstacle (x y : R)
| ClearObstacles
| ToggleLayer (layer : Layer)
| UpdateAnalytics (partial : PartialAnalytics)
| SetSelectedAgentId (i : option Z)
| SetDebugInfo (info : list AgentDebugInfo)
| SetWorker (w : list Worker.WorkerInMessage)
| SendToWorker (msg : Worker.WorkerInMessage)
| Play
| Pause
| Step
| Reset.

Definition act (s : t) (a : Action) : t :=
  match a with
  | SetConfig partial => setConfig s partial
  | SetAgents newAgents newTick => setAgents s newAgents newTick
  | SetStatus newStatus => setStatus s newStatus
  | StepBack => stepBack s
  | AddObstacle x y => addObstacle s x y
  | ClearObstacles => clearObstacles s
  | ToggleLayer layer => toggleLayer s layer
  | UpdateAnalytics partial => updateAnalytics s partial
  | SetSelectedAgentId i => setSelectedAgentId s i
  | SetDebugInfo info => setDebugInfo s info
  | SetWorker w => setWorker s w
  | SendToWorker msg => sendToWorker s msg
  | Play => play s
  | Pause => pause s
  | Step => step s
  | Reset => reset s
  end.

Definition run (actions : list Action) : t := fold_left act actions initial.

End Store.

(** ** Vocabulary of the statements *)

(** Two lists hold the same elements. *)
Definition sameSet {A} (l1 l2 : list A) : Prop := forall a, In a l1 <-> In a l2.

(** A string without a comma. *)
Fixpoint noComma (s : string) : Prop :=
  match s with
  | EmptyString => True
  | String c r => c <> ","%char /\ noComma r
  end.

(** The brute-force scan the spatial index is compared with (it is the
    reference of the specification, not code of the engine): one pass over
    all agents, keeping those whose squared distance to [(x, y)] is at most
    [radius * radius] and whose id is not [excludeId]. *)
Definition bruteForce (agents : list Agent) (x y radius : R) (excludeId : Z)
  : list Agent :=
  List.filter
    (fun a =>
       negb (bool_decide (id a = excludeId)) &&
       Rleb ((ax a - x) * (ax a - x) + (ay a - y) * (ay a - y)) (radius * radius))
    agents.

(** The key of the cell an agent is bucketed into, and the content of the
    cell stored under a key ([[]] when the map has no such key). *)
Definition keyOf (h : SpatialHash.t) (a : Agent) : string :=
  let '(cx, cy) := SpatialHash.cellCoords h (ax a) (ay a) in SpatialHash.key cx cy.

Definition cellAt (h : SpatialHash.t) (k : string) : list Agent :=
  default [] (SpatialHash.grid h !! k).



(** A stationary agent with id [i] at [(px, py)]. *)
Definition agentAt (i : Z) (px py : R) : Agent :=
  {| id := i; ax := px; ay := py; vx := 0; vy := 0; aheading := 0;
     state := Active |}.

(** The speed of an agent: the magnitude of its velocity. *)
Definition speedOf (a : Agent) : R := mag {| x := vx a; y := vy a |}.




(** The speed cap of the foraging strategy, by the ant's mode. *)
Definition modeCap (config : SimConfig) (m : AntColonyAlgorithm.Mode) : R :=
  match m with
  | AntColonyAlgorithm.Return => maxSpeed config * 0.8
  | AntColonyAlgorithm.Search => maxSpeed config * 0.6
  end.

(** The state the foraging strategy emits for a mode. *)
Definition modeState (m : AntColonyAlgorithm.Mode) : AgentState :=
  match m with
  | AntColonyAlgorithm.Return => Stuck
  | AntColonyAlgorithm.Search => Active
  end.

(** ** Vocabulary: the foraging strategy *)

Module AntSpec.
Import AntColonyAlgorithm.

(** The position of the nest. *)
Definition nest (st : t) : Vec2 := {| x := nestX st; y := nestY st |}.




(** A world 30 wide and 20 high: the nest (3.6, 10) lies inside the circle
    of the first food source, centre (25.5, 4) and radius 25. *)
Definition tinyWorld : SimConfig :=
  {| algorithm := AntColony; agentCount := 1; worldWidth := 30;
     worldHeight := 20; maxSpeed := 3; maxForce := 0.15;
     separationWeight := 1.5; alignmentWeight := 1.0; cohesionWeight := 1.0;
     separationRadius := 30; neighborRadius := 60; communicationRange := 80;
     trailLength := 30; speedMultiplier := 1.0 |}.

(** Every cell lies in [0, 12]. *)
Definition bounded (g : list R) : Prop := Forall (fun v => 0 <= v <= 12) g.

(** No cell holds a nonzero value below 0.01. *)
Definition snapped (g : list R) : Prop := Forall (fun v => v = 0 \/ 0.01 <= v) g.

(** The states of a Foraging instance: the new instance and whatever a
    tick makes of a state, for any inputs. *)
Inductive reachable : t -> Prop :=
| reachable_new : reachable new
| reachable_tick st agents config obstacles hash s :
    reachable st ->
    reachable (tick st agents config obstacles hash s).1.2.

End AntSpec.

(** ** Vocabulary: the swarm-optimisation strategy *)

Module PSOSpec.
Import PSOAlgorithm.

(** [a <= b] on numbers that may be [Infinity]. *)
Definition xle (a b : XR) : Prop :=
  match a, b with
  | Num a, Num b => a <= b
  | _, Infinity => True
  | Infinity, Num _ => False
  end.

(** The inputs of one call of [tick], apart from the random source. *)
Definition TickInput : Type :=
  list Agent * SimConfig * list Obstacle * SpatialHash.t.

(** Consecutive ticks, the random source running through them. *)
Fixpoint ticks (st : t) (s : RandomSource) (inputs : list TickInput)
  : t * RandomSource :=
  match inputs with
  | [] => (st, s)
  | (agents, config, obstacles, hash) :: rest =>
      let '(_, st, s) := tick st agents config obstacles hash s in
      ticks st s rest
  end.

(** None of the next [n] ticks is a teleport tick: none of the counts
    [tickCount + 1, ..., tickCount + n] is a multiple of 120. *)
Definition noTeleport (st : t) (n : nat) : Prop :=
  forall k : nat, (1 <= k <= n)%nat ->
    (Z.rem (tickCount st + Z.of_nat k) 120 <> 0)%Z.

(** An initialised instance at tick 0 with one target and a memory record
    for id 0. *)
Definition sample : t :=
  {| globalBestFitness := Num 10;
     particles := {[ 0%Z := {| personalBestX := 0; personalBestY := 0;
                               personalBestFitness := Num 10 |} ]};
     targets := [ {| tx := 100; ty := 100; tvx := 1; tvy := 1 |} ];
     initialized := true;
     tickCount := 0 |}.
End PSOSpec.

(** ** Vocabulary: the worker *)

(** The default config with the foraging strategy selected. *)
Definition antConfig : SimConfig :=
  {| algorithm := AntColony; agentCount := 200; worldWidth := 1200;
     worldHeight := 800; maxSpeed := 3; maxForce := 0.15;
     separationWeight := 1.5; alignmentWeight := 1.0; cohesionWeight := 1.0;
     separationRadius := 30; neighborRadius := 60; communicationRange := 80;
     trailLength := 30; speedMultiplier := 1.0 |}.

Module WorkerSpec.
Import Worker.


(** The newest [n] entries of a list. *)
Definition newest {A} (n : nat) (l : list A) : list A := drop (length l - n) l.


(** A partial config that supplies the neighbor radius only. *)
Definition radiusOnly (r : R) : PartialConfig :=
  {| p_algorithm := None; p_agentCount := None; p_worldWidth := None;
     p_worldHeight := None; p_maxSpeed := None; p_maxForce := None;
     p_separationWeight := None; p_alignmentWeight := None;
     p_cohesionWeight := None; p_separationRadius := None;
     p_neighborRadius := Some r; p_communicationRange := None;
     p_trailLength := None; p_speedMultiplier := None |}.

(** The worker after [Init] with one agent at rest at (100, 100), id 0. *)
Definition started (cfg : SimConfig) : t :=
  run (fun _ => 0) [Message (INIT cfg [agentAt 0 100 100] [])].

(** ... and after a [Step] command. *)
Definition stepped (cfg : SimConfig) : t :=
  run (fun _ => 0) [Message (INIT cfg [agentAt 0 100 100] []); Message STEP].

End WorkerSpec.

(** ** Vocabulary: a four-tick run of the foraging strategy *)

Module AntRun.
Import AntColonyAlgorithm AntSpec.

(** A world 1000 wide and 24 high: a pheromone grid of 125 x 3 cells. *)
Definition longWorld : SimConfig :=
  {| algorithm := AntColony; agentCount := 1; worldWidth := 1000;
     worldHeight := 24; maxSpeed := 3; maxForce := 0.15;
     separationWeight := 1.5; alignmentWeight := 1.0; cohesionWeight := 1.0;
     separationRadius := 30; neighborRadius := 60; communicationRange := 80;
     trailLength := 30; speedMultiplier := 1.0 |}.

(** The strength of the deposit of the return block. *)
Definition depositStrength (st : t) (a : Agent) (mem : AntMemory) : R :=
  Rmax 0.5
    (3.0 -
     (if (0 <=? targetFoodIdx mem)%Z then
        match foodSources st !! Z.to_nat (targetFoodIdx mem) with
        | Some food => dist (posA a) (posF food)
        | None => 0
        end
      else 100) * 0.005).

(** Four ticks of a new instance in the long world: ant 0 is first seen on
    the first food source (850, 4.8), then at (200, 12), far from it; the
    last two ticks have no agents. *)
Definition tick1 : list Agent * t * RandomSource :=
  tick new [agentAt 0 850 4.8] longWorld [] (SpatialHash.new 60) (fun _ => 0).
Definition tick2 : list Agent * t * RandomSource :=
  tick tick1.1.2 [agentAt 0 200 12] longWorld [] (SpatialHash.new 60) tick1.2.
Definition tick3 : list Agent * t * RandomSource :=
  tick tick2.1.2 [] longWorld [] (SpatialHash.new 60) tick2.2.
Definition tick4 : list Agent * t * RandomSource :=
  tick tick3.1.2 [] longWorld [] (SpatialHash.new 60) tick3.2.

(** The deposit as a fold over any list of offsets. *)
Definition depositFold (st : t) (cx cy : Z) (strength : R)
    (offsets : list (Z * Z)) (g : list R) : list R :=
  fold_left (fun g '(dx, dy) =>
     let nx := (cx + dx)%Z in
     let ny := (cy + dy)%Z in
     if inGrid st nx ny then
       let idx := (ny * gridCols st + nx)%Z in
       let s := if (dx =? 0)%Z && (dy =? 0)%Z then strength else strength * 0.3 in
       <[Z.to_nat idx := Rmin (gridAt g idx + s) 12]> g
     else g) offsets g.

(** What every state of the run satisfies after its first [init]. *)
Definition shaped (st : t) : Prop :=
  initialized st = true /\ gridCols st = 125%Z /\ gridRows st = 3%Z /\
  cellSize st = 8 /\ length (pheromoneGrid st) = 375%nat /\
  foodSources st = foodSources (init new longWorld) /\
  nestX st = 1000 * 0.12 /\ nestY st = 24 * 0.5.

(** The cell (26, 1), index 151, holds [v]; the other cells around
    (27, 1) hold 0. *)
Definition around (st : t) (v : R) : Prop :=
  pheromoneGrid st !! 151%nat = Some v /\
  Forall (fun i => pheromoneGrid st !! i = Some 0)
    [26; 27; 28; 152; 153; 276; 277; 278]%nat.

End AntRun.

(** ** Vocabulary: analytics *)

Module AnalyticsSpec.

(** Every entry is a 16-bit unsigned integer. *)
Definition u16 (g : list Z) : Prop := Forall (fun v => (0 <= v <= 65535)%Z) g.

(** The index of the visit-grid cell an agent is counted in. *)
Definition visitIndex (cellSize : R) (gridCols : Z) (a : Agent) : Z :=
  (Math_floor (ay a / cellSize) * gridCols + Math_floor (ax a / cellSize))%Z.

End AnalyticsSpec.

(** ** Vocabulary: clusters *)

Module ClusterSpec.
Import Clusters.

(** Two indices are linked when their agents pass the distance test. *)
Definition linked (agents : list Agent) (r2 : R) (i j : nat) : Prop :=
  exists a b, agents !! i = Some a /\ agents !! j = Some b /\ near r2 a b = true.

(** Connected: joined by a chain of links. *)
Definition connected (agents : list Agent) (r2 : R) : nat -> nat -> Prop :=
  rtc (linked agents r2).

(** A set of indices that contains whatever is linked to its members. *)
Definition closed (agents : list Agent) (r2 : R) (v : gset nat) : Prop :=
  forall j k, j ∈ v -> linked agents r2 j k -> k ∈ v.

End ClusterSpec.



(** ** Vocabulary: invariants of the foraging strategy *)

Module AntInvariant.
Import AntColonyAlgorithm.

(** A memory record that fits the food list: a non-negative step count; in
    return mode the index of an existing food source, in search mode -1. *)
Definition wellFormed (foods : list FoodSource) (mem : AntMemory) : Prop :=
  (0 <= stepsSearching mem)%Z /\
  match mode mem with
  | Return =>
      (0 <= targetFoodIdx mem)%Z /\
      is_Some (foods !! Z.to_nat (targetFoodIdx mem))
  | Search => targetFoodIdx mem = (-1)%Z
  end.

(** The pheromone array has one cell per grid position. *)
Definition gridShaped (st : t) : Prop :=
  length (pheromoneGrid st) = Z.to_nat (gridCols st * gridRows st).

End AntInvariant.

(** ** Vocabulary: invariants of the swarm-optimisation strategy *)

Module PSOInvariant.
Import PSOAlgorithm PSOSpec.

(** The states of an Optimization instance: the new instance and whatever
    a tick makes of a state, for any inputs. *)
Inductive reachable : t -> Prop :=
| reachable_new : reachable new
| reachable_tick st agents config obstacles hash s :
    reachable st ->
    reachable (tick st agents config obstacles hash s).1.2.

(** The target lies in the world shrunk by 40 on every side. *)
Definition inBox (config : SimConfig) (t : Target) : Prop :=
  40 <= tx t <= worldWidth config - 40 /\ 40 <= ty t <= worldHeight config - 40.

End PSOInvariant.



Module WorkerInvariant.
Import Worker.

(** The class of a strategy instance. *)
Definition kindOf (alg : SwarmAlgorithm) : AlgorithmType :=
  match alg with
  | BoidsInstance => Boids
  | AntColonyInstance _ => AntColony
  | PSOInstance _ => PSO
  end.

(** What the main thread can observe of the worker, and what the next
    tick starts from. *)
Definition sameSimulation (w w' : t) : Prop :=
  agents w' = agents w /\ tick w' = tick w /\ posted w' = posted w /\
  posHistory w' = posHistory w /\ algorithm w' = algorithm w /\
  config w' = config w /\ obstacles w' = obstacles w /\ rng w' = rng w.

(** The worker has not been initialised and has done nothing. *)
Definition idle (w : t) : Prop :=
  config w = None /\ algorithm w = None /\ spatialHash w = None /\
  tick w = 0%Z /\ posted w = [] /\ posHistory w = ∅.

(** The worker is initialised: it holds a config, a strategy instance of
    the configured class and a spatial index, its tick count is not
    negative, and the newest message it posted is the snapshot of that
    tick count. *)
Definition live (w : t) : Prop :=
  exists cfg alg hash ags,
    config w = Some cfg /\ algorithm w = Some alg /\ spatialHash w = Some hash /\
    kindOf alg = selector cfg /\ (0 <= tick w)%Z /\
    last (posted w) = Some (TICK ags (tick w)).

End WorkerInvariant.

(** ** Vocabulary: the store *)

Module StoreSpec.
Import Store.

(** The population shown is the newest entry of the history (or empty
    when there is none). *)
Definition showsNewest (s : t) : Prop :=
  match last (agentsHistory s) with
  | Some newest => agents s = newest
  | None => agents s = []
  end.

(** The obstacle ids are values the counter has handed out: pairwise
    distinct, not negative and below the counter. *)
Definition freshIds (s : t) : Prop :=
  (0 <= nextObstacleId s)%Z /\
  NoDup (map oid (obstacles s)) /\
  Forall (fun o => (0 <= oid o < nextObstacleId s)%Z) (obstacles s).

(** The worker holds the config and the obstacle list of the store. *)
Definition agrees (s : t) (w : Worker.t) : Prop :=
  Worker.config w = Some (config s) /\ Worker.obstacles w = obstacles s.

(** The worker after the messages [msgs], delivered in order. *)
Definition deliver (w : Worker.t) (msgs : list Worker.WorkerInMessage) : Worker.t :=
  fold_left Worker.onmessage msgs w.

(** The actions whose messages the store chooses itself: all but
    [setWorker] and [sendToWorker]. *)
Definition ownMessages (a : Action) : bool :=
  match a with
  | SetWorker _ | SendToWorker _ => false
  | _ => true
  end.

End StoreSpec.

(** * Properties *)

(** ** Facts about numbers *)

Lemma Rltb_true a b : Rltb a b = true <-> a < b.
Proof. unfold Rltb. destruct (Rlt_dec a b); split; intros; try discriminate; tauto. Qed.

Lemma Rltb_false a b : Rltb a b = false <-> b <= a.
Proof.
  unfold Rltb. destruct (Rlt_dec a b); split; intros;
    first [discriminate | lra | reflexivity].
Qed.

Lemma Rleb_true a b : Rleb a b = true <-> a <= b.
Proof. unfold Rleb. destruct (Rle_dec a b); split; intros; try discriminate; tauto. Qed.

Lemma Rleb_false a b : Rleb a b = false <-> b < a.
Proof.
  unfold Rleb. destruct (Rle_dec a b); split; intros;
    first [discriminate | lra | reflexivity].
Qed.

(** [Math_floor r] is the integer [z] with [z <= r < z + 1]. *)
Lemma Math_floor_bounds r : IZR (Math_floor r) <= r < IZR (Math_floor r) + 1.
Proof. unfold Math_floor. destruct (base_Int_part r). lra. Qed.

Lemma Math_floor_unique r z : IZR z <= r < IZR z + 1 -> Math_floor r = z.
Proof.
  intros H. unfold Math_floor. symmetry. apply Int_part_spec. lra.
Qed.

(** [Math_ceil r] is the integer [z] with [z - 1 < r <= z]. *)
Lemma Math_ceil_bounds r : IZR (Math_ceil r) - 1 < r <= IZR (Math_ceil r).
Proof.
  unfold Math_ceil. rewrite opp_IZR. destruct (base_Int_part (- r)). lra.
Qed.

Lemma Math_ceil_unique r z : IZR z - 1 < r <= IZR z -> Math_ceil r = z.
Proof.
  intros H. unfold Math_ceil.
  rewrite <- (Int_part_spec (- r) (- z)); [lia|]. rewrite opp_IZR. lra.
Qed.

(** If two numbers differ by at most [d], their floors differ by at most
    the ceiling of [d]. *)
Lemma floor_within a b d :
  a <= b + d -> (Math_floor a <= Math_floor b + Math_ceil d)%Z.
Proof.
  intros H.
  pose proof (Math_floor_bounds a). pose proof (Math_floor_bounds b).
  pose proof (Math_ceil_bounds d).
  apply Z.lt_succ_r, lt_IZR. rewrite succ_IZR, plus_IZR. lra.
Qed.

(** ** The cell key is injective *)

Lemma pretty_N_go_noComma x s : noComma s -> noComma (pretty_N_go x s).
Proof.
  revert s. induction (N.lt_wf_0 x) as [x _ IH]; intros s Hs.
  assert (x = 0 ∨ 0 < x)%N as [->|?] by lia.
  - by rewrite pretty_N_go_0.
  - rewrite pretty_N_go_step by done. apply IH.
    { by apply N.div_lt. }
    split; [|done]. unfold pretty_N_char. by repeat case_match.
Qed.

Lemma pretty_Z_noComma (z : Z) : noComma (pretty z).
Proof.
  assert (HN : forall n : N, noComma (pretty n)).
  { intros n. unfold pretty, pretty_N. case_decide; [by compute|].
    by apply pretty_N_go_noComma. }
  destruct z as [|p|p]; unfold pretty, pretty_Z.
  - by compute.
  - apply HN.
  - split; [done|]. apply HN.
Qed.

Lemma append_comma_inj a b c d :
  noComma a -> noComma c ->
  a +:+ "," +:+ b = c +:+ "," +:+ d -> a = c /\ b = d.
Proof.
  revert c. induction a as [|ch a IH]; intros [|ch' c] Ha Hc; simpl; intros Heq.
  - by inversion Heq.
  - inversion Heq; subst. by destruct Hc.
  - inversion Heq; subst. by destruct Ha.
  - inversion Heq; subst. destruct Ha, Hc.
    destruct (IH c) as [-> ->]; auto.
Qed.

Lemma key_inj a b c d :
  SpatialHash.key a b = SpatialHash.key c d -> a = c /\ b = d.
Proof.
  unfold SpatialHash.key. intros H.
  apply append_comma_inj in H; auto using pretty_Z_noComma.
  destruct H as [H1 H2]. split; by apply (inj pretty).
Qed.

(** ** Spatial hash *)

Section SpatialHashFacts.
Import SpatialHash.

(** The brute-force scan applies the test of [queryRadius]. *)
Lemma bruteForce_keeps agents x y radius excludeId :
  bruteForce agents x y radius excludeId
  = List.filter (keeps x y (radius * radius) excludeId) agents.
Proof.
  unfold bruteForce. apply filter_ext. intros a. unfold keeps.
  destruct (Z.eq_dec (id a) excludeId) as [He|He].
  - by rewrite bool_decide_eq_true_2.
  - by rewrite bool_decide_eq_false_2.
Qed.

Lemma insert_cellSize h a : cellSize (insert h a) = cellSize h.
Proof.
  unfold insert. destruct (cellCoords h (ax a) (ay a)) as [cx cy].
  by destruct (grid h !! key cx cy).
Qed.

Lemma keyOf_insert h a b : keyOf (insert h a) b = keyOf h b.
Proof. unfold keyOf, cellCoords. by rewrite insert_cellSize. Qed.

Lemma cellAt_insert h a k :
  cellAt (insert h a) k =
  if bool_decide (keyOf h a = k) then cellAt h k ++ [a] else cellAt h k.
Proof.
  unfold cellAt, keyOf, insert.
  destruct (cellCoords h (ax a) (ay a)) as [cx cy].
  case_bool_decide as Hk.
  - subst k. destruct (grid h !! key cx cy) as [cell|] eqn:E; simpl;
      by rewrite lookup_insert_eq.
  - destruct (grid h !! key cx cy) as [cell|] eqn:E; simpl;
      by rewrite lookup_insert_ne.
Qed.

Lemma fold_insert_cellSize agents h :
  cellSize (fold_left insert agents h) = cellSize h.
Proof.
  revert h. induction agents as [|a l IH]; intros h; simpl; [done|].
  by rewrite IH, insert_cellSize.
Qed.

Lemma cellAt_fold_insert agents h k :
  cellAt (fold_left insert agents h) k =
  cellAt h k ++ List.filter (fun a => bool_decide (keyOf h a = k)) agents.
Proof.
  revert h. induction agents as [|a l IH]; intros h; simpl.
  - by rewrite app_nil_r.
  - rewrite IH, cellAt_insert.
    rewrite (filter_ext (λ a0, bool_decide (keyOf (insert h a) a0 = k))
                        (λ a0, bool_decide (keyOf h a0 = k))).
    2:{ intros b. by rewrite keyOf_insert. }
    case_bool_decide; [by rewrite <- app_assoc|done].
Qed.

Lemma insertAll_cellSize h agents : cellSize (insertAll h agents) = cellSize h.
Proof. unfold insertAll. by rewrite fold_insert_cellSize. Qed.

Lemma cellAt_insertAll h agents k :
  cellAt (insertAll h agents) k =
  List.filter (fun a => bool_decide (keyOf h a = k)) agents.
Proof.
  unfold insertAll. rewrite cellAt_fold_insert.
  unfold cellAt at 1. simpl. by rewrite lookup_empty.
Qed.

Lemma queryRadius_cells h x y radius excludeId :
  queryRadius h x y radius excludeId =
  let '(cx, cy) := cellCoords h x y in
  let span := Math_ceil (radius / cellSize h) in
  flat_map (fun dx =>
    flat_map (fun dy =>
      List.filter (keeps x y (radius * radius) excludeId)
        (cellAt h (key (cx + dx) (cy + dy))))
      (upto (- span) span)) (upto (- span) span).
Proof.
  unfold queryRadius. destruct (cellCoords h x y) as [cx cy]. simpl.
  apply flat_map_ext; intros dx. apply flat_map_ext; intros dy.
  unfold cellAt. by destruct (grid h !! key (cx + dx) (cy + dy)).
Qed.

Lemma in_upto lo hi z : In z (upto lo hi) <-> (lo <= z <= hi)%Z.
Proof.
  unfold upto. rewrite <- list_elem_of_In, elem_of_seqZ. lia.
Qed.

Lemma sq_sum_le d e r : 0 <= r -> d * d + e * e <= r * r -> d <= r /\ - d <= r.
Proof.
  intros Hr H. split.
  - destruct (Rle_dec d r); [done|]. nra.
  - destruct (Rle_dec (- d) r); [done|]. nra.
Qed.

Lemma keeps_near x y r ex a :
  0 <= r -> keeps x y (r * r) ex a = true ->
  ax a - x <= r /\ x - ax a <= r /\ ay a - y <= r /\ y - ay a <= r.
Proof.
  unfold keeps. destruct (Z.eq_dec (id a) ex); [discriminate|].
  cbv zeta. intros Hr H%Rleb_true.
  destruct (sq_sum_le (ax a - x) (ay a - y) r Hr H).
  destruct (sq_sum_le (ay a - y) (ax a - x) r Hr); [lra|].
  repeat split; lra.
Qed.

Lemma floor_near cs a b r :
  0 < cs -> a - b <= r -> b - a <= r ->
  (- Math_ceil (r / cs) <= Math_floor (a / cs) - Math_floor (b / cs) <= Math_ceil (r / cs))%Z.
Proof.
  intros Hcs H1 H2.
  assert (a / cs <= b / cs + r / cs).
  { unfold Rdiv. rewrite <- Rmult_plus_distr_r.
    apply Rmult_le_compat_r; [|lra]. left. by apply Rinv_0_lt_compat. }
  assert (b / cs <= a / cs + r / cs).
  { unfold Rdiv. rewrite <- Rmult_plus_distr_r.
    apply Rmult_le_compat_r; [|lra]. left. by apply Rinv_0_lt_compat. }
  pose proof (floor_within _ _ _ H). pose proof (floor_within _ _ _ H0). lia.
Qed.

(** After a full rebuild, a query with a non-negative radius over a grid
    of positive cell size returns the agents of the brute-force scan. *)
Lemma queryRadius_sameSet h agents x y radius excludeId :
  0 < cellSize h -> 0 <= radius ->
  sameSet (queryRadius (insertAll h agents) x y radius excludeId)
          (bruteForce agents x y radius excludeId).
Proof.
  intros Hcs Hr a. rewrite queryRadius_cells.
  unfold cellCoords. rewrite !insertAll_cellSize.
  set (cx := Math_floor (x / cellSize h)). set (cy := Math_floor (y / cellSize h)).
  set (span := Math_ceil (radius / cellSize h)).
  cbv zeta. rewrite bruteForce_keeps, filter_In.
  split.
  - intros (dx & Hdx & (dy & Hdy & Hin)%in_flat_map)%in_flat_map.
    apply filter_In in Hin as [Hin Hk].
    rewrite cellAt_insertAll in Hin. apply filter_In in Hin as [Hin _]. done.
  - intros [Hin Hk].
    destruct (keeps_near _ _ _ _ _ Hr Hk) as (Hx1 & Hx2 & Hy1 & Hy2).
    pose proof (floor_near _ _ _ _ Hcs Hx1 Hx2) as Hfx.
    pose proof (floor_near _ _ _ _ Hcs Hy1 Hy2) as Hfy.
    apply in_flat_map. exists (Math_floor (ax a / cellSize h) - cx)%Z.
    split; [apply in_upto; subst cx span; lia|].
    apply in_flat_map. exists (Math_floor (ay a / cellSize h) - cy)%Z.
    split; [apply in_upto; subst cy span; lia|].
    apply filter_In. split; [|done].
    rewrite cellAt_insertAll. apply filter_In. split; [done|].
    apply bool_decide_eq_true. unfold keyOf, cellCoords.
    f_equal; lia.
Qed.

Lemma div_le_swap a b c : 0 < b -> a <= c * b -> a / b <= c.
Proof.
  intros Hb H. replace c with (c * b / b) by (field; lra).
  unfold Rdiv. apply Rmult_le_compat_r; [|done].
  left. by apply Rinv_0_lt_compat.
Qed.

Lemma div_lt_swap a b c : 0 < b -> c * b < a -> c < a / b.
Proof.
  intros Hb H. replace c with (c * b / b) by (field; lra).
  unfold Rdiv. apply Rmult_lt_compat_r; [|done].
  by apply Rinv_0_lt_compat.
Qed.

Lemma upto_empty lo hi : (hi < lo)%Z -> upto lo hi = [].
Proof. intros H. unfold upto. apply seqZ_nil. lia. Qed.

Lemma upto_single z : upto z z = [z].
Proof.
  unfold upto. replace (z - z + 1)%Z with 1%Z by lia.
  rewrite seqZ_cons by lia. by rewrite seqZ_nil.
Qed.

(** A negative span visits no cell. *)
Lemma queryRadius_no_cell h x y radius excludeId :
  (Math_ceil (radius / cellSize h) < 0)%Z ->
  queryRadius h x y radius excludeId = [].
Proof.
  intros H. unfold queryRadius. destruct (cellCoords h x y) as [cx cy].
  cbv zeta. by rewrite upto_empty by lia.
Qed.

(** A span of 0 visits the query point's own cell only. *)
Lemma queryRadius_own_cell h x y radius excludeId :
  Math_ceil (radius / cellSize h) = 0%Z ->
  queryRadius h x y radius excludeId =
  List.filter (keeps x y (radius * radius) excludeId)
    (cellAt h (key (Math_floor (x / cellSize h)) (Math_floor (y / cellSize h)))).
Proof.
  intros H. rewrite queryRadius_cells. unfold cellCoords. cbv zeta.
  rewrite H. change (- 0)%Z with 0%Z. rewrite upto_single. simpl.
  by rewrite !app_nil_r, !Z.add_0_r.
Qed.

(** C9 (amended): with a positive cell size, [queryRadius] returns the
    empty list for every radius [<= - cellSize]; for a radius in
    [(- cellSize, 0]] it returns the agents of the query point's own cell
    that pass the distance-and-id test (for radius 0: the non-excluded
    agents located exactly at the query point). *)
Theorem queryRadius_nonpositive h x y radius excludeId :
  0 < cellSize h -> radius <= 0 ->
  (radius <= - cellSize h -> queryRadius h x y radius excludeId = []) /\
  (- cellSize h < radius ->
     queryRadius h x y radius excludeId =
     List.filter (keeps x y (radius * radius) excludeId)
       (cellAt h (key (Math_floor (x / cellSize h)) (Math_floor (y / cellSize h))))).
Proof.
  intros Hcs Hr. split; intros H.
  - apply queryRadius_no_cell.
    assert (radius / cellSize h <= -1).
    { apply div_le_swap; [done|]. lra. }
    pose proof (Math_ceil_bounds (radius / cellSize h)).
    apply lt_IZR. lra.
  - apply queryRadius_own_cell. apply Math_ceil_unique.
    assert (-1 < radius / cellSize h).
    { apply div_lt_swap; [done|]. lra. }
    assert (radius / cellSize h <= 0).
    { apply div_le_swap; [done|]. lra. }
    simpl. lra.
Qed.

Lemma insertAll_single cs a :
  cellAt (insertAll (new cs) [a]) (keyOf (new cs) a) = [a].
Proof.
  rewrite cellAt_insertAll. simpl. by rewrite bool_decide_eq_true_2.
Qed.

Lemma floor_0 cs : Math_floor (0 / cs) = 0%Z.
Proof. apply Math_floor_unique. unfold Rdiv. rewrite Rmult_0_l. simpl. lra. Qed.

Lemma keeps_origin r2 : 0 <= r2 -> keeps 0 0 r2 (-1) (agentAt 0 0 0) = true.
Proof.
  intros H. unfold keeps. simpl. apply Rleb_true. lra.
Qed.

(** C9 (as stated) fails: radius 0, one agent at the query point. *)
Lemma queryRadius_zero_radius_nonempty :
  queryRadius (insertAll (new 50) [agentAt 0 0 0]) 0 0 0 (-1) = [agentAt 0 0 0] /\
  queryRadius (insertAll (new 50) [agentAt 0 0 0]) 0 0 0 (-1) <> [].
Proof.
  assert (E : queryRadius (insertAll (new 50) [agentAt 0 0 0]) 0 0 0 (-1)
              = [agentAt 0 0 0]).
  { rewrite queryRadius_own_cell.
    - rewrite insertAll_cellSize. simpl cellSize. rewrite floor_0.
      pose proof (insertAll_single 50 (agentAt 0 0 0)) as H.
      unfold keyOf, cellCoords in H. simpl in H. rewrite floor_0 in H.
      rewrite H. simpl. by rewrite keeps_origin by lra.
    - rewrite insertAll_cellSize. simpl cellSize.
      apply Math_ceil_unique. simpl. lra. }
  split; [done|]. by rewrite E.
Qed.


Lemma queryRadius_nonpositive_witness :
  0 < cellSize (new 50) /\ -60 <= 0 /\
  (-60 <= - 50 -> queryRadius (new 50) 0 0 (-60) (-1) = []) /\
  (- 50 < -60 ->
     queryRadius (new 50) 0 0 (-60) (-1) =
     List.filter (keeps 0 0 (-60 * -60) (-1))
       (cellAt (new 50) (key (Math_floor (0 / 50)) (Math_floor (0 / 50))))).
Proof.
  split; [simpl; lra|]. split; [lra|].
  apply (queryRadius_nonpositive (new 50) 0 0 (-60) (-1)); simpl; lra.
Defined.

End SpatialHashFacts.

(** ** The agent loops of the three strategies *)

(** Name the components of the next pair that a [let '(a, b) := e in _]
    of the goal takes apart. *)
Ltac split_let :=
  match goal with
  | |- context [match ?e with (_, _) => _ end] => destruct e eqn:?
  end.

Lemma boids_step_id config obstacles hash a :
  id (BoidsAlgorithm.step config obstacles hash a) = id a.
Proof. reflexivity. Qed.

Lemma ant_step_id config obstacles st s a :
  id (AntColonyAlgorithm.step config obstacles st s a).1.1 = id a.
Proof. unfold AntColonyAlgorithm.step. repeat split_let. reflexivity. Qed.

Lemma pso_step_id config obstacles st s a :
  id (PSOAlgorithm.step config obstacles st s a).1.1 = id a.
Proof. unfold PSOAlgorithm.step. repeat split_let. reflexivity. Qed.

Lemma ant_loop_ids config obstacles agents : forall st s,
  map id (AntColonyAlgorithm.loop config obstacles st s agents).1.1 = map id agents.
Proof.
  induction agents as [|a l IH]; intros st s; simpl; [done|].
  pose proof (ant_step_id config obstacles st s a) as Hid.
  destruct (AntColonyAlgorithm.step config obstacles st s a) as [[a' st'] s'].
  specialize (IH st' s').
  destruct (AntColonyAlgorithm.loop config obstacles st' s' l) as [[out st''] s''].
  simpl in *. by rewrite Hid, IH.
Qed.

Lemma pso_loop_ids config obstacles agents : forall st s,
  map id (PSOAlgorithm.loop config obstacles st s agents).1.1 = map id agents.
Proof.
  induction agents as [|a l IH]; intros st s; simpl; [done|].
  pose proof (pso_step_id config obstacles st s a) as Hid.
  destruct (PSOAlgorithm.step config obstacles st s a) as [[a' st'] s'].
  specialize (IH st' s').
  destruct (PSOAlgorithm.loop config obstacles st' s' l) as [[out st''] s''].
  simpl in *. by rewrite Hid, IH.
Qed.

Lemma sqrt_sq_nonneg m : 0 <= m -> sqrt (m * m) = m.
Proof. intros. by apply sqrt_square. Qed.

(** [limit v max] is no longer than [max] (for a cap that is not negative). *)
Lemma limit_mag v max : 0 <= max -> mag (limit v max) <= max.
Proof.
  intros Hmax. unfold limit. cbv zeta.
  destruct (Rltb (max * max) (magSq v)) eqn:E.
  - apply Rltb_true in E. unfold mag, magSq in *. simpl.
    set (q := x v * x v + y v * y v) in *.
    assert (Hq : 0 < q) by nra.
    assert (Hdef : q = x v * x v + y v * y v) by done. clearbody q.
    assert (Hs : 0 < sqrt q) by (by apply sqrt_lt_R0).
    pose proof (sqrt_sqrt q ltac:(lra)) as Hss.
    right. apply sqrt_lem_1; [|done|].
    + apply Rplus_le_le_0_compat; apply Rle_0_sqr.
    + replace (x v / sqrt q * max * (x v / sqrt q * max) +
               y v / sqrt q * max * (y v / sqrt q * max))
        with (max * max * (q / (sqrt q * sqrt q))).
      * rewrite Hss. field. lra.
      * rewrite Hdef at 1. field. lra.
  - apply Rltb_false in E. unfold mag, magSq in *.
    rewrite <- (sqrt_sq_nonneg max Hmax). apply sqrt_le_1_alt. lra.
Qed.

Lemma mag_abs a b : mag {| x := Rabs a; y := b |} = mag {| x := a; y := b |}
  /\ mag {| x := a; y := Rabs b |} = mag {| x := a; y := b |}
  /\ mag {| x := - Rabs a; y := b |} = mag {| x := a; y := b |}
  /\ mag {| x := a; y := - Rabs b |} = mag {| x := a; y := b |}.
Proof.
  unfold mag. simpl.
  assert (Ha : Rabs a * Rabs a = a * a).
  { unfold Rabs. destruct (Rcase_abs a); lra. }
  assert (Hb : Rabs b * Rabs b = b * b).
  { unfold Rabs. destruct (Rcase_abs b); lra. }
  repeat split; f_equal; nra.
Qed.







Lemma returnBlock_ants st config a mem s :
  AntColonyAlgorithm.ants (AntColonyAlgorithm.returnBlock st config a mem s).1.2
  = AntColonyAlgorithm.ants st.
Proof.
  unfold AntColonyAlgorithm.returnBlock. cbv zeta.
  destruct (Rltb _ 15); repeat split_let; reflexivity.
Qed.

(** One iteration of the foraging loop stores a record under the agent's
    id and leaves every other id's record alone; the emitted id, state and
    speed cap are those of the stored record. *)
Lemma ant_step_mem config obstacles st s a :
  0 <= maxSpeed config ->
  let r := AntColonyAlgorithm.step config obstacles st s a in
  exists mem,
    AntColonyAlgorithm.ants r.1.2 = <[id a := mem]> (AntColonyAlgorithm.ants st) /\
    id r.1.1 = id a /\
    state r.1.1 = modeState (AntColonyAlgorithm.mode mem) /\
    speedOf r.1.1 <= modeCap config (AntColonyAlgorithm.mode mem).
Proof.
  intros Hcap. unfold AntColonyAlgorithm.step. repeat split_let. simpl.
  match goal with
  | |- context [<[id a := ?m]> _] => exists m
  end.
  assert (Hants : AntColonyAlgorithm.ants t = AntColonyAlgorithm.ants st).
  { destruct (AntColonyAlgorithm.mode a1).
    - by inversion Heqp2.
    - pose proof (returnBlock_ants st config a a1 r0) as Hr.
      by rewrite Heqp2 in Hr. }
  simpl. rewrite Hants. repeat split; try done.
  unfold speedOf. simpl.
  destruct (AntColonyAlgorithm.mode a2); simpl; apply limit_mag; lra.
Qed.


(** C10: for each of the three strategies, whatever the instance state,
    population, config, obstacle list, spatial index and random draws, the
    population [tick] returns has the same length as its input and,
    position by position, the same ids. *)
Theorem tick_preserves_ids :
  (forall agents config obstacles hash,
     let updated := BoidsAlgorithm.tick agents config obstacles hash in
     length updated = length agents /\ map id updated = map id agents) /\
  (forall st agents config obstacles hash s,
     let updated := (AntColonyAlgorithm.tick st agents config obstacles hash s).1.1 in
     length updated = length agents /\ map id updated = map id agents) /\
  (forall st agents config obstacles hash s,
     let updated := (PSOAlgorithm.tick st agents config obstacles hash s).1.1 in
     length updated = length agents /\ map id updated = map id agents).
Proof.
  assert (Hlen : forall l1 l2 : list Agent,
            map id l1 = map id l2 -> length l1 = length l2 /\ map id l1 = map id l2).
  { intros l1 l2 H. split; [|done]. by rewrite <- (length_map id), H, length_map. }
  cbv zeta. split; [|split]; intros; apply Hlen.
  - unfold BoidsAlgorithm.tick. rewrite map_map. by apply map_ext.
  - unfold AntColonyAlgorithm.tick. apply ant_loop_ids.
  - unfold PSOAlgorithm.tick.
    destruct (PSOAlgorithm.prepare st config s) as [st' s'].
    apply pso_loop_ids.
Qed.




(** ** Foraging: mode transitions *)

Section AntModes.
Import AntColonyAlgorithm AntSpec.

Lemma dist_sym a b : dist a b = dist b a.
Proof. unfold dist. cbv zeta. f_equal. ring. Qed.

Lemma findFood_spec a foods : forall k,
  match findFood a foods k with
  | Some fi =>
      exists n food, fi = (k + Z.of_nat n)%Z /\ foods !! n = Some food /\
        dist (posA a) (posF food) < fradius food /\
        (forall m food', (m < n)%nat -> foods !! m = Some food' ->
           ~ dist (posA a) (posF food') < fradius food')
  | None =>
      forall m food', foods !! m = Some food' ->
        ~ dist (posA a) (posF food') < fradius food'
  end.
Proof.
  induction foods as [|food rest IH]; intros k; simpl.
  - intros m food' H. by rewrite lookup_nil in H.
  - destruct (Rltb _ _) eqn:E.
    + apply Rltb_true in E. exists O, food. repeat split; [lia|done|lia].
    + apply Rltb_false in E. specialize (IH (k + 1)%Z).
      destruct (findFood a rest (k + 1)) as [fi|].
      * destruct IH as (n & food0 & -> & Hl & Hd & Hfirst).
        exists (S n), food0. repeat split; [lia|done|done|].
        intros [|m] food' Hm Hl'; simpl in Hl'.
        -- inversion Hl'; subst. lra.
        -- apply (Hfirst m); [lia|done].
      * intros [|m] food' Hl'; simpl in Hl'.
        -- inversion Hl'; subst. lra.
        -- by apply (IH m).
Qed.


Lemma wanderForce_mem a mem s :
  let m' := (wanderForce a mem s).1.2 in
  mode m' = mode mem /\ targetFoodIdx m' = targetFoodIdx mem /\
  stepsSearching m' = stepsSearching mem.
Proof. done. Qed.

Lemma sense_mem st a mem s :
  let m' := (senseAndSteerPheromone st a mem s).1.2 in
  mode m' = mode mem /\ targetFoodIdx m' = targetFoodIdx mem /\
  stepsSearching m' = stepsSearching mem.
Proof.
  unfold senseAndSteerPheromone. cbv zeta.
  repeat (destruct (Rltb _ _); simpl); done.
Qed.

(** The search block: on a hit the ant switches to return mode, records
    the first food index and clears its step counter; on a miss it only
    counts the step and turns. *)
Lemma searchBlock_spec st a mem s :
  match findFood a (foodSources st) 0 with
  | Some fi =>
      (searchBlock st a mem s).1.2 =
      {| mode := Return; wanderAngle := wanderAngle mem; targetFoodIdx := fi;
         stepsSearching := 0 |}
  | None =>
      let m' := (searchBlock st a mem s).1.2 in
      mode m' = mode mem /\ targetFoodIdx m' = targetFoodIdx mem /\
      stepsSearching m' = (stepsSearching mem + 1)%Z
  end.
Proof.
  unfold searchBlock. cbv zeta.
  destruct (findFood a (foodSources st) 0) as [fi|]; [done|].
  set (mem1 := {| mode := mode mem; wanderAngle := wanderAngle mem;
                  targetFoodIdx := targetFoodIdx mem;
                  stepsSearching := (stepsSearching mem + 1)%Z |}).
  destruct ((Z.rem (id a) 10 <? 3)%Z || (stepsSearching mem1 <? 50)%Z).
  - simpl. destruct (_ && _); done.
  - pose proof (sense_mem st a mem1 s) as Hs.
    destruct (senseAndSteerPheromone st a mem1 s) as [[phero mem2] s2].
    simpl in Hs. destruct Hs as (Hm & Ht & Hn).
    simpl. destruct (Rltb 0.05 (mag phero)); simpl;
      rewrite Hn; destruct (_ && _); simpl; rewrite ?Hm, ?Ht, ?Hn; done.
Qed.

(** The return block: within 15 of the nest the ant switches to search
    mode and forgets its food; otherwise its memory is unchanged. *)
Lemma returnBlock_spec st config a mem s :
  let m' := (returnBlock st config a mem s).1.1.2 in
  if Rltb (dist (posA a) (nest st)) 15 then
    mode m' = Search /\ targetFoodIdx m' = (-1)%Z /\ stepsSearching m' = 0%Z
  else m' = mem.
Proof.
  unfold returnBlock. cbv zeta. unfold Math_random. simpl.
  rewrite (dist_sym (posA a) (nest st)).
  change (dist (nest st) (posA a))
    with (mag (sub {| x := nestX st; y := nestY st |} (posA a))).
  destruct (Rltb _ 15); done.
Qed.







Lemma sqrt_lt_bound v b : 0 < b -> v < b * b -> sqrt v < b.
Proof.
  intros Hb Hv. destruct (Rle_dec 0 v) as [Hv0|Hv0].
  - rewrite <- (sqrt_square b) by lra. apply sqrt_lt_1_alt. lra.
  - rewrite sqrt_neg_0 by lra. done.
Qed.

End AntModes.

(** ** Foraging: the pheromone field *)

Section Pheromone.
Import AntColonyAlgorithm AntSpec.

Lemma pheromoneGrid_setGrid st g : pheromoneGrid (setGrid st g) = g.
Proof. reflexivity. Qed.

Lemma gridAt_bounded g idx : bounded g -> 0 <= gridAt g idx <= 12.
Proof.
  intros Hg. unfold gridAt. destruct (g !! Z.to_nat idx) as [v|] eqn:E; simpl.
  - by apply (Forall_lookup_1 _ _ _ _ Hg E).
  - lra.
Qed.

Lemma evaporateCell_bounded v : 0 <= v <= 12 -> 0 <= evaporateCell v <= 12.
Proof.
  intros H. unfold evaporateCell. cbv zeta.
  destruct (Rltb (v * 0.993) 0.01); lra.
Qed.

Lemma evaporateCell_snapped v : evaporateCell v = 0 \/ 0.01 <= evaporateCell v.
Proof.
  unfold evaporateCell. cbv zeta.
  destruct (Rltb (v * 0.993) 0.01) eqn:E; [by left|].
  apply Rltb_false in E. by right.
Qed.

Lemma evaporate_bounded st :
  bounded (pheromoneGrid st) -> bounded (pheromoneGrid (evaporate st)).
Proof.
  intros H. unfold evaporate, bounded. simpl. apply Forall_map.
  eapply Forall_impl; [exact H|]. intros v. apply evaporateCell_bounded.
Qed.

Lemma evaporate_snapped st : snapped (pheromoneGrid (evaporate st)).
Proof.
  unfold evaporate, snapped. simpl. apply Forall_map, Forall_forall.
  intros v _. apply evaporateCell_snapped.
Qed.

(** The weighted sum and the total weight gathered for one cell keep
    [0 <= sum <= 12 * count], with a weight of at least 0.6. *)
Lemma diffuseCell_bounded st x y :
  bounded (pheromoneGrid st) -> 0 <= diffuseCell st x y <= 12.
Proof.
  intros Hg. unfold diffuseCell. cbv zeta.
  set (inv := fun p : R * R => 0.6 <= p.2 /\ 0 <= p.1 <= 12 * p.2).
  assert (Hinner : forall dy l acc, inv acc ->
            inv (fold_left (fun '(sum, count) dx =>
                   if (dx =? 0)%Z && (dy =? 0)%Z then (sum, count)
                   else if inGrid st (x + dx) (y + dy)
                        then (sum + gridAt (pheromoneGrid st)
                                      ((y + dy) * gridCols st + (x + dx)) * 0.05,
                              count + 0.05)
                        else (sum, count)) l acc)).
  { intros dy l. induction l as [|dx l IH]; intros [sum count] Hacc; [done|].
    cbn [fold_left]. apply IH.
    destruct ((dx =? 0)%Z && (dy =? 0)%Z); [done|].
    destruct (inGrid st (x + dx) (y + dy)); [|done].
    pose proof (gridAt_bounded (pheromoneGrid st)
                  ((y + dy) * gridCols st + (x + dx)) Hg).
    unfold inv in *. simpl in *. lra. }
  assert (Houter : forall l acc, inv acc ->
            inv (fold_left (fun acc dy =>
                   fold_left (fun '(sum, count) dx =>
                     if (dx =? 0)%Z && (dy =? 0)%Z then (sum, count)
                     else if inGrid st (x + dx) (y + dy)
                          then (sum + gridAt (pheromoneGrid st)
                                        ((y + dy) * gridCols st + (x + dx)) * 0.05,
                                count + 0.05)
                          else (sum, count)) (upto (-1) 1) acc) l acc)).
  { induction l as [|dy l IH]; intros acc Hacc; [done|].
    cbn [fold_left]. apply IH. by apply Hinner. }
  pose proof (gridAt_bounded (pheromoneGrid st) (y * gridCols st + x) Hg) as Hc.
  specialize (Houter (upto (-1) 1)
                (gridAt (pheromoneGrid st) (y * gridCols st + x) * 0.6, 0.6)).
  destruct (fold_left _ (upto (-1) 1) _) as [sum count].
  destruct Houter as [Hcount Hsum]; [unfold inv; simpl; lra|]. simpl in *.
  assert (0 < / count) by (apply Rinv_0_lt_compat; lra).
  split.
  - apply Rmult_le_pos; lra.
  - apply div_le_swap; lra.
Qed.

Lemma diffusePheromones_bounded st :
  bounded (pheromoneGrid st) -> bounded (pheromoneGrid (diffusePheromones st)).
Proof.
  intros Hg. unfold diffusePheromones. cbv zeta. rewrite pheromoneGrid_setGrid.
  assert (Hinner : forall y l g, bounded g ->
            bounded (fold_left (fun g x =>
                       <[Z.to_nat (y * gridCols st + x) := diffuseCell st x y]> g)
                     l g)).
  { intros y l. induction l as [|x l IH]; intros g Hb; [done|].
    cbn [fold_left]. apply IH. apply Forall_insert; [done|].
    by apply diffuseCell_bounded. }
  assert (Houter : forall l g, bounded g ->
            bounded (fold_left (fun g y =>
                       fold_left (fun g x =>
                         <[Z.to_nat (y * gridCols st + x) := diffuseCell st x y]> g)
                         (upto 0 (gridCols st - 1)) g) l g)).
  { induction l as [|y l IH]; intros g Hb; [done|].
    cbn [fold_left]. apply IH. by apply Hinner. }
  apply Houter. apply Forall_replicate. lra.
Qed.

(** What holds of every cell and of every value a deposit writes holds of
    every cell after the deposit. *)
Lemma depositPheromone_Forall (P : R -> Prop) st x y strength :
  (forall g idx s, Forall P g -> s = strength \/ s = strength * 0.3 ->
     P (Rmin (gridAt g idx + s) 12)) ->
  Forall P (pheromoneGrid st) ->
  Forall P (pheromoneGrid (depositPheromone st x y strength)).
Proof.
  intros HP. unfold depositPheromone. cbv zeta. rewrite pheromoneGrid_setGrid.
  generalize [(0, 0); (1, 0); (-1, 0); (0, 1); (0, -1)]%Z.
  intros offsets. generalize (pheromoneGrid st).
  induction offsets as [|[dx dy] l IH]; intros g Hg; [exact Hg|].
  cbn [fold_left]. apply IH.
  destruct (inGrid st _ _); [|done]. apply Forall_insert; [done|].
  apply HP; [done|]. destruct (_ && _); auto.
Qed.

Lemma depositPheromone_bounded st x y strength :
  0 <= strength -> bounded (pheromoneGrid st) ->
  bounded (pheromoneGrid (depositPheromone st x y strength)).
Proof.
  intros Hs. apply depositPheromone_Forall. intros g idx s Hg Hcase.
  pose proof (gridAt_bounded g idx Hg).
  unfold Rmin. destruct (Rle_dec _ _); destruct Hcase; subst; lra.
Qed.

Lemma depositPheromone_snapped st x y strength :
  0.5 <= strength ->
  bounded (pheromoneGrid st) /\ snapped (pheromoneGrid st) ->
  bounded (pheromoneGrid (depositPheromone st x y strength)) /\
  snapped (pheromoneGrid (depositPheromone st x y strength)).
Proof.
  intros Hs [Hb Hsn]. split; [apply depositPheromone_bounded; [lra|done]|].
  assert (H : Forall (fun v => 0 <= v <= 12 /\ (v = 0 \/ 0.01 <= v))
                (pheromoneGrid (depositPheromone st x y strength))).
  { apply depositPheromone_Forall.
    - intros g idx s Hg Hcase.
      assert (Hg' : bounded g).
      { eapply Forall_impl; [exact Hg|]. by intros v [? _]. }
      pose proof (gridAt_bounded g idx Hg').
      unfold Rmin. destruct (Rle_dec _ _); destruct Hcase; subst; lra.
    - unfold bounded, snapped in *. rewrite Forall_forall in *.
      intros v Hv. split; auto. }
  eapply Forall_impl; [exact H|]. by intros v [_ ?].
Qed.

Lemma returnBlock_grid st config a mem s :
  let st' := (returnBlock st config a mem s).1.2 in
  (bounded (pheromoneGrid st) -> bounded (pheromoneGrid st')) /\
  (bounded (pheromoneGrid st) /\ snapped (pheromoneGrid st) ->
   snapped (pheromoneGrid st')) /\
  tickCount st' = tickCount st.
Proof.
  unfold returnBlock. cbv zeta.
  set (strength := Rmax 0.5 _).
  assert (Hs : 0.5 <= strength) by apply Rmax_l.
  destruct (Rltb _ 15); unfold Math_random; simpl;
    (split; [|split; [|done]]);
    try (apply depositPheromone_bounded; lra);
    intros H; by apply depositPheromone_snapped.
Qed.

Lemma step_grid config obstacles st s a :
  let st' := (step config obstacles st s a).1.2 in
  (bounded (pheromoneGrid st) -> bounded (pheromoneGrid st')) /\
  (bounded (pheromoneGrid st) /\ snapped (pheromoneGrid st) ->
   snapped (pheromoneGrid st')) /\
  tickCount st' = tickCount st.
Proof.
  unfold step. repeat split_let. simpl.
  destruct (mode a1).
  - inversion Heqp2; subst. split; [tauto|split; [tauto|done]].
  - pose proof (returnBlock_grid st config a a1 r0) as H.
    by rewrite Heqp2 in H.
Qed.

Lemma loop_grid config obstacles agents : forall st s,
  let st' := (loop config obstacles st s agents).1.2 in
  (bounded (pheromoneGrid st) -> bounded (pheromoneGrid st')) /\
  (bounded (pheromoneGrid st) /\ snapped (pheromoneGrid st) ->
   snapped (pheromoneGrid st')) /\
  tickCount st' = tickCount st.
Proof.
  induction agents as [|a l IH]; intros st s; simpl; [tauto|].
  pose proof (step_grid config obstacles st s a) as Hstep.
  destruct (step config obstacles st s a) as [[a' st1] s1].
  specialize (IH st1 s1).
  destruct (loop config obstacles st1 s1 l) as [[out st2] s2].
  simpl in *. destruct Hstep as (H1 & H2 & H3), IH as (H4 & H5 & H6).
  split; [tauto|]. split; [tauto|]. congruence.
Qed.

Lemma maintain_grid st config :
  let st' := maintain st config in
  (bounded (pheromoneGrid st) -> bounded (pheromoneGrid st')) /\
  ((Z.rem (tickCount st') 4 <> 0)%Z -> snapped (pheromoneGrid st')) /\
  tickCount st' = (tickCount st + 1)%Z.
Proof.
  unfold maintain. cbv zeta.
  set (st1 := if initialized st then st else init st config).
  assert (Hb1 : bounded (pheromoneGrid st) -> bounded (pheromoneGrid st1)).
  { subst st1. destruct (initialized st); [done|]. intros _.
    apply Forall_replicate. lra. }
  assert (Ht1 : tickCount st1 = tickCount st).
  { subst st1. by destruct (initialized st). }
  set (st2 := setTickCount st1 (tickCount st1 + 1)).
  change (tickCount (evaporate st2)) with (tickCount st1 + 1)%Z.
  destruct (Z.rem (tickCount st1 + 1) 4 =? 0)%Z eqn:E.
  - apply Z.eqb_eq in E. split; [|split].
    + intros H. apply diffusePheromones_bounded, evaporate_bounded. by apply Hb1.
    + simpl. by rewrite E.
    + simpl. by rewrite Ht1.
  - split; [|split].
    + intros H. apply evaporate_bounded. by apply Hb1.
    + intros _. apply evaporate_snapped.
    + simpl. by rewrite Ht1.
Qed.

(** C6 (amended): after each Foraging tick every cell of the pheromone
    field lies in [0, 12]; after each tick whose count is not a multiple
    of 4 (no diffusion), no cell holds a nonzero value below 0.01. *)
Theorem pheromone_field_range st :
  reachable st ->
  bounded (pheromoneGrid st) /\
  ((Z.rem (tickCount st) 4 <> 0)%Z -> snapped (pheromoneGrid st)).
Proof.
  induction 1 as [|st agents config obstacles hash s Hr [IHb IHs]].
  - split; [constructor|]. intros _. constructor.
  - unfold tick.
    pose proof (maintain_grid st config) as (Hm1 & Hm2 & Hm3).
    pose proof (loop_grid config obstacles agents (maintain st config) s)
      as (Hl1 & Hl2 & Hl3).
    destruct (loop config obstacles (maintain st config) s agents)
      as [[out st'] s'].
    simpl in *. split; [tauto|]. rewrite Hl3. intros Hrem. tauto.
Qed.

Lemma pheromone_field_range_witness :
  reachable (tick new [] tinyWorld [] (SpatialHash.new 60) (fun _ => 0)).1.2 /\
  bounded (pheromoneGrid
             (tick new [] tinyWorld [] (SpatialHash.new 60) (fun _ => 0)).1.2).
Proof.
  split; [apply reachable_tick, reachable_new|].
  apply (pheromone_field_range
           (tick new [] tinyWorld [] (SpatialHash.new 60) (fun _ => 0)).1.2).
  apply reachable_tick, reachable_new.
Defined.
End Pheromone.

(** ** Swarm optimisation: particle memory *)

Section PSOMemory.
Import PSOAlgorithm PSOSpec.

Lemma xle_refl a : xle a a.
Proof. destruct a; simpl; [lra|done]. Qed.

Lemma xle_trans a b c : xle a b -> xle b c -> xle a c.
Proof. destruct a, b, c; simpl; try done; lra. Qed.

Lemma xltb_xle a b : xltb a b = true -> xle a b.
Proof.
  destruct a, b; simpl; try done. intros H%Rltb_true. lra.
Qed.

(** One iteration of the agent loop rewrites the record of the agent's id
    only, and never to a larger personal best. *)
Lemma step_particles config obstacles st s a :
  let st' := (step config obstacles st s a).1.2 in
  (forall i, i <> id a -> particles st' !! i = particles st !! i) /\
  (exists mem', particles st' !! id a = Some mem' /\
     forall mem, particles st !! id a = Some mem ->
       xle (personalBestFitness mem') (personalBestFitness mem)) /\
  targets st' = targets st /\ initialized st' = initialized st /\
  tickCount st' = tickCount st.
Proof.
  unfold step. repeat split_let. simpl. split; [|split; [|done]].
  - intros i Hi. by rewrite lookup_insert_ne.
  - eexists. rewrite lookup_insert_eq. split; [reflexivity|].
    intros mem Hmem. unfold recall in Heqp. rewrite Hmem in Heqp.
    injection Heqp as <- <-.
    destruct (xltb _ (personalBestFitness mem)) eqn:E; simpl.
    + by apply xltb_xle.
    + apply xle_refl.
Qed.

Lemma loop_particles config obstacles agents : forall st s,
  let st' := (loop config obstacles st s agents).1.2 in
  (forall i mem, particles st !! i = Some mem ->
     exists mem', particles st' !! i = Some mem' /\
       xle (personalBestFitness mem') (personalBestFitness mem)) /\
  initialized st' = initialized st /\ tickCount st' = tickCount st.
Proof.
  induction agents as [|a l IH]; intros st s; simpl.
  - split; [|done]. intros i mem H. exists mem. split; [done|apply xle_refl].
  - pose proof (step_particles config obstacles st s a) as Hstep.
    destruct (step config obstacles st s a) as [[a' st1] s1].
    specialize (IH st1 s1).
    destruct (loop config obstacles st1 s1 l) as [[out st2] s2].
    simpl in *. destruct Hstep as (Hne & (m1 & Hm1 & Hle) & _ & Hi1 & Ht1).
    destruct IH as (IH & Hi2 & Ht2). split; [|split; congruence].
    intros i mem Hmem. destruct (decide (i = id a)) as [->|Hia].
    + destruct (IH _ _ Hm1) as (mem' & Hmem' & Hle').
      exists mem'. split; [done|]. eapply xle_trans; [exact Hle'|]. by apply Hle.
    + apply IH. by rewrite Hne.
Qed.

(** Before the loop of a tick that is not a teleport tick, an initialised
    instance keeps its particle memory. *)
Lemma prepare_keeps st config s :
  initialized st = true -> (Z.rem (tickCount st + 1) 120 <> 0)%Z ->
  let st' := (prepare st config s).1 in
  particles st' = particles st /\ initialized st' = true /\
  tickCount st' = (tickCount st + 1)%Z.
Proof.
  intros Hi Hrem. unfold prepare. rewrite Hi. cbv zeta. simpl.
  apply Z.eqb_neq in Hrem. by rewrite Hrem.
Qed.

(** At a teleport tick the loop starts from an empty particle memory and
    an infinite global best. *)
Lemma prepare_wipes st config s :
  (Z.rem (tickCount st + 1) 120 = 0)%Z ->
  let st' := (prepare st config s).1 in
  particles st' = ∅ /\ globalBestFitness st' = Infinity.
Proof.
  intros Hrem. unfold prepare. cbv zeta.
  destruct (initialized st); simpl; apply Z.eqb_eq in Hrem; by rewrite Hrem.
Qed.

Lemma tick_particles st agents config obstacles hash s :
  initialized st = true -> (Z.rem (tickCount st + 1) 120 <> 0)%Z ->
  let st' := (tick st agents config obstacles hash s).1.2 in
  (forall i mem, particles st !! i = Some mem ->
     exists mem', particles st' !! i = Some mem' /\
       xle (personalBestFitness mem') (personalBestFitness mem)) /\
  initialized st' = true /\ tickCount st' = (tickCount st + 1)%Z.
Proof.
  intros Hi Hrem. unfold tick.
  pose proof (prepare_keeps st config s Hi Hrem) as Hp.
  destruct (prepare st config s) as [st0 s0]. simpl in Hp.
  destruct Hp as (Hp & Hi0 & Ht0).
  pose proof (loop_particles config obstacles agents st0 s0) as Hl.
  cbv zeta in *. rewrite Hp, Hi0, Ht0 in Hl. exact Hl.
Qed.

(** C7: over any run of consecutive ticks of an initialised instance that
    contains no teleport tick, every stored personal-best fitness is still
    stored at the end and has not increased; and on every tick whose count
    is a multiple of 120 the agent loop starts from an empty particle
    memory and a global best of [Infinity]. *)
Theorem pso_memory :
  (forall inputs st s i mem,
     initialized st = true \/ particles st = ∅ ->
     noTeleport st (length inputs) ->
     particles st !! i = Some mem ->
     exists mem', particles (ticks st s inputs).1 !! i = Some mem' /\
       xle (personalBestFitness mem') (personalBestFitness mem)) /\
  (forall st agents config obstacles hash s,
     (Z.rem (tickCount st + 1) 120 = 0)%Z ->
     let wiped := (prepare st config s).1 in
     tickCount wiped = (tickCount st + 1)%Z /\
     particles wiped = ∅ /\ globalBestFitness wiped = Infinity /\
     tick st agents config obstacles hash s =
     loop config obstacles wiped (prepare st config s).2 agents).
Proof.
  split.
  - induction inputs as [|[[[agents config] obstacles] hash] rest IH];
      intros st s i mem [Hi|He] Hno Hmem;
      try (by rewrite He, lookup_empty in Hmem); simpl.
    + exists mem. split; [done|apply xle_refl].
    + assert (Hrem : (Z.rem (tickCount st + 1) 120 <> 0)%Z).
      { apply (Hno 1%nat). simpl. lia. }
      pose proof (tick_particles st agents config obstacles hash s Hi Hrem)
        as (Hp & Hi1 & Ht1).
      destruct (tick st agents config obstacles hash s) as [[out st1] s1].
      simpl in *. destruct (Hp i mem Hmem) as (m1 & Hm1 & Hle1).
      destruct (IH st1 s1 i m1 (or_introl Hi1)) as (mem' & Hmem' & Hle'); [|done|].
      * intros k Hk. rewrite Ht1.
        replace (tickCount st + 1 + Z.of_nat k)%Z
          with (tickCount st + Z.of_nat (S k))%Z by lia.
        apply Hno. lia.
      * exists mem'. split; [done|]. by eapply xle_trans.
  - intros st agents config obstacles hash s Hrem. cbv zeta.
    destruct (prepare_wipes st config s Hrem) as [Hp Hg].
    split; [|split; [done|split; [done|]]].
    + unfold prepare. cbv zeta. apply Z.eqb_eq in Hrem.
      destruct (initialized st); simpl; by rewrite Hrem.
    + unfold tick. by destruct (prepare st config s).
Qed.

Lemma pso_memory_witness :
  (initialized sample = true \/ particles sample = ∅) /\
  noTeleport sample 1 /\
  particles sample !! 0%Z =
    Some {| personalBestX := 0; personalBestY := 0;
            personalBestFitness := Num 10 |} /\
  exists mem',
    particles (ticks sample (fun _ => 0)
                 [([agentAt 0 50 50], DEFAULT_CONFIG, [], SpatialHash.new 60)]).1
      !! 0%Z = Some mem' /\
    xle (personalBestFitness mem') (Num 10).
Proof.
  assert (H1 : initialized sample = true \/ particles sample = ∅) by (by left).
  assert (H2 : noTeleport sample 1).
  { intros k Hk. assert (k = 1%nat) as -> by lia. done. }
  assert (H3 : particles sample !! 0%Z =
               Some {| personalBestX := 0; personalBestY := 0;
                       personalBestFitness := Num 10 |}) by done.
  split; [done|]. split; [done|]. split; [done|].
  exact (proj1 pso_memory
           [([agentAt 0 50 50], DEFAULT_CONFIG, [], SpatialHash.new 60)]
           sample (fun _ => 0) 0%Z _ H1 H2 H3).
Defined.
End PSOMemory.

(** ** The worker: anomaly detection *)

Section Anomaly.
Import Worker WorkerSpec.




















End Anomaly.

(** ** The worker: commands *)

Section Commands.
Import Worker.

(** C5 (amended): processing a Reconfigure command on an initialised
    worker merges the partial config and then
    - recreates the strategy instance (all per-agent strategy memory gone)
      exactly when the partial config supplies an algorithm selector,
      whether or not it differs from the current one; otherwise the
      instance, memory included, is kept, also when the neighbor radius
      changes;
    - recreates the spatial index, with the new radius as cell size, when
      the partial config supplies a nonzero neighbor radius, and keeps it
      when the partial config supplies none. *)
Theorem reconfigure_recreates w cfg p :
  config w = Some cfg ->
  let w' := onmessage w (UPDATE_CONFIG p) in
  config w' = Some (merge cfg p) /\
  (forall a, p_algorithm p = Some a ->
     algorithm w' = Some (getAlgorithm a)) /\
  (p_algorithm p = None -> algorithm w' = algorithm w) /\
  (forall r, p_neighborRadius p = Some r -> r <> 0 ->
     spatialHash w' = Some (SpatialHash.new r)) /\
  (p_neighborRadius p = None -> spatialHash w' = spatialHash w).
Proof.
  intros Hc. cbv zeta. cbn [onmessage]. rewrite Hc. simpl.
  split; [done|]. split; [|split; [|split]].
  - intros a Ha. by rewrite Ha.
  - intros Ha. by rewrite Ha.
  - intros r Hr Hr0. rewrite Hr. simpl. by destruct (Req_dec_T r 0).
  - intros Hr. by rewrite Hr.
Qed.

(** C8 (amended): processing SetAgents replaces the population and changes
    the length of no history window; every id other than that of the new
    population's first agent keeps its history unchanged, while the
    history window of the first agent, when there is one, has each entry
    overwritten with that agent's new position. *)
Theorem set_agents_history w msgAgents :
  let w' := onmessage w (SET_AGENTS msgAgents) in
  agents w' = msgAgents /\
  (forall i, length <$> posHistory w' !! i = length <$> posHistory w !! i) /\
  (forall i, head (map id msgAgents) <> Some i ->
     posHistory w' !! i = posHistory w !! i) /\
  (forall a0 rest h, msgAgents = a0 :: rest ->
     posHistory w !! id a0 = Some h ->
     posHistory w' !! id a0 = Some (replicate (length h) (posA a0))).
Proof.
  cbv zeta. cbn [onmessage]. simpl. unfold fillFirst.
  split; [done|]. split; [|split].
  - intros i. destruct msgAgents as [|a0 rest]; [done|].
    destruct (posHistory w !! id a0) as [h|] eqn:E; [|done].
    destruct (decide (i = id a0)) as [->|Hne].
    + rewrite lookup_insert_eq, E. simpl. by rewrite length_replicate.
    + by rewrite lookup_insert_ne.
  - intros i Hi. destruct msgAgents as [|a0 rest]; [done|].
    destruct (posHistory w !! id a0) as [h|] eqn:E; [|done].
    rewrite lookup_insert_ne; [done|]. simpl in Hi. congruence.
  - intros a0 rest h -> Hh. rewrite Hh. by rewrite lookup_insert_eq.
Qed.
End Commands.

(** ** A flocking agent at rest *)

Section Still.

Lemma Rltb_irrefl a : Rltb a a = false.
Proof. apply Rltb_false. lra. Qed.

Lemma limit_zero m : limit zero m = zero.
Proof.
  unfold limit. cbv zeta. replace (Rltb (m * m) (magSq zero)) with false; [done|].
  symmetry. apply Rltb_false. unfold magSq. simpl. nra.
Qed.

Lemma scale_zero s : scale zero s = zero.
Proof. unfold scale, zero. simpl. f_equal; ring. Qed.

Lemma add_zero_r v : add v zero = v.
Proof. destruct v. unfold add, zero. simpl. f_equal; ring. Qed.

Lemma heading_zero : heading zero = 0.
Proof. unfold heading, Math_atan2. simpl. by rewrite !Rltb_irrefl. Qed.

(** A flocking agent at rest inside the world, with no neighbour within
    the neighbor radius and no obstacle, stays as it is. *)
Lemma boids_step_still cfg hash i px py :
  SpatialHash.queryRadius hash px py (neighborRadius cfg) i = [] ->
  0 <= px < worldWidth cfg -> 0 <= py < worldHeight cfg ->
  BoidsAlgorithm.step cfg [] hash (agentAt i px py) = agentAt i px py.
Proof.
  intros Hq Hx Hy. unfold BoidsAlgorithm.step. cbv zeta.
  change (ax (agentAt i px py)) with px. change (ay (agentAt i px py)) with py.
  change (id (agentAt i px py)) with i.
  change (vx (agentAt i px py)) with 0. change (vy (agentAt i px py)) with 0.
  rewrite Hq.
  change (BoidsAlgorithm.separation (agentAt i px py) [] cfg) with zero.
  change (BoidsAlgorithm.alignment (agentAt i px py) [] cfg) with zero.
  change (BoidsAlgorithm.cohesion (agentAt i px py) [] cfg) with zero.
  change (BoidsAlgorithm.avoidObstacles (agentAt i px py) [] cfg)
    with (limit zero (maxForce cfg)).
  rewrite !limit_zero, !scale_zero, !add_zero_r, limit_zero.
  change (x zero) with 0. change (y zero) with 0.
  replace {| x := 0 + 0; y := 0 + 0 |} with zero
    by (unfold zero; f_equal; ring).
  rewrite limit_zero, heading_zero.
  change (x zero) with 0. change (y zero) with 0.
  replace (px + 0 * speedMultiplier cfg) with px by ring.
  replace (py + 0 * speedMultiplier cfg) with py by ring.
  replace (Rltb px 0) with false by (symmetry; apply Rltb_false; lra).
  replace (Rleb (worldWidth cfg) px) with false by (symmetry; apply Rleb_false; lra).
  replace (Rltb py 0) with false by (symmetry; apply Rltb_false; lra).
  replace (Rleb (worldHeight cfg) py) with false by (symmetry; apply Rleb_false; lra).
  reflexivity.
Qed.

(** A lone agent has no neighbour: the index query that excludes its own
    id is empty. *)
Lemma queryRadius_alone h i px py r :
  0 < SpatialHash.cellSize h -> 0 <= r ->
  SpatialHash.queryRadius (SpatialHash.insertAll h [agentAt i px py])
    px py r i = [].
Proof.
  intros Hcs Hr.
  pose proof (queryRadius_sameSet h [agentAt i px py] px py r i Hcs Hr) as H.
  destruct (SpatialHash.queryRadius _ _ _ _ _) as [|b l]; [done|].
  destruct (H b) as [Hin _]. specialize (Hin (or_introl eq_refl)).
  rewrite bruteForce_keeps in Hin. unfold SpatialHash.keeps in Hin.
  simpl in Hin. destruct (Z.eq_dec i i); [done|congruence].
Qed.
End Still.

(** ** Concrete runs of the worker *)

Section Runs.
Import Worker WorkerSpec.

(** The fields of the worker after a tick that runs. *)
Lemma simTick_fields w cfg alg hash :
  config w = Some cfg -> algorithm w = Some alg -> spatialHash w = Some hash ->
  let hash' := SpatialHash.insertAll hash (agents w) in
  let r := algorithmTick alg (agents w) cfg (obstacles w) hash' (rng w) in
  let d := detectAll (posHistory w) r.1.1 in
  agents (simTick w) = d.1 /\ config (simTick w) = Some cfg /\
  algorithm (simTick w) = Some r.1.2 /\ spatialHash (simTick w) = Some hash' /\
  posHistory (simTick w) = d.2 /\ obstacles (simTick w) = obstacles w /\
  tick (simTick w) = (tick w + 1)%Z.
Proof.
  intros Hc Ha Hh. cbv zeta. unfold simTick. rewrite Hc, Ha, Hh.
  destruct (algorithmTick _ _ _ _ _ _) as [[updated alg'] s'].
  cbn [fst snd]. by destruct (detectAll (posHistory w) updated) as [flagged hist].
Qed.

Lemma stepped_simTick cfg : stepped cfg = simTick (started cfg).
Proof. reflexivity. Qed.

Lemma started_fields cfg :
  agents (started cfg) = [agentAt 0 100 100] /\
  config (started cfg) = Some cfg /\
  algorithm (started cfg) = Some (getAlgorithm (selector cfg)) /\
  spatialHash (started cfg) = Some (SpatialHash.new (neighborRadius cfg)) /\
  posHistory (started cfg) = ∅ /\ obstacles (started cfg) = [].
Proof. repeat split; reflexivity. Qed.

(** With the default (flocking) config, the agent at rest is still at
    (100, 100) after the step and has one history entry. *)
Lemma stepped_default :
  agents (stepped DEFAULT_CONFIG) = [agentAt 0 100 100] /\
  posHistory (stepped DEFAULT_CONFIG) = {[ 0%Z := [ {| x := 100; y := 100 |} ] ]}.
Proof.
  rewrite stepped_simTick.
  destruct (started_fields DEFAULT_CONFIG) as (Hag & Hc & Ha & Hh & Hp & Ho).
  destruct (simTick_fields _ _ _ _ Hc Ha Hh) as (H1 & _ & _ & _ & H5 & _).
  rewrite H1, H5. rewrite Hag, Hp, Ho.
  change (algorithmTick (getAlgorithm (selector DEFAULT_CONFIG)) [agentAt 0 100 100]
            DEFAULT_CONFIG []
            (SpatialHash.insertAll (SpatialHash.new (neighborRadius DEFAULT_CONFIG))
               [agentAt 0 100 100]) (rng (started DEFAULT_CONFIG))).1.1
    with [BoidsAlgorithm.step DEFAULT_CONFIG []
            (SpatialHash.insertAll (SpatialHash.new 60) [agentAt 0 100 100])
            (agentAt 0 100 100)].
  rewrite boids_step_still.
  - split; reflexivity.
  - apply queryRadius_alone; simpl; lra.
  - simpl. lra.
  - simpl. lra.
Qed.

(** C8 (as stated) fails: after [Init] with one agent at (100, 100) and a
    [Step], agent 0 has the history [(100, 100)]; a [SetAgents] that puts
    agent 0 at (500, 500) turns it into [(500, 500)]. *)
Lemma set_agents_overwrites_first_history :
  let w := stepped DEFAULT_CONFIG in
  let w' := onmessage w (SET_AGENTS [agentAt 0 500 500]) in
  posHistory w !! 0%Z = Some [ {| x := 100; y := 100 |} ] /\
  posHistory w' !! 0%Z = Some [ {| x := 500; y := 500 |} ] /\
  posHistory w' !! 0%Z <> posHistory w !! 0%Z.
Proof.
  cbv zeta. destruct stepped_default as [_ Hp].
  assert (H1 : posHistory (stepped DEFAULT_CONFIG) !! 0%Z
               = Some [ {| x := 100; y := 100 |} ]).
  { by rewrite Hp, lookup_singleton_eq. }
  assert (H2 : posHistory (onmessage (stepped DEFAULT_CONFIG)
                             (SET_AGENTS [agentAt 0 500 500])) !! 0%Z
               = Some [ {| x := 500; y := 500 |} ]).
  { cbn [onmessage posHistory fillFirst]. change (id (agentAt 0 500 500)) with 0%Z.
    rewrite H1. by rewrite lookup_insert_eq. }
  split; [done|]. split; [done|]. rewrite H1, H2.
  intros [= H]. lra.
Qed.

(** C5 (as stated) fails: after [Init] with the foraging strategy and a
    [Step], the strategy remembers ant 0; a Reconfigure that changes the
    neighbor radius from 60 to 80 leaves that strategy instance, memory
    included, in place. *)
Lemma reconfigure_radius_keeps_strategy :
  let w := stepped antConfig in
  let w' := onmessage w (UPDATE_CONFIG (radiusOnly 80)) in
  neighborRadius <$> config w = Some 60 /\
  neighborRadius <$> config w' = Some 80 /\
  algorithm w' = algorithm w /\
  (exists st mem, algorithm w' = Some (AntColonyInstance st) /\
                  AntColonyAlgorithm.ants st !! 0%Z = Some mem) /\
  algorithm w' <> Some (getAlgorithm AntColony).
Proof.
  cbv zeta.
  destruct (started_fields antConfig) as (Hag & Hc & Ha & Hh & Hp & Ho).
  destruct (simTick_fields _ _ _ _ Hc Ha Hh) as (_ & H2 & H3 & _).
  rewrite <- stepped_simTick in H2, H3.
  assert (Hw' : algorithm (onmessage (stepped antConfig) (UPDATE_CONFIG (radiusOnly 80)))
                = algorithm (stepped antConfig)).
  { cbn [onmessage]. by rewrite H2. }
  assert (Hmem : exists st mem,
            algorithm (stepped antConfig) = Some (AntColonyInstance st) /\
            AntColonyAlgorithm.ants st !! 0%Z = Some mem).
  { rewrite H3, Hag, Ho.
    change (getAlgorithm (selector antConfig))
      with (AntColonyInstance AntColonyAlgorithm.new).
    cbn [algorithmTick]. unfold AntColonyAlgorithm.tick.
    cbn [AntColonyAlgorithm.loop].
    pose proof (ant_step_mem antConfig []
                  (AntColonyAlgorithm.maintain AntColonyAlgorithm.new antConfig)
                  (rng (started antConfig)) (agentAt 0 100 100)
                  ltac:(simpl; lra)) as (mem & Hants & _).
    destruct (AntColonyAlgorithm.step _ _ _ _ _) as [[a' st'] s'].
    cbn [fst snd] in *. exists st', mem. split; [done|].
    rewrite Hants. change (id (agentAt 0 100 100)) with 0%Z.
    by rewrite lookup_insert_eq. }
  split; [by rewrite H2|]. split; [cbn [onmessage]; by rewrite H2|].
  split; [done|]. rewrite Hw'. split; [done|].
  destruct Hmem as (st & mem & -> & Hl). intros [= ->].
  change (AntColonyAlgorithm.ants AntColonyAlgorithm.new) with (∅ : gmap Z AntColonyAlgorithm.AntMemory) in Hl.
  by rewrite lookup_empty in Hl.
Qed.

(** ** Forty ticks at rest *)








Lemma reconfigure_recreates_witness :
  let w := started DEFAULT_CONFIG in
  let w' := onmessage w (UPDATE_CONFIG (radiusOnly 80)) in
  config w = Some DEFAULT_CONFIG /\
  config w' = Some (merge DEFAULT_CONFIG (radiusOnly 80)) /\
  algorithm w' = algorithm w /\
  spatialHash w' = Some (SpatialHash.new 80).
Proof.
  cbv zeta.
  assert (H : config (started DEFAULT_CONFIG) = Some DEFAULT_CONFIG) by reflexivity.
  split; [done|].
  destruct (reconfigure_recreates (started DEFAULT_CONFIG) DEFAULT_CONFIG
              (radiusOnly 80) H) as (H1 & _ & H3 & H4 & _).
  split; [done|]. split; [by apply H3|].
  apply H4; [done|]. lra.
Defined.
End Runs.

(** ** Foraging: a run that leaves a value below the threshold *)

Section FourTicks.
Import AntColonyAlgorithm AntSpec AntRun.

(** The state one iteration of the agent loop leaves. *)
Lemma step_state config obstacles st s a :
  (step config obstacles st s a).1.2 =
  (let '(mem, s) := recall st a s in
   let '(force, mem, s) :=
     match mode mem with
     | Search => searchBlock st a mem s
     | Return => (zero, mem, s)
     end in
   let '(force, mem, st', s) :=
     match mode mem with
     | Return => returnBlock st config a mem s
     | Search => (force, mem, st, s)
     end in
   setAnts st' (<[id a := mem]> (ants st))).
Proof.
  unfold step. repeat split_let. cbn [fst snd].
  assert (Hants : ants t0 = ants st).
  { destruct (mode a1).
    - by inversion Heqp2.
    - pose proof (returnBlock_ants st config a a1 r0) as Hr.
      by rewrite Heqp2 in Hr. }
  by rewrite Hants.
Qed.

Lemma returnBlock_state st config a mem s :
  (returnBlock st config a mem s).1.2 =
  depositPheromone st (ax a) (ay a) (depositStrength st a mem).
Proof.
  unfold returnBlock. cbv zeta. fold (depositStrength st a mem).
  by destruct (Rltb _ 15).
Qed.

Lemma loop_single config obstacles st s a :
  (loop config obstacles st s [a]).1.2 = (step config obstacles st s a).1.2.
Proof. cbn [loop]. by destruct (step config obstacles st s a) as [[a' st'] s']. Qed.

Lemma evaporate_lookup st i :
  pheromoneGrid (evaporate st) !! i = evaporateCell <$> pheromoneGrid st !! i.
Proof. unfold evaporate. rewrite pheromoneGrid_setGrid. apply list_lookup_fmap. Qed.

Lemma evaporateCell_0 : evaporateCell 0 = 0.
Proof.
  unfold evaporateCell. cbv zeta.
  replace (Rltb (0 * 0.993) 0.01) with true; [done|].
  symmetry. apply Rltb_true. lra.
Qed.

Lemma evaporateCell_keep v : 0.01 <= v * 0.993 -> evaporateCell v = v * 0.993.
Proof.
  intros H. unfold evaporateCell. cbv zeta.
  replace (Rltb (v * 0.993) 0.01) with false; [done|].
  symmetry. by apply Rltb_false.
Qed.

(** Row-major indices of in-range cells are distinct. *)
Lemma index_inj cols x y x' y' :
  (0 <= x < cols)%Z -> (0 <= x' < cols)%Z -> (0 <= y)%Z -> (0 <= y')%Z ->
  Z.to_nat (y * cols + x) = Z.to_nat (y' * cols + x') -> x = x' /\ y = y'.
Proof.
  intros Hx Hx' Hy Hy' H. apply Z2Nat.inj in H; [|nia..].
  assert (y = y') by nia. subst. lia.
Qed.

(** The cell (x, y) of the diffused grid holds [diffuseCell st x y]. *)
Lemma diffusePheromones_lookup st x y :
  (0 <= x < gridCols st)%Z -> (0 <= y < gridRows st)%Z ->
  length (pheromoneGrid st) = Z.to_nat (gridCols st * gridRows st) ->
  pheromoneGrid (diffusePheromones st) !! Z.to_nat (y * gridCols st + x)
  = Some (diffuseCell st x y).
Proof.
  intros Hx Hy Hlen. unfold diffusePheromones. cbv zeta.
  rewrite pheromoneGrid_setGrid.
  set (idx := Z.to_nat (y * gridCols st + x)).
  set (row := fun (y' : Z) (g : list R) =>
         fold_left (fun g x' =>
           <[Z.to_nat (y' * gridCols st + x') := diffuseCell st x' y']> g)
           (upto 0 (gridCols st - 1)) g).
  assert (Hin : (idx < length (pheromoneGrid st))%nat).
  { subst idx. rewrite Hlen. apply Z2Nat.inj_lt; nia. }
  (* a row keeps the length *)
  assert (Hrowlen : forall y' g, length (row y' g) = length g).
  { intros y' g. subst row. cbv beta. revert g.
    induction (upto 0 (gridCols st - 1)) as [|x' l IH]; intros g; [done|].
    cbn [fold_left]. by rewrite IH, length_insert. }
  (* a row other than y leaves the cell alone *)
  assert (Hother : forall y' g, (0 <= y')%Z -> y' <> y ->
            row y' g !! idx = g !! idx).
  { intros y' g Hy' Hne. subst row. cbv beta.
    assert (H : forall l (g : list R),
              (forall x', In x' l -> (0 <= x' < gridCols st)%Z) ->
              fold_left (fun g x' =>
                <[Z.to_nat (y' * gridCols st + x') := diffuseCell st x' y']> g) l g
              !! idx = g !! idx).
    { induction l as [|x' l IH]; intros g0 Hl; [done|].
      cbn [fold_left]. rewrite IH by (intros; apply Hl; by right).
      apply list_lookup_insert_ne. intros Heq.
      apply index_inj in Heq as [_ ?]; [done|apply Hl; by left|lia..]. }
    apply H. intros x' Hx'%in_upto. lia. }
  (* the row y sets it *)
  assert (Hset : forall g, (idx < length g)%nat ->
            row y g !! idx = Some (diffuseCell st x y)).
  { intros g Hg. subst row. cbv beta.
    assert (H : forall l (g : list R),
              (forall x', In x' l -> (0 <= x' < gridCols st)%Z) ->
              (idx < length g)%nat ->
              (In x l \/ g !! idx = Some (diffuseCell st x y)) ->
              fold_left (fun g x' =>
                <[Z.to_nat (y * gridCols st + x') := diffuseCell st x' y]> g) l g
              !! idx = Some (diffuseCell st x y)).
    { induction l as [|x' l IH]; intros g0 Hl Hg0 Hcase.
      - by destruct Hcase as [[]|].
      - cbn [fold_left]. apply IH.
        + intros; apply Hl; by right.
        + by rewrite length_insert.
        + destruct (decide (x' = x)) as [->|Hne].
          * right. by apply list_lookup_insert_eq.
          * destruct Hcase as [[?|?]|Hc]; [done|by left|right].
            rewrite list_lookup_insert_ne; [done|]. intros Heq.
            apply index_inj in Heq as [? _]; [done|apply Hl; by left|lia..]. }
    apply H; [|done|].
    - intros x' Hx'%in_upto. lia.
    - left. apply in_upto. lia. }
  assert (H : forall l (g : list R),
            (forall y', In y' l -> (0 <= y')%Z) ->
            (idx < length g)%nat ->
            (In y l \/ g !! idx = Some (diffuseCell st x y)) ->
            fold_left (fun g y' => row y' g) l g !! idx
            = Some (diffuseCell st x y)).
  { induction l as [|y' l IH]; intros g Hl Hg Hcase.
    - by destruct Hcase as [[]|].
    - cbn [fold_left]. apply IH.
      + intros; apply Hl; by right.
      + by rewrite Hrowlen.
      + destruct (decide (y' = y)) as [->|Hne].
        * right. by apply Hset.
        * destruct Hcase as [[?|?]|Hc]; [done|by left|right].
          rewrite Hother; [done|apply Hl; by left|done]. }
  apply H.
  - intros y' Hy'%in_upto. lia.
  - by rewrite length_replicate.
  - left. apply in_upto. lia.
Qed.

Lemma depositPheromone_fold st x y strength :
  pheromoneGrid (depositPheromone st x y strength) =
  depositFold st (Math_floor (x / cellSize st)) (Math_floor (y / cellSize st))
    strength [(0, 0); (1, 0); (-1, 0); (0, 1); (0, -1)]%Z (pheromoneGrid st).
Proof. reflexivity. Qed.

Lemma depositFold_length st cx cy k offsets : forall g,
  length (depositFold st cx cy k offsets g) = length g.
Proof.
  induction offsets as [|[dx dy] l IH]; intros g; [done|].
  unfold depositFold in *. cbn [fold_left]. rewrite IH.
  destruct (inGrid st _ _); [|done]. by rewrite length_insert.
Qed.

(** Offsets that do not hit cell [i] leave it alone. *)
Lemma depositFold_miss st cx cy k i offsets : forall g,
  (forall dx dy, In (dx, dy) offsets ->
     Z.to_nat ((cy + dy) * gridCols st + (cx + dx)) <> i) ->
  depositFold st cx cy k offsets g !! i = g !! i.
Proof.
  induction offsets as [|[dx dy] l IH]; intros g Hl; [done|].
  unfold depositFold in *. cbn [fold_left]. rewrite IH.
  - destruct (inGrid st _ _); [|done]. apply list_lookup_insert_ne.
    apply Hl. by left.
  - intros dx' dy' Hin. apply Hl. by right.
Qed.

(** A side offset that alone hits cell [i] adds 30% of the strength. *)
Lemma depositFold_side st cx cy k i before dx dy after g v :
  (forall dx' dy', In (dx', dy') (before ++ after) ->
     Z.to_nat ((cy + dy') * gridCols st + (cx + dx')) <> i) ->
  inGrid st (cx + dx) (cy + dy) = true ->
  ((dx =? 0)%Z && (dy =? 0)%Z) = false ->
  Z.to_nat ((cy + dy) * gridCols st + (cx + dx)) = i ->
  g !! i = Some v ->
  depositFold st cx cy k (before ++ (dx, dy) :: after) g !! i
  = Some (Rmin (v + k * 0.3) 12).
Proof.
  intros Hmiss Hin Hside Hi Hv. unfold depositFold.
  rewrite fold_left_app. cbn [fold_left]. fold (depositFold st cx cy k before g).
  rewrite Hin, Hside. cbv zeta.
  match goal with
  | |- fold_left ?f after ?g0 !! i = _ =>
      change (fold_left f after g0) with (depositFold st cx cy k after g0)
  end.
  rewrite depositFold_miss.
  2:{ intros dx' dy' H. apply Hmiss, in_or_app. by right. }
  assert (Hb : depositFold st cx cy k before g !! i = Some v).
  { rewrite depositFold_miss; [done|].
    intros dx' dy' H. apply Hmiss, in_or_app. by left. }
  rewrite Hi. unfold gridAt. rewrite Hi, Hb. simpl.
  apply list_lookup_insert_eq. rewrite depositFold_length.
  by apply lookup_lt_Some in Hv.
Qed.

Lemma ceil_125 : Math_ceil (1000 / 8) = 125%Z.
Proof. apply Math_ceil_unique. simpl. lra. Qed.
Lemma ceil_3 : Math_ceil (24 / 8) = 3%Z.
Proof. apply Math_ceil_unique. simpl. lra. Qed.
Lemma floor_106 : Math_floor (850 / 8) = 106%Z.
Proof. apply Math_floor_unique. simpl. lra. Qed.
Lemma floor_4_8 : Math_floor (4.8 / 8) = 0%Z.
Proof. apply Math_floor_unique. simpl. lra. Qed.
Lemma floor_25 : Math_floor (200 / 8) = 25%Z.
Proof. apply Math_floor_unique. simpl. lra. Qed.
Lemma floor_1 : Math_floor (12 / 8) = 1%Z.
Proof. apply Math_floor_unique. simpl. lra. Qed.

Lemma maintain_new : maintain new longWorld
                     = evaporate (setTickCount (init new longWorld) 1).
Proof. reflexivity. Qed.

Lemma maintain_initialised st cfg :
  initialized st = true ->
  maintain st cfg =
  let st := evaporate (setTickCount st (tickCount st + 1)) in
  if (Z.rem (tickCount st) 4 =? 0)%Z then diffusePheromones st else st.
Proof. intros H. unfold maintain. by rewrite H. Qed.

Lemma evaporate_shaped st n : shaped st -> shaped (evaporate (setTickCount st n)).
Proof.
  intros (H1 & H2 & H3 & H4 & H5 & H6 & H7 & H8).
  repeat split; try done.
  unfold evaporate. rewrite pheromoneGrid_setGrid. by rewrite length_map.
Qed.

Lemma evaporate_around st n v :
  around st v -> around (evaporate (setTickCount st n)) (evaporateCell v).
Proof.
  intros [H1 H2]. split.
  - rewrite evaporate_lookup. simpl. by rewrite H1.
  - eapply Forall_impl; [exact H2|]. intros i Hi.
    rewrite evaporate_lookup. simpl. rewrite Hi. simpl.
    by rewrite evaporateCell_0.
Qed.

Lemma init_shaped : shaped (init new longWorld).
Proof.
  repeat split; try reflexivity.
  - change (gridCols (init new longWorld)) with (Math_ceil (1000 / 8)).
    apply ceil_125.
  - change (gridRows (init new longWorld)) with (Math_ceil (24 / 8)).
    apply ceil_3.
  - change (pheromoneGrid (init new longWorld))
      with (replicate (Z.to_nat (Math_ceil (1000 / 8) * Math_ceil (24 / 8))) 0).
    by rewrite length_replicate, ceil_125, ceil_3.
Qed.

Lemma init_around : around (init new longWorld) 0.
Proof.
  unfold around.
  change (pheromoneGrid (init new longWorld))
    with (replicate (Z.to_nat (Math_ceil (1000 / 8) * Math_ceil (24 / 8))) 0).
  rewrite ceil_125, ceil_3.
  change (Z.to_nat (125 * 3)) with 375%nat.
  split; [|repeat constructor]; by apply lookup_replicate_2; lia.
Qed.

(** The return block away from the nest: a deposit, the memory kept. *)
Lemma returnBlock_away st config a mem s :
  15 <= dist (posA a) (nest st) ->
  (returnBlock st config a mem s).1.1.2 = mem /\
  (returnBlock st config a mem s).1.2 =
  depositPheromone st (ax a) (ay a) (depositStrength st a mem).
Proof.
  intros Hd. split; [|apply returnBlock_state].
  pose proof (returnBlock_spec st config a mem s) as H. cbv zeta in H.
  apply Rltb_false in Hd. by rewrite Hd in H.
Qed.

(** An ant already in return mode, away from the nest. *)
Lemma step_returning config obstacles st s a mem :
  ants st !! id a = Some mem -> mode mem = Return ->
  15 <= dist (posA a) (nest st) ->
  (step config obstacles st s a).1.2 =
  setAnts (depositPheromone st (ax a) (ay a) (depositStrength st a mem))
          (<[id a := mem]> (ants st)).
Proof.
  intros Hmem Hmode Hd. rewrite step_state. unfold recall. rewrite Hmem.
  rewrite Hmode. cbv beta iota. rewrite Hmode.
  destruct (returnBlock_away st config a mem s Hd) as [H1 H2].
  destruct (returnBlock st config a mem s) as [[[f m] st'] s'].
  cbn [fst snd] in *. by subst.
Qed.

(** A new ant that stands on a food source, away from the nest. *)
Lemma step_finding config obstacles st s a fi :
  ants st !! id a = None -> findFood a (foodSources st) 0 = Some fi ->
  15 <= dist (posA a) (nest st) ->
  exists mem, mode mem = Return /\ targetFoodIdx mem = fi /\
    (step config obstacles st s a).1.2 =
    setAnts (depositPheromone st (ax a) (ay a) (depositStrength st a mem))
            (<[id a := mem]> (ants st)).
Proof.
  intros Hmem Hfood Hd. rewrite step_state. unfold recall. rewrite Hmem.
  unfold Math_random. cbn [mode fst snd].
  match goal with
  | |- context [searchBlock st a ?m ?s0] =>
      pose proof (searchBlock_spec st a m s0) as Hsb;
      destruct (searchBlock st a m s0) as [[f m1] s1]
  end.
  rewrite Hfood in Hsb. cbn [fst snd] in Hsb. subst m1. cbn [mode].
  match goal with
  | |- context [returnBlock st config a ?m s1] =>
      destruct (returnBlock_away st config a m s1 Hd) as [H1 H2];
      destruct (returnBlock st config a m s1) as [[[f' m'] st'] s'];
      exists m
  end.
  cbn [fst snd mode targetFoodIdx] in *. by subst.
Qed.

Lemma sqrt_ge_bound v b : 0 <= b -> b * b <= v -> b <= sqrt v.
Proof.
  intros Hb Hv. rewrite <- (sqrt_square b) by done. apply sqrt_le_1_alt, Hv.
Qed.

Lemma deposit_shaped st x y k m :
  shaped st -> shaped (setAnts (depositPheromone st x y k) m).
Proof.
  intros (H1 & H2 & H3 & H4 & H5 & H6 & H7 & H8). repeat split; try done.
  change (pheromoneGrid (setAnts (depositPheromone st x y k) m))
    with (pheromoneGrid (depositPheromone st x y k)).
  by rewrite depositPheromone_fold, depositFold_length.
Qed.

(** Decide the five offsets of a deposit against a cell index. *)
Ltac miss_offsets :=
  let H := fresh in
  intros ? ? H; cbn [In] in H;
  repeat (destruct H as [H|H]; [injection H as <- <-; lia|]);
  destruct H.

Lemma tick1_state :
  shaped tick1.1.2 /\ around tick1.1.2 0 /\ tickCount tick1.1.2 = 1%Z /\
  exists mem, ants tick1.1.2 !! 0%Z = Some mem /\ mode mem = Return /\
              targetFoodIdx mem = 0%Z.
Proof.
  unfold tick1, tick. rewrite loop_single, maintain_new.
  set (st0 := evaporate (setTickCount (init new longWorld) 1)).
  assert (Hs : shaped st0) by apply evaporate_shaped, init_shaped.
  assert (Ha : around st0 0).
  { rewrite <- evaporateCell_0. apply evaporate_around, init_around. }
  set (a := agentAt 0 850 4.8).
  assert (Hfood : findFood a (foodSources st0) 0 = Some 0%Z).
  { change (foodSources st0) with (foodSources (init new longWorld)).
    cbn [findFood init foodSources].
    replace (Rltb _ _) with true; [done|]. symmetry. apply Rltb_true.
    unfold dist. simpl. apply sqrt_lt_bound; lra. }
  assert (Hnest : 15 <= dist (posA a) (nest st0)).
  { unfold dist. simpl. apply sqrt_ge_bound; lra. }
  destruct (step_finding longWorld [] st0 (fun _ => 0) a 0 eq_refl Hfood Hnest)
    as (mem & Hmode & Hidx & ->).
  split; [by apply deposit_shaped|]. split; [|split; [done|]].
  - destruct Hs as (_ & Hcols & _ & Hcs & _). destruct Ha as [Ha1 Ha2].
    unfold around.
    change (pheromoneGrid (setAnts ?s ?m)) with (pheromoneGrid s).
    rewrite depositPheromone_fold, Hcs.
    change (ax a) with 850. change (ay a) with 4.8.
    rewrite floor_106, floor_4_8. split.
    + rewrite depositFold_miss; [done|]. rewrite Hcols. miss_offsets.
    + rewrite Forall_forall in *. intros i Hi. rewrite depositFold_miss.
      * by apply Ha2.
      * rewrite Hcols. apply list_elem_of_In in Hi. cbn [In] in Hi.
        repeat (destruct Hi as [<-|Hi]; [miss_offsets|]). destruct Hi.
  - exists mem. change (id a) with 0%Z. simpl. by rewrite lookup_insert_eq.
Qed.

Lemma maintain_evaporates st cfg n :
  initialized st = true -> tickCount st = n ->
  (Z.rem (n + 1) 4 =? 0)%Z = false ->
  maintain st cfg = evaporate (setTickCount st (n + 1)).
Proof.
  intros Hi <- Hrem. rewrite maintain_initialised by done. cbv zeta.
  change (tickCount (evaporate (setTickCount st (tickCount st + 1))))
    with (tickCount st + 1)%Z.
  by rewrite Hrem.
Qed.

Lemma tick2_state :
  shaped tick2.1.2 /\ around tick2.1.2 0.15 /\ tickCount tick2.1.2 = 2%Z.
Proof.
  destruct tick1_state as (Hs1 & Ha1 & Ht1 & mem & Hmem & Hmode & Hidx).
  unfold tick2, tick. rewrite loop_single.
  rewrite (maintain_evaporates _ _ 1) by (done || apply Hs1).
  set (st := evaporate (setTickCount tick1.1.2 (1 + 1))).
  assert (Hs : shaped st) by by apply evaporate_shaped.
  assert (Ha : around st 0).
  { rewrite <- evaporateCell_0. by apply evaporate_around. }
  set (a := agentAt 0 200 12).
  destruct Hs as (Hinit & Hcols & Hrows & Hcs & Hlen & Hfoods & Hnx & Hny).
  assert (Hnest : 15 <= dist (posA a) (nest st)).
  { unfold dist, nest. rewrite Hnx, Hny. simpl.
    apply sqrt_ge_bound; lra. }
  assert (Hk : depositStrength st a mem = 0.5).
  { unfold depositStrength. rewrite Hidx, Hfoods.
    change (foodSources (init new longWorld) !! Z.to_nat 0)
      with (Some {| fx := worldWidth longWorld * 0.85;
                    fy := worldHeight longWorld * 0.2; fradius := 25 |}).
    change (0 <=? 0)%Z with true. cbv iota.
    apply Rmax_left.
    assert (650 <= dist (posA a)
              (posF {| fx := worldWidth longWorld * 0.85;
                       fy := worldHeight longWorld * 0.2; fradius := 25 |})).
    { unfold dist. simpl. apply sqrt_ge_bound; lra. }
    lra. }
  rewrite (step_returning longWorld [] st tick1.2 a mem Hmem Hmode Hnest).
  rewrite Hk. split; [|split; [|done]].
  - apply deposit_shaped. by repeat split.
  - destruct Ha as [Ha1' Ha2]. unfold around.
    change (pheromoneGrid (setAnts ?s ?m)) with (pheromoneGrid s).
    rewrite depositPheromone_fold, Hcs.
    change (ax a) with 200. change (ay a) with 12.
    rewrite floor_25, floor_1. split.
    + rewrite (depositFold_side st 25 1 0.5 151 [(0, 0)%Z] 1 0
                 [(-1, 0); (0, 1); (0, -1)]%Z _ 0).
      * f_equal. unfold Rmin. destruct (Rle_dec _ _); lra.
      * rewrite Hcols. miss_offsets.
      * unfold inGrid. by rewrite Hcols, Hrows.
      * done.
      * by rewrite Hcols.
      * done.
    + rewrite Forall_forall in *. intros i Hi. rewrite depositFold_miss.
      * by apply Ha2.
      * rewrite Hcols. apply list_elem_of_In in Hi. cbn [In] in Hi.
        repeat (destruct Hi as [<-|Hi]; [miss_offsets|]). destruct Hi.
Qed.

Lemma tick3_state :
  shaped tick3.1.2 /\ around tick3.1.2 (0.15 * 0.993) /\
  tickCount tick3.1.2 = 3%Z.
Proof.
  destruct tick2_state as (Hs & Ha & Ht).
  unfold tick3, tick. cbn [loop fst snd].
  rewrite (maintain_evaporates _ _ 2) by (done || apply Hs).
  split; [by apply evaporate_shaped|]. split; [|done].
  rewrite <- (evaporateCell_keep 0.15) by lra. by apply evaporate_around.
Qed.

Lemma maintain_diffuses st cfg n :
  initialized st = true -> tickCount st = n ->
  (Z.rem (n + 1) 4 =? 0)%Z = true ->
  maintain st cfg = diffusePheromones (evaporate (setTickCount st (n + 1))).
Proof.
  intros Hi <- Hrem. rewrite maintain_initialised by done. cbv zeta.
  change (tickCount (evaporate (setTickCount st (tickCount st + 1))))
    with (tickCount st + 1)%Z.
  by rewrite Hrem.
Qed.

(** The diffused value of cell (27, 1) when only its left neighbour
    (26, 1) holds pheromone. *)
Lemma diffuseCell_around st v :
  shaped st -> around st v -> diffuseCell st 27 1 = v * 0.05.
Proof.
  intros (Hinit & Hcols & Hrows & Hcs & Hlen & Hfoods & Hnx & Hny) [Hv H0].
  rewrite Forall_forall in H0.
  assert (Hz : forall i, In i [26; 27; 28; 152; 153; 276; 277; 278]%nat ->
                 pheromoneGrid st !! i = Some 0).
  { intros i Hi. by apply H0, list_elem_of_In. }
  unfold diffuseCell, inGrid, gridAt. rewrite Hcols, Hrows.
  change (upto (-1) 1) with [-1; 0; 1]%Z.
  simpl.
  repeat match goal with
  | |- context [Z.to_nat ?e] =>
      let r := eval vm_compute in (Z.to_nat e) in change (Z.to_nat e) with r
  end.
  rewrite Hv, !Hz by (cbn [In]; tauto). cbn [default].
  replace (0.6 + 0.05 + 0.05 + 0.05 + 0.05 + 0.05 + 0.05 + 0.05 + 0.05)
    with 1 by lra.
  unfold Rdiv, Datatypes.id. rewrite Rinv_1. lra.
Qed.

(** C6 (as stated) fails: a new instance in the 1000 x 24 world sees ant 0
    on the first food source (tick 1), then far from it at (200, 12), where
    the ant deposits strength 0.5 and its side cells get 0.15 (tick 2);
    two evaporations later the diffusion of tick 4 gives cell (27, 1),
    index 152, the value 0.15 * 0.993 * 0.993 * 0.05, which is nonzero and
    below 0.01. *)
Lemma diffusion_leaves_value_below_threshold :
  reachable tick4.1.2 /\ tickCount tick4.1.2 = 4%Z /\
  pheromoneGrid tick4.1.2 !! 152%nat = Some (0.15 * 0.993 * 0.993 * 0.05) /\
  0 < 0.15 * 0.993 * 0.993 * 0.05 < 0.01 /\
  ~ snapped (pheromoneGrid tick4.1.2).
Proof.
  assert (Hreach : reachable tick4.1.2).
  { do 4 apply reachable_tick. apply reachable_new. }
  destruct tick3_state as (Hs & Ha & Ht).
  assert (Hgrid : pheromoneGrid tick4.1.2 !! 152%nat
                  = Some (0.15 * 0.993 * 0.993 * 0.05)).
  { unfold tick4, tick. cbn [loop fst snd].
    rewrite (maintain_diffuses _ _ 3) by (done || apply Hs).
    set (st := evaporate (setTickCount tick3.1.2 (3 + 1))).
    assert (Hs' : shaped st) by by apply evaporate_shaped.
    assert (Ha' : around st (0.15 * 0.993 * 0.993)).
    { rewrite <- (evaporateCell_keep (0.15 * 0.993)) by lra.
      by apply evaporate_around. }
    rewrite <- (diffuseCell_around st _ Hs' Ha').
    destruct Hs' as (_ & Hcols & Hrows & _ & Hlen & _).
    replace 152%nat with (Z.to_nat (1 * gridCols st + 27))
      by (by rewrite Hcols).
    apply diffusePheromones_lookup; rewrite ?Hcols, ?Hrows, ?Hlen; lia. }
  split; [done|]. split.
  { unfold tick4, tick. cbn [loop fst snd].
    by rewrite (maintain_diffuses _ _ 3) by (done || apply Hs). }
  split; [done|]. split; [lra|].
  intros Hsn. unfold snapped in Hsn.
  apply (Forall_lookup_1 _ _ _ _ Hsn) in Hgrid. lra.
Qed.
End FourTicks.

(** ** Facts about vector lengths *)

Section VectorFacts.

Lemma sq_sum_nonneg d e : 0 <= d * d + e * e.
Proof. nra. Qed.



End VectorFacts.

(** ** Spatial hash: buckets and multiplicity *)

Section SpatialHashMore.
Import SpatialHash.

(** X7: the key of a cell determines the cell: two cells have the same key
    only when their coordinates agree. *)
Theorem cell_key_injective cx cy cx' cy' :
  key cx cy = key cx' cy' <-> cx = cx' /\ cy = cy'.
Proof.
  split; [apply key_inj|]. by intros [-> ->].
Qed.

(** X8: a rebuild discards whatever the index held before, and afterwards
    the cell under a key holds exactly the agents of the population whose
    position falls into that cell, in the order of the population. *)
Theorem rebuild_buckets h old agents k :
  insertAll (insertAll h old) agents = insertAll h agents /\
  cellAt (insertAll h agents) k
  = List.filter (fun a => bool_decide (keyOf h a = k)) agents.
Proof.
  split; [|apply cellAt_insertAll].
  unfold insertAll at 1 3. f_equal. unfold clear.
  by rewrite insertAll_cellSize.
Qed.

(** X9: whatever the radius and the (nonzero) cell size, an agent that
    [queryRadius] returns after a rebuild belongs to the population, does
    not carry the excluded id and lies within the squared radius of the
    query point. *)
Theorem queryRadius_sound h agents x y radius excludeId a :
  cellSize h <> 0 ->
  In a (queryRadius (insertAll h agents) x y radius excludeId) ->
  In a agents /\ id a <> excludeId /\
  (ax a - x) * (ax a - x) + (ay a - y) * (ay a - y) <= radius * radius.
Proof.
  intros _. rewrite queryRadius_cells.
  destruct (cellCoords (insertAll h agents) x y) as [cx cy]. cbv zeta.
  intros (dx & Hdx & (dy & Hdy & Hin)%in_flat_map)%in_flat_map.
  apply filter_In in Hin as [Hin Hk].
  rewrite cellAt_insertAll in Hin. apply filter_In in Hin as [Hin _].
  split; [done|]. unfold keeps in Hk.
  destruct (Z.eq_dec (id a) excludeId); [discriminate|].
  split; [done|]. by apply Rleb_true in Hk.
Qed.

Lemma queryRadius_sound_witness :
  cellSize (new 50) <> 0 /\
  In (agentAt 0 0 0) (queryRadius (insertAll (new 50) [agentAt 0 0 0]) 0 0 0 (-1)) /\
  In (agentAt 0 0 0) [agentAt 0 0 0] /\ id (agentAt 0 0 0) <> (-1)%Z /\
  (ax (agentAt 0 0 0) - 0) * (ax (agentAt 0 0 0) - 0)
  + (ay (agentAt 0 0 0) - 0) * (ay (agentAt 0 0 0) - 0) <= 0 * 0.
Proof.
  assert (H1 : cellSize (new 50) <> 0) by (simpl; lra).
  assert (H2 : In (agentAt 0 0 0)
                 (queryRadius (insertAll (new 50) [agentAt 0 0 0]) 0 0 0 (-1))).
  { rewrite queryRadius_own_cell.
    - rewrite insertAll_cellSize. simpl cellSize. rewrite floor_0.
      pose proof (insertAll_single 50 (agentAt 0 0 0)) as H.
      unfold keyOf, cellCoords in H. simpl in H. rewrite floor_0 in H.
      rewrite H. simpl. rewrite keeps_origin by lra. by left.
    - rewrite insertAll_cellSize. simpl cellSize.
      apply Math_ceil_unique. simpl. lra. }
  split; [exact H1|]. split; [exact H2|].
  exact (queryRadius_sound (new 50) [agentAt 0 0 0] 0 0 0 (-1) (agentAt 0 0 0) H1 H2).
Defined.


















End SpatialHashMore.

Section WindowBinary64.
Import PrimFloat.

(** Why the window stays in the statement for a radius that is not
    negative: in binary64, with cell size 64 and radius 64, the agent at
    x = 128 passes the distance test of a query at x = 64 - 2^-47 (the
    difference rounds to 64), while its cell, 128 / 64 = 2, is two cells
    away from the cell of the query point, 0 <= x / 64 < 1, and the span
    is 64 / 64 = 1. *)
Lemma edge_agent_outside_window :
  let x := 0x1.fffffffffffffp+5%float in
  Double.near 128 0 x 0 64 = true /\
  (128 / 64 =? 2)%float = true /\
  (0 <=? x / 64)%float = true /\ (x / 64 <? 1)%float = true /\
  (64 / 64 =? 1)%float = true.
Proof. vm_compute. by repeat split. Qed.

End WindowBinary64.

(** ** Analytics: average speed, coverage and the visit grid *)

Section AnalyticsFacts.
Import Analytics AnalyticsSpec.

Lemma div_ge_swap a b c : 0 < b -> c * b <= a -> c <= a / b.
Proof.
  intros Hb H. replace c with (c * b / b) by (field; lra).
  unfold Rdiv. apply Rmult_le_compat_r; [|done].
  left. by apply Rinv_0_lt_compat.
Qed.

(** The number of visited cells among the indices [idxs]. *)
Lemma count_visited_range (g : list Z) idxs : forall acc : Z,
  (acc <= fold_left (fun visited i =>
            match g !! Z.to_nat i with
            | Some v => if (0 <? v)%Z then (visited + 1)%Z else visited
            | None => visited
            end) idxs acc <= acc + Z.of_nat (length idxs))%Z.
Proof.
  induction idxs as [|i l IH]; intros acc; cbn [fold_left length]; [lia|].
  destruct (g !! Z.to_nat i) as [v|]; [destruct (0 <? v)%Z|];
    match goal with |- context [fold_left _ l ?a] => specialize (IH a) end; lia.
Qed.

Lemma count_visited_mono (g g' : list Z) idxs
    (Hg : forall i v, g !! i = Some v -> exists v', g' !! i = Some v' /\ (v <= v')%Z) :
  forall acc acc' : Z,
  (acc <= acc')%Z ->
  (fold_left (fun visited i =>
      match g !! Z.to_nat i with
      | Some v => if (0 <? v)%Z then (visited + 1)%Z else visited
      | None => visited
      end) idxs acc
   <= fold_left (fun visited i =>
      match g' !! Z.to_nat i with
      | Some v => if (0 <? v)%Z then (visited + 1)%Z else visited
      | None => visited
      end) idxs acc')%Z.
Proof.
  induction idxs as [|i l IH]; intros acc acc' Hacc; cbn [fold_left]; [done|].
  apply IH. destruct (g !! Z.to_nat i) as [v|] eqn:E.
  - destruct (Hg _ _ E) as (v' & -> & Hv).
    destruct (0 <? v)%Z eqn:E1, (0 <? v')%Z eqn:E2; lia.
  - destruct (g' !! Z.to_nat i) as [v'|]; [destruct (0 <? v')%Z|]; lia.
Qed.

Lemma length_upto lo hi : (lo <= hi + 1)%Z -> Z.of_nat (length (upto lo hi)) = (hi - lo + 1)%Z.
Proof. intros H. unfold upto. rewrite length_seqZ. lia. Qed.

(** X12: over a grid with at least one cell, the coverage is a percentage:
    it lies between 0 and 100. *)
Theorem computeCoverage_percentage visitGrid gridCols gridRows :
  (0 < gridCols * gridRows)%Z ->
  0 <= computeCoverage visitGrid gridCols gridRows <= 100.
Proof.
  intros Htot. unfold computeCoverage. cbv zeta.
  pose proof (count_visited_range visitGrid (upto 0 (gridCols * gridRows - 1)) 0) as Hc.
  rewrite length_upto in Hc by lia.
  set (visited := fold_left _ _ _) in *. clearbody visited.
  assert (Ht : 0 < IZR (gridCols * gridRows)) by (by apply IZR_lt).
  assert (H0 : 0 <= IZR visited) by (apply IZR_le; lia).
  assert (H1 : IZR visited <= IZR (gridCols * gridRows)) by (apply IZR_le; lia).
  set (t := IZR (gridCols * gridRows)) in *. clearbody t.
  set (v := IZR visited) in *. clearbody v.
  assert (0 <= v / t) by (apply div_ge_swap; [done|]; lra).
  assert (v / t <= 1) by (apply div_le_swap; [done|]; lra).
  lra.
Qed.

Lemma computeCoverage_percentage_witness :
  (0 < 2 * 1)%Z /\ 0 <= computeCoverage [3; 0]%Z 2 1 <= 100.
Proof.
  split; [lia|]. apply (computeCoverage_percentage [3; 0]%Z 2 1). lia.
Defined.

(** One agent's visit: the grid keeps its length and stays 16-bit, no
    counter decreases, one counter at most grows (by 1), and the agent's
    own cell, when the index is in range, is positive afterwards. *)
Lemma visit_spec cs cols g a :
  u16 g ->
  let g' := visit cs cols g a in
  length g' = length g /\ u16 g' /\
  (forall i v, g !! i = Some v ->
     exists v', g' !! i = Some v' /\ (v <= v' <= v + 1)%Z) /\
  ((0 <= visitIndex cs cols a < Z.of_nat (length g))%Z ->
   exists v', g' !! Z.to_nat (visitIndex cs cols a) = Some v' /\ (0 < v')%Z).
Proof.
  intros Hu. cbv zeta. unfold visit. cbv zeta.
  change (Math_floor (ay a / cs) * cols + Math_floor (ax a / cs))%Z
    with (visitIndex cs cols a).
  set (idx := visitIndex cs cols a).
  assert (Hsame : forall i v, g !! i = Some v ->
            exists v', g !! i = Some v' /\ (v <= v' <= v + 1)%Z).
  { intros i v Hv. exists v. split; [done|lia]. }
  destruct ((0 <=? idx)%Z && (idx <? Z.of_nat (length g))%Z) eqn:Hin.
  2:{ split; [done|]. split; [done|]. split; [done|]. intros Hr.
      apply andb_false_iff in Hin as [Hin|Hin]; lia. }
  apply andb_true_iff in Hin as [H0 H1].
  apply Z.leb_le in H0. apply Z.ltb_lt in H1.
  destruct (lookup_lt_is_Some_2 g (Z.to_nat idx)) as [v Hv]; [lia|].
  rewrite Hv.
  assert (Hv16 : (0 <= v <= 65535)%Z).
  { unfold u16 in Hu. rewrite Forall_lookup in Hu. by apply (Hu _ _ Hv). }
  destruct (v <? 65535)%Z eqn:Hlt.
  - apply Z.ltb_lt in Hlt. rewrite Z.mod_small by lia.
    split; [by rewrite length_insert|]. split.
    { unfold u16. apply Forall_insert; [done|lia]. }
    split.
    + intros i w Hw. destruct (decide (i = Z.to_nat idx)) as [->|Hne].
      * rewrite list_lookup_insert_eq by lia. exists (v + 1)%Z.
        rewrite Hv in Hw. injection Hw as <-. split; [done|lia].
      * rewrite list_lookup_insert_ne by done. exists w. split; [done|lia].
    + intros _. exists (v + 1)%Z. rewrite list_lookup_insert_eq by lia.
      split; [done|lia].
  - apply Z.ltb_ge in Hlt. split; [done|]. split; [done|]. split; [done|].
    intros _. exists v. split; [done|lia].
Qed.

Lemma updateVisitGrid_spec agents visitGrid cellSize gridCols :
  u16 visitGrid ->
  let g' := updateVisitGrid agents visitGrid cellSize gridCols in
  length g' = length visitGrid /\ u16 g' /\
  (forall i v, visitGrid !! i = Some v ->
     exists v', g' !! i = Some v' /\ (v <= v' <= v + Z.of_nat (length agents))%Z) /\
  (forall a, In a agents ->
     (0 <= visitIndex cellSize gridCols a < Z.of_nat (length visitGrid))%Z ->
     exists v', g' !! Z.to_nat (visitIndex cellSize gridCols a) = Some v' /\ (0 < v')%Z).
Proof.
  cbv zeta. unfold updateVisitGrid. revert visitGrid.
  induction agents as [|a l IH]; intros g Hu; cbn [fold_left].
  - split; [done|]. split; [done|]. split.
    + intros i v Hv. exists v. split; [done|]. simpl. lia.
    + intros a [].
  - destruct (visit_spec cellSize gridCols g a Hu) as (Hl1 & Hu1 & Hm1 & Hk1).
    destruct (IH _ Hu1) as (Hl2 & Hu2 & Hm2 & Hk2).
    split; [congruence|]. split; [done|]. split.
    + intros i v Hv. destruct (Hm1 _ _ Hv) as (v1 & Hv1 & Hb1).
      destruct (Hm2 _ _ Hv1) as (v2 & Hv2 & Hb2).
      exists v2. split; [done|]. change (length (a :: l)) with (S (length l)). lia.
    + intros b [<-|Hb] Hr.
      * destruct (Hk1 Hr) as (v1 & Hv1 & Hp1).
        destruct (Hm2 _ _ Hv1) as (v2 & Hv2 & Hb2).
        exists v2. split; [done|lia].
      * apply Hk2; [done|]. by rewrite Hl1.
Qed.

(** X13: for a cell size other than 0, updating a 16-bit visit grid keeps
    its length and keeps it 16-bit (the counters saturate at 65535 and
    never wrap); no counter decreases and none grows by more than the
    number of agents; and the cell of every agent whose index is in range
    is positive afterwards. *)
Theorem updateVisitGrid_counts agents visitGrid cellSize gridCols :
  cellSize <> 0 -> u16 visitGrid ->
  let g' := updateVisitGrid agents visitGrid cellSize gridCols in
  length g' = length visitGrid /\ u16 g' /\
  (forall i v, visitGrid !! i = Some v ->
     exists v', g' !! i = Some v' /\
                (v <= v' <= v + Z.of_nat (length agents))%Z) /\
  (forall a, In a agents ->
     (0 <= visitIndex cellSize gridCols a < Z.of_nat (length visitGrid))%Z ->
     exists v', g' !! Z.to_nat (visitIndex cellSize gridCols a) = Some v' /\
                (0 < v')%Z).
Proof. intros _. apply updateVisitGrid_spec. Qed.

Lemma updateVisitGrid_counts_witness :
  20 <> 0 /\ u16 [0; 0]%Z /\
  let g' := updateVisitGrid [agentAt 0 30 0] [0; 0]%Z 20 2 in
  length g' = length [0; 0]%Z /\ u16 g' /\
  (forall i v, [0; 0]%Z !! i = Some v ->
     exists v', g' !! i = Some v' /\
                (v <= v' <= v + Z.of_nat (length [agentAt 0 30 0]))%Z) /\
  (forall a, In a [agentAt 0 30 0] ->
     (0 <= visitIndex 20 2 a < Z.of_nat (length [0; 0]%Z))%Z ->
     exists v', g' !! Z.to_nat (visitIndex 20 2 a) = Some v' /\ (0 < v')%Z).
Proof.
  assert (H0 : 20 <> 0) by lra.
  assert (H : u16 [0; 0]%Z) by (repeat constructor; lia).
  split; [exact H0|]. split; [exact H|].
  exact (updateVisitGrid_counts [agentAt 0 30 0] [0; 0]%Z 20 2 H0 H).
Defined.

(** X14: an update of the visit grid never lowers the coverage. *)
Theorem coverage_never_decreases agents visitGrid cellSize cols gridCols gridRows :
  u16 visitGrid -> (0 < gridCols * gridRows)%Z ->
  computeCoverage visitGrid gridCols gridRows
  <= computeCoverage (updateVisitGrid agents visitGrid cellSize cols) gridCols gridRows.
Proof.
  intros Hu Htot. unfold computeCoverage. cbv zeta.
  destruct (updateVisitGrid_spec agents visitGrid cellSize cols Hu) as (_ & _ & Hm & _).
  assert (Hm' : forall i v, visitGrid !! i = Some v ->
            exists v', updateVisitGrid agents visitGrid cellSize cols !! i = Some v'
                       /\ (v <= v')%Z).
  { intros i v Hv. destruct (Hm i v Hv) as (v' & Hv' & Hb). exists v'. split; [done|lia]. }
  pose proof (count_visited_mono visitGrid
                (updateVisitGrid agents visitGrid cellSize cols)
                (upto 0 (gridCols * gridRows - 1)) Hm' 0 0 ltac:(lia)) as Hc.
  set (v := fold_left _ _ _) in *. clearbody v.
  set (v' := fold_left _ _ _) in *. clearbody v'.
  assert (Ht : 0 < IZR (gridCols * gridRows)) by (by apply IZR_lt).
  apply IZR_le in Hc.
  set (t := IZR (gridCols * gridRows)) in *. clearbody t.
  apply Rmult_le_compat_r; [lra|].
  unfold Rdiv. apply Rmult_le_compat_r; [|done].
  left. by apply Rinv_0_lt_compat.
Qed.

Lemma coverage_never_decreases_witness :
  u16 [0; 0]%Z /\ (0 < 2 * 1)%Z /\
  computeCoverage [0; 0]%Z 2 1
  <= computeCoverage (updateVisitGrid [agentAt 0 30 0] [0; 0]%Z 20 2) 2 1.
Proof.
  assert (H : u16 [0; 0]%Z) by (repeat constructor; lia).
  split; [exact H|]. split; [lia|].
  apply (coverage_never_decreases [agentAt 0 30 0] [0; 0]%Z 20 2 2 1 H). lia.
Defined.
End AnalyticsFacts.

(** ** Analytics: the cluster count *)

Section BfsFacts.
Import Clusters ClusterSearch.

Lemma bfsLoop_empty agents r2 visited queue :
  pop queue = None -> bfsLoop agents r2 visited queue = visited.
Proof.
  intros H. rewrite bfsLoop_equation_1.
  destruct (inspect (pop queue)) as [o e].
  assert (o = None) as -> by congruence. by simp bfsLoop.
Qed.

Lemma bfsLoop_step agents r2 visited queue idx rest a :
  pop queue = Some (idx, rest) -> agents !! idx = Some a ->
  bfsLoop agents r2 visited queue
  = bfsLoop agents r2 (scan agents r2 a visited rest).1
                      (scan agents r2 a visited rest).2.
Proof.
  intros H Ha. rewrite bfsLoop_equation_1.
  destruct (inspect (pop queue)) as [o e].
  assert (o = Some (idx, rest)) as -> by congruence. simp bfsLoop.
  destruct (inspect (agents !! idx)) as [o' e'].
  assert (o' = Some a) as -> by congruence. by simp bfsLoop.
Qed.
End BfsFacts.

Section Components.
Import Clusters ClusterSearch ClusterSpec.
Context (agents : list Agent) (r2 : R).

Lemma near_sym a b : near r2 a b = near r2 b a.
Proof.
  unfold near. cbv zeta. f_equal. ring.
Qed.

Lemma linked_sym i j : linked agents r2 i j -> linked agents r2 j i.
Proof.
  intros (a & b & Ha & Hb & Hn). exists b, a. by rewrite near_sym.
Qed.

Lemma connected_sym i j : connected agents r2 i j -> connected agents r2 j i.
Proof.
  intros H. induction H as [|i k j Hik _ IH]; [apply rtc_refl|].
  eapply rtc_r; [exact IH|]. by apply linked_sym.
Qed.

Lemma linked_lt i j :
  linked agents r2 i j -> (i < length agents)%nat /\ (j < length agents)%nat.
Proof.
  intros (a & b & Ha & Hb & _). split; by eapply lookup_lt_Some.
Qed.

Lemma scan_spec idx a v rest :
  agents !! idx = Some a ->
  let r := scan agents r2 a v rest in
  v ⊆ r.1 /\
  (forall k, linked agents r2 idx k -> k ∈ r.1) /\
  (forall j, j ∈ r.1 -> j ∈ v \/ ((j ∉ v) /\ linked agents r2 idx j /\ j ∈ r.2)) /\
  (forall j, j ∈ r.2 ->
     j ∈ rest \/ (j ∈ r.1 /\ (j ∉ v) /\ (j < length agents)%nat)) /\
  (forall j, j ∈ rest -> j ∈ r.2).
Proof.
  intros Ha. cbv zeta. rewrite scan_eq. cbn [fst snd].
  set (l := seq 0 (length agents)).
  assert (Hfresh : forall j, j ∈ fresh agents r2 a v l <->
            (j ∉ v) /\ linked agents r2 idx j).
  { intros j. rewrite elem_of_fresh. split.
    - intros (_ & Hv & b & Hb & Hn). split; [done|]. by exists a, b.
    - intros (Hv & a' & b & Ha' & Hb & Hn). split.
      + subst l. apply elem_of_seq. apply lookup_lt_Some in Hb. lia.
      + split; [done|]. exists b. split; [done|]. congruence. }
  split; [apply union_subseteq_r|]. split.
  { intros k Hk. destruct (decide (k ∈ v)) as [Hv|Hv].
    - by apply elem_of_union_r.
    - apply elem_of_union_l, elem_of_list_to_set, Hfresh. done. }
  split.
  { intros j [Hj%elem_of_list_to_set|Hj]%elem_of_union; [|by left].
    right. apply Hfresh in Hj as Hj'. destruct Hj'. split; [done|]. split; [done|].
    apply elem_of_app. by right. }
  split.
  { intros j [Hj|Hj]%elem_of_app; [by left|]. right.
    apply Hfresh in Hj as Hj'. destruct Hj' as [Hv Hl]. split.
    - by apply elem_of_union_l, elem_of_list_to_set.
    - split; [done|]. by apply linked_lt in Hl as []. }
  intros j Hj. apply elem_of_app. by left.
Qed.

Lemma pop_Some queue idx rest :
  pop queue = Some (idx, rest) <-> queue = rest ++ [idx].
Proof.
  unfold pop. split.
  - destruct (last queue) as [i|] eqn:E; [|done].
    intros [= <- <-]. apply last_Some in E as [l' ->]. by rewrite removelast_last.
  - intros ->. by rewrite last_snoc, removelast_last.
Qed.

Lemma pop_None queue : pop queue = None <-> queue = [].
Proof.
  unfold pop. split.
  - destruct (last queue) as [i|] eqn:E; [done|]. intros _. by apply last_None.
  - by intros ->.
Qed.

(** The loop of [bfs], started inside the component of [start] and
    outside the set [v0]: what it returns. *)
Lemma bfsLoop_inv (v0 : gset nat) (start : nat) : forall m v q,
  (unvisited (length agents) v + length q = m)%nat ->
  v0 ⊆ v ->
  (forall j, j ∈ q -> j ∈ v /\ (j ∉ v0) /\ (j < length agents)%nat) ->
  (forall j, j ∈ v -> j ∉ v0 -> connected agents r2 start j) ->
  (forall j, j ∈ v -> j ∉ v0 ->
     j ∈ q \/ forall k, linked agents r2 j k -> k ∈ v) ->
  let res := bfsLoop agents r2 v q in
  v ⊆ res /\
  (forall j, j ∈ res -> j ∉ v0 ->
     connected agents r2 start j /\ forall k, linked agents r2 j k -> k ∈ res).
Proof.
  intros m. induction m as [m IH] using lt_wf_ind.
  intros v q Hm Hsub Hq Hconn Hdone. cbv zeta.
  destruct (pop q) as [[idx rest]|] eqn:Hpop.
  - apply pop_Some in Hpop as Hqeq.
    destruct (Hq idx) as (Hiv & Hi0 & Hilt); [subst q; apply elem_of_app; right; by left|].
    destruct (lookup_lt_is_Some_2 agents idx Hilt) as [a Ha].
    rewrite (bfsLoop_step _ _ _ _ _ _ _ Hpop Ha).
    destruct (scan_spec idx a v rest Ha) as (S1 & S2 & S3 & S4 & S5).
    pose proof (scan_measure agents r2 a v rest) as Hmeas.
    destruct (scan agents r2 a v rest) as [v' q'] eqn:Escan. cbn [fst snd] in *.
    destruct (IH (unvisited (length agents) v' + length q')%nat) with (v := v') (q := q')
      as [R1 R2].
    + rewrite Hmeas, <- Hm. subst q. rewrite length_app. simpl. lia.
    + reflexivity.
    + by etrans.
    + intros j Hj. destruct (S4 j Hj) as [Hr|(H1 & H2 & H3)].
      * destruct (Hq j) as (? & ? & ?); [subst q; apply elem_of_app; by left|].
        split; [by apply S1|done].
      * split; [done|]. split; [|done]. intros H0. apply H2. by apply Hsub.
    + intros j Hj Hj0. destruct (S3 j Hj) as [Hv|(Hv & Hl & _)].
      * by apply Hconn.
      * eapply rtc_r; [by apply Hconn|done].
    + intros j Hj Hj0. destruct (S3 j Hj) as [Hv|(Hv & Hl & Hjq)]; [|by left].
      destruct (Hdone j Hv Hj0) as [Hjq|Hd].
      * subst q. apply elem_of_app in Hjq as [Hjr|Hji].
        -- left. by apply S5.
        -- apply list_elem_of_singleton in Hji as ->. by right.
      * right. intros k Hk. by apply S1, Hd.
    + split; [by etrans|done].
  - apply pop_None in Hpop as ->. rewrite bfsLoop_empty by done.
    split; [done|]. intros j Hj Hj0. split; [by apply Hconn|].
    destruct (Hdone j Hj Hj0) as [Hjq|Hd]; [by apply elem_of_nil in Hjq|done].
Qed.

(** [bfs] from an unvisited index adds its connected component to a
    closed set, and the result is closed again. *)
Lemma bfs_spec v0 start :
  closed agents r2 v0 -> start ∉ v0 -> (start < length agents)%nat ->
  (forall j, j ∈ bfs agents r2 v0 start <-> j ∈ v0 \/ connected agents r2 start j) /\
  closed agents r2 (bfs agents r2 v0 start).
Proof.
  intros Hcl Hs Hlt. unfold bfs.
  destruct (bfsLoop_inv v0 start _ ({[start]} ∪ v0) [start] eq_refl) as [R1 R2].
  - apply union_subseteq_r.
  - intros j Hj%list_elem_of_singleton. subst j.
    split; [by apply elem_of_union_l, elem_of_singleton|done].
  - intros j [Hj%elem_of_singleton|Hj]%elem_of_union Hj0; [|done].
    subst j. apply rtc_refl.
  - intros j [Hj%elem_of_singleton|Hj]%elem_of_union Hj0; [|done].
    subst j. left. by apply list_elem_of_singleton.
  - set (res := bfsLoop agents r2 ({[start]} ∪ v0) [start]) in *.
    assert (Hclosed : closed agents r2 res).
    { intros j k Hj Hl. destruct (decide (j ∈ v0)) as [H0|H0].
      - apply R1, elem_of_union_r. by apply (Hcl j k).
      - by apply (R2 j Hj H0). }
    split; [|done]. intros j. split.
    + intros Hj. destruct (decide (j ∈ v0)) as [H0|H0]; [by left|].
      right. by apply (R2 j Hj H0).
    + intros [H0|Hc]; [by apply R1, elem_of_union_r|].
      unfold connected in Hc. revert j Hc. apply rtc_ind_r.
      * by apply R1, elem_of_union_l, elem_of_singleton.
      * intros k j _ Hkj Hk. by apply (Hclosed k j).
Qed.
End Components.

Section Count.
Import Clusters ClusterSearch ClusterSpec.
Context (agents : list Agent) (r2 : R).

(** What the outer loop has established before index [i]: [visited] is
    the union of the components of the representatives found so far. *)
Definition found (i : nat) (visited : gset nat) (reps : list nat) : Prop :=
  closed agents r2 visited /\
  (forall j, j ∈ visited <-> exists r, r ∈ reps /\ connected agents r2 r j) /\
  (forall j, (j < i)%nat -> j ∈ visited) /\
  NoDup reps /\
  (forall r, r ∈ reps -> (r < length agents)%nat) /\
  (forall r r', r ∈ reps -> r' ∈ reps -> connected agents r2 r r' -> r = r').

Lemma found_skip i visited reps :
  found i visited reps -> i ∈ visited -> found (S i) visited reps.
Proof.
  intros (H1 & H2 & H3 & H4 & H5 & H6) Hi.
  split; [done|]. split; [done|]. split; [|done].
  intros j Hj. destruct (decide (j = i)) as [->|]; [done|]. apply H3. lia.
Qed.

Lemma found_bfs i visited reps :
  found i visited reps -> i ∉ visited -> (i < length agents)%nat ->
  found (S i) (bfs agents r2 visited i) (i :: reps).
Proof.
  intros (H1 & H2 & H3 & H4 & H5 & H6) Hi Hlt.
  destruct (bfs_spec agents r2 visited i H1 Hi Hlt) as [B1 B2].
  assert (Hrep : forall r, r ∈ reps -> r ∈ visited).
  { intros r Hr. apply H2. exists r. split; [done|apply rtc_refl]. }
  assert (Hnew : forall r, r ∈ reps -> ~ connected agents r2 r i).
  { intros r Hr Hc. apply Hi, H2. by exists r. }
  split; [done|]. split.
  { intros j. rewrite B1, H2. split.
    - intros [(r & Hr & Hc)|Hc].
      + exists r. split; [by right|done].
      + exists i. split; [by left|done].
    - intros (r & [->|Hr]%elem_of_cons & Hc); [by right|]. left. by exists r. }
  split.
  { intros j Hj. apply B1. destruct (decide (j = i)) as [->|].
    - right. apply rtc_refl.
    - left. apply H3. lia. }
  split.
  { apply NoDup_cons. split; [|done]. intros Hin. by apply Hi, Hrep. }
  split.
  { intros r [->|Hr]%elem_of_cons; [done|by apply H5]. }
  intros r r' [->|Hr]%elem_of_cons [->|Hr']%elem_of_cons Hc; [done| | |by apply H6].
  - exfalso. apply (Hnew r' Hr'). by apply connected_sym.
  - exfalso. by apply (Hnew r Hr).
Qed.

Lemma outer_loop k : forall s visited clusters reps,
  (s + k = length agents)%nat ->
  found s visited reps -> length reps = clusters ->
  exists reps',
    found (length agents)
      (fold_left (fun '(visited, clusters) i =>
         if bool_decide (i ∈ visited) then (visited, clusters)
         else (bfs agents r2 visited i, S clusters))
         (seq s k) (visited, clusters)).1 reps' /\
    length reps'
    = (fold_left (fun '(visited, clusters) i =>
         if bool_decide (i ∈ visited) then (visited, clusters)
         else (bfs agents r2 visited i, S clusters))
         (seq s k) (visited, clusters)).2.
Proof.
  induction k as [|k IH]; intros s visited clusters reps Hs Hf Hl.
  - simpl. exists reps. replace (length agents) with s by lia. done.
  - cbn [seq fold_left]. case_bool_decide as Hv.
    + apply (IH (S s) visited clusters reps); [lia| |done]. by apply found_skip.
    + apply (IH (S s) _ (S clusters) (s :: reps)); [lia| |simpl; lia].
      apply found_bfs; [done..|lia].
Qed.

Lemma found_start : found 0 ∅ [].
Proof.
  split; [intros j k Hj; by apply elem_of_empty in Hj|]. split.
  { intros j. split; [intros Hj; by apply elem_of_empty in Hj|].
    intros (r & Hr & _). by apply elem_of_nil in Hr. }
  split; [intros j Hj; lia|]. split; [apply NoDup_nil_2|].
  split; intros r; [|intros r']; intros Hr; by apply elem_of_nil in Hr.
Qed.
End Count.

Section ClusterCountFacts.
Import Clusters ClusterSearch ClusterSpec.

(** The representatives behind the count: one index per component. *)
Lemma cluster_representatives agents radius :
  exists reps : list nat,
    length reps = computeClusterCount agents radius /\
    NoDup reps /\
    (forall r, r ∈ reps -> (r < length agents)%nat) /\
    (forall i, (i < length agents)%nat ->
       exists r, r ∈ reps /\ connected agents (radius * radius) r i) /\
    (forall r r', r ∈ reps -> r' ∈ reps ->
       connected agents (radius * radius) r r' -> r = r').
Proof.
  unfold computeClusterCount. destruct (length agents =? 0)%nat eqn:E.
  - apply Nat.eqb_eq in E. exists []. split; [done|]. split; [apply NoDup_nil_2|].
    split; [intros r Hr; by apply elem_of_nil in Hr|].
    split; [intros i Hi; lia|]. intros r r' Hr. by apply elem_of_nil in Hr.
  - cbv zeta.
    destruct (outer_loop agents (radius * radius) (length agents) 0 ∅ 0 [])
      as (reps & (H1 & H2 & H3 & H4 & H5 & H6) & Hlen);
      [lia|apply found_start|done|].
    exists reps. split; [done|]. split; [done|]. split; [done|]. split; [|done].
    intros i Hi. apply H2, H3, Hi.
Qed.

(** X15: [computeClusterCount] counts the connected components of the
    population under the relation "within [radius] of each other": there
    are that many representatives, pairwise distinct and pairwise
    unconnected, such that every agent is connected to one of them.  The
    count is 0 for an empty population and between 1 and the number of
    agents otherwise. *)
Theorem computeClusterCount_components agents radius :
  (exists reps : list nat,
     length reps = computeClusterCount agents radius /\
     NoDup reps /\
     (forall r, r ∈ reps -> (r < length agents)%nat) /\
     (forall i, (i < length agents)%nat ->
        exists r, r ∈ reps /\ connected agents (radius * radius) r i) /\
     (forall r r', r ∈ reps -> r' ∈ reps ->
        connected agents (radius * radius) r r' -> r = r')) /\
  computeClusterCount [] radius = O /\
  (agents <> [] ->
   (1 <= computeClusterCount agents radius <= length agents)%nat).
Proof.
  split; [apply cluster_representatives|]. split; [reflexivity|].
  intros Hne.
  destruct (cluster_representatives agents radius) as (reps & Hl & Hnd & Hlt & Hall & _).
  rewrite <- Hl. split.
  - destruct agents as [|a l]; [done|].
    destruct (Hall 0%nat) as (r & Hr & _); [simpl; lia|].
    destruct reps; [by apply elem_of_nil in Hr|simpl; lia].
  - assert (Hsub : reps ⊆ seq 0 (length agents)).
    { intros r Hr. apply elem_of_seq. specialize (Hlt r Hr). lia. }
    pose proof (submseteq_length _ _ (NoDup_submseteq _ _ Hnd Hsub)) as Hle.
    by rewrite length_seq in Hle.
Qed.
End ClusterCountFacts.

(** ** Flocking: forces and positions *)

Section BoidsFacts.
Import BoidsAlgorithm.













End BoidsFacts.

(** ** The speed cap: a capped agent, and the cap exceeded *)

Section SpeedCap.





End SpeedCap.

Section SpeedCapBinary64.
Import PrimFloat.


End SpeedCapBinary64.

(** ** Foraging: invariants *)

Section AntMore.
Import AntColonyAlgorithm AntSpec AntInvariant.





(** *** The memory records fit the food list *)

Lemma wellFormed_fresh foods u :
  wellFormed foods {| mode := Search; wanderAngle := u; targetFoodIdx := -1;
                      stepsSearching := 0 |}.
Proof. split; [simpl; lia|done]. Qed.

Lemma searchBlock_wellFormed st a mem s :
  mode mem = Search -> wellFormed (foodSources st) mem ->
  wellFormed (foodSources st) (searchBlock st a mem s).1.2.
Proof.
  intros Hmode [Hsteps Hidx]. rewrite Hmode in Hidx.
  pose proof (searchBlock_spec st a mem s) as Hs.
  pose proof (findFood_spec a (foodSources st) 0) as Hf.
  destruct (findFood a (foodSources st) 0) as [fi|].
  - rewrite Hs. destruct Hf as (n & food & -> & Hl & _).
    split; [simpl; lia|]. simpl. split; [lia|].
    replace (Z.to_nat (0 + Z.of_nat n)) with n by lia. by exists food.
  - cbv zeta in Hs. destruct Hs as (Hm & Ht & Hn).
    split; [lia|]. by rewrite Hm, Hmode, Ht.
Qed.

Lemma returnBlock_wellFormed st config a mem s :
  wellFormed (foodSources st) mem ->
  wellFormed (foodSources st) (returnBlock st config a mem s).1.1.2.
Proof.
  intros Hwf. pose proof (returnBlock_spec st config a mem s) as Hr.
  cbv zeta in Hr. destruct (Rltb _ 15).
  - destruct Hr as (Hm & Ht & Hn). split; [lia|]. by rewrite Hm.
  - by rewrite Hr.
Qed.

Lemma depositPheromone_fields st x y k :
  foodSources (depositPheromone st x y k) = foodSources st /\
  ants (depositPheromone st x y k) = ants st /\
  initialized (depositPheromone st x y k) = initialized st /\
  gridCols (depositPheromone st x y k) = gridCols st /\
  gridRows (depositPheromone st x y k) = gridRows st /\
  cellSize (depositPheromone st x y k) = cellSize st.
Proof. done. Qed.

Lemma depositPheromone_length st x y k :
  length (pheromoneGrid (depositPheromone st x y k)) = length (pheromoneGrid st).
Proof.
  unfold depositPheromone. cbv zeta. rewrite pheromoneGrid_setGrid.
  generalize [(0, 0); (1, 0); (-1, 0); (0, 1); (0, -1)]%Z. intros offsets.
  generalize (pheromoneGrid st).
  induction offsets as [|[dx dy] l IH]; intros g; [done|].
  cbn [fold_left]. rewrite IH. destruct (inGrid st _ _); [|done].
  by rewrite length_insert.
Qed.

(** What one iteration of the agent loop keeps. *)
Lemma step_consistent config obstacles st s a :
  (forall i mem, ants st !! i = Some mem -> wellFormed (foodSources st) mem) ->
  let st' := (step config obstacles st s a).1.2 in
  foodSources st' = foodSources st /\ initialized st' = initialized st /\
  gridCols st' = gridCols st /\ gridRows st' = gridRows st /\
  cellSize st' = cellSize st /\
  length (pheromoneGrid st') = length (pheromoneGrid st) /\
  (forall i mem, ants st' !! i = Some mem -> wellFormed (foodSources st') mem).
Proof.
  intros Hwf. cbv zeta. rewrite step_state.
  destruct (recall st a s) as [mem0 s0] eqn:Erec.
  assert (Hwf0 : wellFormed (foodSources st) mem0).
  { unfold recall in Erec. destruct (ants st !! id a) as [m|] eqn:Em.
    - injection Erec as <- <-. by apply (Hwf (id a)).
    - unfold Math_random in Erec. injection Erec as <- <-. apply wellFormed_fresh. }
  destruct (match mode mem0 with
            | Search => searchBlock st a mem0 s0
            | Return => (zero, mem0, s0)
            end) as [[force1 mem1] s1] eqn:Esearch.
  assert (Hwf1 : wellFormed (foodSources st) mem1).
  { destruct (mode mem0) eqn:Em0.
    - pose proof (searchBlock_wellFormed st a mem0 s0 Em0 Hwf0) as H.
      by rewrite Esearch in H.
    - by injection Esearch as <- <- <-. }
  destruct (match mode mem1 with
            | Return => returnBlock st config a mem1 s1
            | Search => (force1, mem1, st, s1)
            end) as [[[force2 mem2] st2] s2] eqn:Ereturn.
  assert (Hst2 : foodSources st2 = foodSources st /\ initialized st2 = initialized st /\
                 gridCols st2 = gridCols st /\ gridRows st2 = gridRows st /\
                 cellSize st2 = cellSize st /\
                 length (pheromoneGrid st2) = length (pheromoneGrid st) /\
                 wellFormed (foodSources st) mem2).
  { destruct (mode mem1) eqn:Em1.
    - by injection Ereturn as <- <- <- <-.
    - pose proof (returnBlock_state st config a mem1 s1) as Hst.
      pose proof (returnBlock_wellFormed st config a mem1 s1 Hwf1) as Hm.
      rewrite Ereturn in Hst, Hm. cbn [fst snd] in Hst, Hm. subst st2.
      rewrite depositPheromone_length.
      by destruct (depositPheromone_fields st (ax a) (ay a)
                     (AntRun.depositStrength st a mem1)) as (-> & _ & -> & -> & -> & ->). }
  destruct Hst2 as (Hf & Hi & Hc & Hr & Hcs & Hlen & Hwf2).
  cbn [foodSources initialized gridCols gridRows cellSize pheromoneGrid ants setAnts].
  split; [done|]. split; [done|]. split; [done|]. split; [done|]. split; [done|].
  split; [done|]. rewrite Hf.
  intros i mem. destruct (decide (i = id a)) as [->|Hne].
  - rewrite lookup_insert_eq. by intros [= <-].
  - rewrite lookup_insert_ne by done. apply Hwf.
Qed.

Lemma loop_consistent config obstacles agents : forall st s,
  (forall i mem, ants st !! i = Some mem -> wellFormed (foodSources st) mem) ->
  let st' := (loop config obstacles st s agents).1.2 in
  foodSources st' = foodSources st /\ initialized st' = initialized st /\
  gridCols st' = gridCols st /\ gridRows st' = gridRows st /\
  cellSize st' = cellSize st /\
  length (pheromoneGrid st') = length (pheromoneGrid st) /\
  (forall i mem, ants st' !! i = Some mem -> wellFormed (foodSources st') mem).
Proof.
  induction agents as [|a l IH]; intros st s Hwf; cbn [loop].
  - cbn [fst snd]. done.
  - pose proof (step_consistent config obstacles st s a Hwf) as Hstep.
    destruct (step config obstacles st s a) as [[a' st1] s1].
    cbv zeta in Hstep. cbn [fst snd] in Hstep.
    destruct Hstep as (H1 & H2 & H3 & H4 & H5 & H6 & H7).
    specialize (IH st1 s1 H7).
    destruct (loop config obstacles st1 s1 l) as [[out st2] s2].
    cbv zeta in IH. cbn [fst snd] in *.
    destruct IH as (I1 & I2 & I3 & I4 & I5 & I6 & I7).
    split; [congruence|]. split; [congruence|]. split; [congruence|].
    split; [congruence|]. split; [congruence|]. split; [congruence|done].
Qed.

Lemma diffusePheromones_length st :
  length (pheromoneGrid (diffusePheromones st)) = length (pheromoneGrid st).
Proof.
  unfold diffusePheromones. cbv zeta. rewrite pheromoneGrid_setGrid.
  assert (Hinner : forall y l g,
            length (fold_left (fun g x =>
                       <[Z.to_nat (y * gridCols st + x) := diffuseCell st x y]> g)
                     l g) = length g).
  { intros y l. induction l as [|x l IH]; intros g; [done|].
    cbn [fold_left]. by rewrite IH, length_insert. }
  assert (Houter : forall l g,
            length (fold_left (fun g y =>
                       fold_left (fun g x =>
                         <[Z.to_nat (y * gridCols st + x) := diffuseCell st x y]> g)
                         (upto 0 (gridCols st - 1)) g) l g) = length g).
  { induction l as [|y l IH]; intros g; [done|].
    cbn [fold_left]. by rewrite IH, Hinner. }
  by rewrite Houter, length_replicate.
Qed.

(** The field maintenance initialises the instance once and leaves the
    food list, the memory and the shape of the grid alone afterwards. *)
Lemma maintain_consistent st config :
  (initialized st = false -> ants st = ∅) ->
  (forall i mem, ants st !! i = Some mem -> wellFormed (foodSources st) mem) ->
  (initialized st = true -> gridShaped st) ->
  let st' := maintain st config in
  initialized st' = true /\ gridShaped st' /\
  (forall i mem, ants st' !! i = Some mem -> wellFormed (foodSources st') mem).
Proof.
  intros Hempty Hwf Hshape. cbv zeta. unfold maintain. cbv zeta.
  set (st1 := if initialized st then st else init st config).
  assert (H1 : initialized st1 = true /\ gridShaped st1 /\
               (forall i mem, ants st1 !! i = Some mem ->
                  wellFormed (foodSources st1) mem)).
  { subst st1. destruct (initialized st) eqn:Ei.
    - split; [done|]. split; [by apply Hshape|done].
    - split; [done|]. split.
      + unfold gridShaped, init. cbn [pheromoneGrid gridCols gridRows].
        by rewrite length_replicate.
      + intros i mem Hm. cbn [ants init] in Hm.
        rewrite Hempty in Hm by done. by rewrite lookup_empty in Hm. }
  destruct H1 as (Hi1 & Hs1 & Hwf1).
  set (st2 := evaporate (setTickCount st1 (tickCount st1 + 1))).
  assert (H2 : initialized st2 = true /\ gridShaped st2 /\
               (forall i mem, ants st2 !! i = Some mem ->
                  wellFormed (foodSources st2) mem)).
  { subst st2. split; [done|]. split; [|done].
    unfold gridShaped, evaporate. cbn [pheromoneGrid setGrid gridCols gridRows setTickCount].
    by rewrite length_map. }
  destruct (Z.rem (tickCount st2) 4 =? 0)%Z; [|done].
  destruct H2 as (Hi2 & Hs2 & Hwf2). split; [done|]. split; [|done].
  unfold gridShaped. rewrite diffusePheromones_length. exact Hs2.
Qed.

(** What every state of a Foraging instance satisfies. *)
Lemma reachable_consistent st :
  reachable st ->
  (initialized st = false -> ants st = ∅) /\
  (forall i mem, ants st !! i = Some mem -> wellFormed (foodSources st) mem) /\
  gridShaped st /\ bounded (pheromoneGrid st).
Proof.
  induction 1 as [|st agents config obstacles hash s Hr (IH1 & IH2 & IH3 & IH4)].
  - split; [done|]. split; [|split; [done|constructor]].
    intros i mem Hm. change (ants new) with (∅ : gmap Z AntMemory) in Hm.
    by rewrite lookup_empty in Hm.
  - unfold tick.
    destruct (maintain_consistent st config IH1 IH2 (fun _ => IH3)) as (M1 & M2 & M3).
    pose proof (maintain_grid st config) as (Mb & _).
    pose proof (loop_consistent config obstacles agents (maintain st config) s M3) as Hl.
    pose proof (loop_grid config obstacles agents (maintain st config) s) as (Lb & _).
    destruct (loop config obstacles (maintain st config) s agents) as [[out st'] s'].
    cbv zeta in Hl. cbn [fst snd] in *.
    destruct Hl as (L1 & L2 & L3 & L4 & L5 & L6 & L7).
    split; [congruence|]. split; [done|]. split; [|tauto].
    unfold gridShaped in *. congruence.
Qed.

(** X19: in every state of a Foraging instance, each stored ant memory has
    a non-negative step count, in search mode the food index -1, and in
    return mode the index of a food source that exists: the read of
    [foodSources[targetFoodIdx]] in the return block never misses. *)
Theorem ant_memory_well_formed st i mem :
  reachable st -> ants st !! i = Some mem ->
  (0 <= stepsSearching mem)%Z /\
  match mode mem with
  | Return =>
      (0 <= targetFoodIdx mem)%Z /\
      is_Some (foodSources st !! Z.to_nat (targetFoodIdx mem))
  | Search => targetFoodIdx mem = (-1)%Z
  end.
Proof.
  intros Hr Hm. destruct (reachable_consistent st Hr) as (_ & Hwf & _).
  exact (Hwf i mem Hm).
Qed.

(** X20: in every state of a Foraging instance the pheromone array has
    exactly [gridCols * gridRows] cells, so every in-grid position reads a
    stored cell, and [samplePheromone] returns a level in [0, 12]. *)
Theorem pheromone_grid_shape st :
  reachable st ->
  length (pheromoneGrid st) = Z.to_nat (gridCols st * gridRows st) /\
  (forall nx ny, inGrid st nx ny = true ->
     is_Some (pheromoneGrid st !! Z.to_nat (ny * gridCols st + nx))) /\
  (forall x y, 0 <= samplePheromone st x y <= 12).
Proof.
  intros Hr. destruct (reachable_consistent st Hr) as (_ & _ & Hs & Hb).
  split; [exact Hs|]. split.
  - intros nx ny Hin. unfold inGrid in Hin.
    apply andb_true_iff in Hin as [Hin H4]. apply andb_true_iff in Hin as [Hin H3].
    apply andb_true_iff in Hin as [H1 H2].
    apply Z.leb_le in H1, H3. apply Z.ltb_lt in H2, H4.
    apply lookup_lt_is_Some_2. rewrite Hs. nia.
  - intros x y. unfold samplePheromone. cbv zeta.
    destruct (_ || _); [lra|]. by apply gridAt_bounded.
Qed.

Lemma ant_memory_well_formed_witness :
  let st := (tick new [agentAt 0 100 100] antConfig [] (SpatialHash.new 60)
               (fun _ => 0)).1.2 in
  reachable st /\
  exists mem, ants st !! 0%Z = Some mem /\
    (0 <= stepsSearching mem)%Z /\
    match mode mem with
    | Return =>
        (0 <= targetFoodIdx mem)%Z /\
        is_Some (foodSources st !! Z.to_nat (targetFoodIdx mem))
    | Search => targetFoodIdx mem = (-1)%Z
    end.
Proof.
  cbv zeta.
  assert (Hr : reachable (tick new [agentAt 0 100 100] antConfig []
                            (SpatialHash.new 60) (fun _ => 0)).1.2)
    by apply reachable_tick, reachable_new.
  split; [exact Hr|].
  assert (Hm : exists mem,
            ants (tick new [agentAt 0 100 100] antConfig [] (SpatialHash.new 60)
                    (fun _ => 0)).1.2 !! 0%Z = Some mem).
  { unfold tick. rewrite loop_single, step_state.
    repeat split_let. cbn [ants setAnts].
    change (id (agentAt 0 100 100)) with 0%Z. rewrite lookup_insert_eq. eauto. }
  destruct Hm as [mem Hm]. exists mem. split; [exact Hm|].
  exact (ant_memory_well_formed _ 0%Z mem Hr Hm).
Defined.

Lemma pheromone_grid_shape_witness :
  let st := (tick new [agentAt 0 100 100] antConfig [] (SpatialHash.new 60)
               (fun _ => 0)).1.2 in
  reachable st /\
  length (pheromoneGrid st) = Z.to_nat (gridCols st * gridRows st) /\
  (forall nx ny, inGrid st nx ny = true ->
     is_Some (pheromoneGrid st !! Z.to_nat (ny * gridCols st + nx))) /\
  (forall x y, 0 <= samplePheromone st x y <= 12).
Proof.
  cbv zeta.
  assert (Hr : reachable (tick new [agentAt 0 100 100] antConfig []
                            (SpatialHash.new 60) (fun _ => 0)).1.2)
    by apply reachable_tick, reachable_new.
  split; [exact Hr|]. exact (pheromone_grid_shape _ Hr).
Defined.
End AntMore.

(** ** Foraging: both transitions in one tick *)

Section AntRoundTrip.
Import AntColonyAlgorithm AntSpec.






End AntRoundTrip.

(** ** Swarm optimisation: invariants *)

Section PSOMore.
Import PSOAlgorithm PSOSpec PSOInvariant.




(** *** Fitness and nearest target *)

Lemma sqrt_lt_iff a b : 0 <= a -> 0 <= b -> (sqrt a < sqrt b <-> a < b).
Proof.
  intros Ha Hb. split.
  - by apply sqrt_lt_0_alt.
  - intros H. by apply sqrt_lt_1_alt.
Qed.

Lemma Rltb_sqrt a b : 0 <= a -> 0 <= b -> Rltb (sqrt a) (sqrt b) = Rltb a b.
Proof.
  intros Ha Hb. destruct (Rltb a b) eqn:E.
  - apply Rltb_true. apply Rltb_true in E. by apply sqrt_lt_iff.
  - apply Rltb_false. apply Rltb_false in E. by apply sqrt_le_1_alt.
Qed.

Lemma sq_as_pow px py t :
  (px - tx t) ^ 2 + (py - ty t) ^ 2
  = (px - tx t) * (px - tx t) + (py - ty t) * (py - ty t).
Proof. simpl. ring. Qed.

End PSOMore.

Section Nearest.
Import PSOAlgorithm PSOSpec PSOInvariant.
Context (px py : R).

(** The loop bodies of [fitness] and of [nearestTarget]. *)
Let closer (best : XR) (t : Target) : XR :=
  let dx := px - tx t in
  let dy := py - ty t in
  let d := sqrt (dx * dx + dy * dy) in
  if xltb (Num d) best then Num d else best.

Let nearer : Target * XR -> Target -> Target * XR :=
  fun '(best, bestD) t =>
    let d := (px - tx t) ^ 2 + (py - ty t) ^ 2 in
    if xltb (Num d) bestD then (t, Num d) else (best, bestD).

(** The squared distance to a target, and the distance. *)
Let sq (t : Target) : R :=
  (px - tx t) * (px - tx t) + (py - ty t) * (py - ty t).

Lemma pow_sq t : (px - tx t) ^ 2 + (py - ty t) ^ 2 = sq t.
Proof. unfold sq. simpl. ring. Qed.

Lemma dist_sq t : dist {| x := px; y := py |} (posT t) = sqrt (sq t).
Proof. reflexivity. Qed.

Lemma sq_nonneg t : 0 <= sq t.
Proof. apply sq_sum_nonneg. Qed.

(** The two loops move together: the distance kept by the first is the
    distance to the target kept by the second. *)
Let paired (best : XR) (p : Target * XR) : Prop :=
  (best = Infinity /\ p.2 = Infinity) \/
  (best = Num (sqrt (sq p.1)) /\ p.2 = Num (sq p.1)).

Lemma paired_step best p t :
  paired best p ->
  paired (closer best t) (nearer p t) /\
  closer best t <> Infinity /\
  ((nearer p t).1 = p.1 \/ (nearer p t).1 = t) /\
  xle (closer best t) best /\
  xle (closer best t) (Num (sqrt (sq t))).
Proof.
  destruct p as [b bd]. unfold paired, closer, nearer. cbv zeta. cbn [fst snd].
  rewrite pow_sq. fold (sq t).
  intros [[-> ->]|[-> ->]].
  - cbn [xltb fst snd]. split; [by right|]. split; [done|]. split; [by right|].
    split; [done|]. simpl. lra.
  - cbn [xltb]. rewrite Rltb_sqrt by apply sq_nonneg.
    pose proof (sq_nonneg t) as Ht. pose proof (sq_nonneg b) as Hb.
    destruct (Rltb (sq t) (sq b)) eqn:E; cbn [fst snd].
    + split; [by right|]. split; [done|]. split; [by right|].
      apply Rltb_true in E. split; simpl.
      * left. by apply sqrt_lt_1_alt.
      * lra.
    + split; [by right|]. split; [done|]. split; [by left|].
      apply Rltb_false in E. split; simpl.
      * lra.
      * by apply sqrt_le_1_alt.
Qed.

Lemma paired_fold l : forall best p,
  paired best p ->
  paired (fold_left closer l best) (fold_left nearer l p) /\
  (l <> [] -> fold_left closer l best <> Infinity) /\
  ((fold_left nearer l p).1 = p.1 \/ In (fold_left nearer l p).1 l) /\
  xle (fold_left closer l best) best /\
  (forall t, In t l -> xle (fold_left closer l best) (Num (sqrt (sq t)))).
Proof.
  induction l as [|t l IH]; intros best p Hp; cbn [fold_left].
  - split; [done|]. split; [done|]. split; [by left|]. split; [apply xle_refl|].
    intros t [].
  - destruct (paired_step best p t Hp) as (S1 & S2 & S3 & S4 & S5).
    destruct (IH _ _ S1) as (I1 & I2 & I3 & I4 & I5).
    split; [done|]. split.
    { intros _. destruct l as [|t' l']; [done|]. by apply I2. }
    split.
    { destruct I3 as [I3|I3]; [|by right; right].
      rewrite I3. destruct S3 as [->| ->]; [by left|right; by left]. }
    split; [by eapply xle_trans|].
    intros t' [<-|Ht']; [by eapply xle_trans|by apply I5].
Qed.

(** X22: the fitness of a position is its distance to the nearest target:
    [Infinity] without targets; otherwise [nearestTarget] returns one of
    the targets, the fitness is the distance to it, and no target is
    closer. *)
Theorem fitness_is_distance_to_nearest_target st :
  (targets st = [] -> fitness st px py = Infinity) /\
  (targets st <> [] ->
     In (nearestTarget st px py) (targets st) /\
     fitness st px py
     = Num (dist {| x := px; y := py |} (posT (nearestTarget st px py)))) /\
  (forall t, In t (targets st) ->
     xle (fitness st px py) (Num (dist {| x := px; y := py |} (posT t)))).
Proof.
  change (fitness st px py) with (fold_left closer (targets st) Infinity).
  change (nearestTarget st px py)
    with (fold_left nearer (targets st)
            (hd {| tx := 0; ty := 0; tvx := 0; tvy := 0 |} (targets st), Infinity)).1.
  set (first := hd {| tx := 0; ty := 0; tvx := 0; tvy := 0 |} (targets st)).
  destruct (paired_fold (targets st) Infinity (first, Infinity))
    as (H1 & H2 & H3 & _ & H5); [by left|].
  split; [by intros ->|]. split; [|exact H5].
  intros Hne. split.
  - destruct H3 as [H3|H3]; [|done]. rewrite H3. subst first.
    destruct (targets st); [done|by left].
  - destruct H1 as [[H1 _]|[H1 _]]; [by apply H2 in Hne|]. by rewrite dist_sq.
Qed.
End Nearest.

Section PSOTargets.
Import PSOAlgorithm PSOSpec PSOInvariant.

Lemma clamp_between lo hi v : lo <= hi -> lo <= Rmax lo (Rmin hi v) <= hi.
Proof.
  intros H. split; [apply Rmax_l|]. apply Rmax_lub; [done|apply Rmin_l].
Qed.

Lemma Rabs_flip v : Rabs (v * -1) = Rabs v.
Proof. replace (v * -1) with (- v) by ring. apply Rabs_Ropp. Qed.

(** X23: in a world at least 80 wide and 80 high, a moved target lies in
    the world shrunk by 40 on each side; each velocity component keeps its
    absolute value (a bounce flips its sign); and a target whose next
    position is inside that box advances by its velocity, unchanged. *)
Theorem moveTarget_bounces config t :
  80 <= worldWidth config -> 80 <= worldHeight config ->
  inBox config (moveTarget config t) /\
  Rabs (tvx (moveTarget config t)) = Rabs (tvx t) /\
  Rabs (tvy (moveTarget config t)) = Rabs (tvy t) /\
  (inBox config {| tx := tx t + tvx t; ty := ty t + tvy t;
                   tvx := tvx t; tvy := tvy t |} ->
   moveTarget config t
   = {| tx := tx t + tvx t; ty := ty t + tvy t; tvx := tvx t; tvy := tvy t |}).
Proof.
  intros Hw Hh. unfold moveTarget, inBox. cbv zeta.
  destruct (Rltb (tx t + tvx t) 40 || Rltb (worldWidth config - 40) (tx t + tvx t))
    eqn:Ex;
  destruct (Rltb (ty t + tvy t) 40 || Rltb (worldHeight config - 40) (ty t + tvy t))
    eqn:Ey; cbn [tx ty tvx tvy].
  all: try (apply orb_true_iff in Ex as Ex'); try (apply orb_true_iff in Ey as Ey').
  all: try (apply orb_false_iff in Ex as [Ex1 Ex2];
            apply Rltb_false in Ex1; apply Rltb_false in Ex2).
  all: try (apply orb_false_iff in Ey as [Ey1 Ey2];
            apply Rltb_false in Ey1; apply Rltb_false in Ey2).
  all: rewrite ?Rabs_flip.
  all: (split; [split; first [apply clamp_between; lra | lra]|]).
  all: (split; [done|]); (split; [done|]).
  all: intros [[Hx1 Hx2] [Hy1 Hy2]].
  all: try (destruct Ex' as [E|E]; apply Rltb_true in E; lra).
  all: try (destruct Ey' as [E|E]; apply Rltb_true in E; lra).
  reflexivity.
Qed.

Lemma moveTarget_bounces_witness :
  let t := {| tx := 41; ty := 100; tvx := -2; tvy := 1 |} in
  80 <= worldWidth DEFAULT_CONFIG /\ 80 <= worldHeight DEFAULT_CONFIG /\
  inBox DEFAULT_CONFIG (moveTarget DEFAULT_CONFIG t) /\
  Rabs (tvx (moveTarget DEFAULT_CONFIG t)) = Rabs (tvx t) /\
  Rabs (tvy (moveTarget DEFAULT_CONFIG t)) = Rabs (tvy t) /\
  (inBox DEFAULT_CONFIG {| tx := tx t + tvx t; ty := ty t + tvy t;
                           tvx := tvx t; tvy := tvy t |} ->
   moveTarget DEFAULT_CONFIG t
   = {| tx := tx t + tvx t; ty := ty t + tvy t; tvx := tvx t; tvy := tvy t |}).
Proof.
  intros t.
  assert (H1 : 80 <= worldWidth DEFAULT_CONFIG) by (simpl; lra).
  assert (H2 : 80 <= worldHeight DEFAULT_CONFIG) by (simpl; lra).
  split; [exact H1|]. split; [exact H2|].
  exact (moveTarget_bounces DEFAULT_CONFIG t H1 H2).
Defined.
End PSOTargets.

Section PSOInvariants.
Import PSOAlgorithm PSOSpec PSOInvariant.

(** The global best is at most every stored personal best. *)
Definition gbestBelow (st : t) : Prop :=
  forall i mem, particles st !! i = Some mem ->
    xle (globalBestFitness st) (personalBestFitness mem).

Lemma xle_min a b : xle (if xltb a b then a else b) a /\ xle (if xltb a b then a else b) b.
Proof.
  destruct (xltb a b) eqn:E.
  - split; [apply xle_refl|by apply xltb_xle].
  - split; [|apply xle_refl]. destruct a, b; simpl in *; try done.
    apply Rltb_false in E. lra.
Qed.

(** The state one iteration of the agent loop leaves. *)
Lemma pso_step_memory config obstacles st s a :
  (step config obstacles st s a).1.2 =
  (let '(mem, gbest) := recall st a in
   let cur := fitness st (ax a) (ay a) in
   {| globalBestFitness := if xltb cur gbest then cur else gbest;
      particles :=
        <[id a := if xltb cur (personalBestFitness mem)
                  then {| personalBestX := ax a; personalBestY := ay a;
                          personalBestFitness := cur |}
                  else mem]> (particles st);
      targets := targets st;
      initialized := initialized st;
      tickCount := tickCount st |}).
Proof. unfold step. repeat split_let. reflexivity. Qed.

Lemma step_gbest config obstacles st s a :
  gbestBelow st -> gbestBelow (step config obstacles st s a).1.2.
Proof.
  intros Hg. rewrite pso_step_memory.
  destruct (recall st a) as [mem0 g0] eqn:Erec. cbv zeta.
  set (cur := fitness st (ax a) (ay a)) in *.
  assert (Hrec : xle g0 (personalBestFitness mem0) /\ xle g0 (globalBestFitness st)).
  { unfold recall in Erec. destruct (particles st !! id a) as [m|] eqn:Em.
    - injection Erec as <- <-. split; [by apply (Hg (id a))|apply xle_refl].
    - injection Erec as <- <-. cbn [personalBestFitness]. fold cur. apply xle_min. }
  destruct Hrec as [Hr1 Hr2].
  destruct (xle_min cur g0) as [Hm1 Hm2].
  intros i mem. cbn [particles globalBestFitness].
  destruct (decide (i = id a)) as [->|Hne].
  - rewrite lookup_insert_eq. intros [= <-].
    destruct (xltb cur (personalBestFitness mem0)); cbn [personalBestFitness]; [done|].
    by eapply xle_trans.
  - rewrite lookup_insert_ne by done. intros Hm.
    eapply xle_trans; [exact Hm2|]. eapply xle_trans; [exact Hr2|]. by apply (Hg i).
Qed.

Lemma loop_gbest config obstacles agents : forall st s,
  gbestBelow st ->
  let st' := (loop config obstacles st s agents).1.2 in
  gbestBelow st' /\ targets st' = targets st /\ initialized st' = initialized st.
Proof.
  induction agents as [|a l IH]; intros st s Hg; cbn [loop]; [done|].
  pose proof (step_gbest config obstacles st s a Hg) as Hs.
  pose proof (step_particles config obstacles st s a) as (_ & _ & Ht & Hi & _).
  destruct (step config obstacles st s a) as [[a' st1] s1]. cbn [fst snd] in *.
  specialize (IH st1 s1 Hs).
  destruct (loop config obstacles st1 s1 l) as [[out st2] s2].
  cbv zeta in IH. cbn [fst snd] in *. destruct IH as (I1 & I2 & I3).
  split; [done|]. split; congruence.
Qed.

Lemma gbestBelow_empty g ts i n :
  gbestBelow {| globalBestFitness := g; particles := ∅; targets := ts;
                initialized := i; tickCount := n |}.
Proof. intros j mem Hm. cbn [particles] in Hm. by rewrite lookup_empty in Hm. Qed.

(** What [tick] does before the agent loop, to the memory and to the
    number of targets. *)
Lemma prepare_invariant st config s :
  gbestBelow st -> (initialized st = true -> length (targets st) = 3%nat) ->
  let st' := (prepare st config s).1 in
  gbestBelow st' /\ initialized st' = true /\ length (targets st') = 3%nat.
Proof.
  intros Hg Hl. cbv zeta. unfold prepare. cbv zeta.
  set (st1 := if initialized st then st else init st config).
  assert (H1 : gbestBelow st1 /\ initialized st1 = true /\ length (targets st1) = 3%nat).
  { subst st1. destruct (initialized st) eqn:Ei.
    - split; [done|]. split; [done|by apply Hl].
    - split; [apply gbestBelow_empty|done]. }
  destruct H1 as (G1 & I1 & L1).
  cbn [tickCount setTargets targets].
  destruct (Z.rem (tickCount st1 + 1) 120 =? 0)%Z.
  - unfold teleport. cbv zeta. unfold Math_random. cbn [fst snd].
    split; [apply gbestBelow_empty|]. split; [done|].
    cbn [targets]. rewrite length_insert. cbn [targets setTargets].
    by rewrite length_map.
  - cbn [fst]. split; [done|]. split; [done|]. cbn [targets setTargets].
    by rewrite length_map.
Qed.

Lemma reachable_invariant st :
  reachable st ->
  gbestBelow st /\ (initialized st = true -> length (targets st) = 3%nat).
Proof.
  induction 1 as [|st agents config obstacles hash s Hr [IH1 IH2]].
  - split; [apply gbestBelow_empty|done].
  - unfold tick.
    pose proof (prepare_invariant st config s IH1 IH2) as Hp.
    destruct (prepare st config s) as [st0 s0]. cbv zeta in Hp. cbn [fst] in Hp.
    destruct Hp as (P1 & P2 & P3).
    pose proof (loop_gbest config obstacles agents st0 s0 P1) as Hl.
    destruct (loop config obstacles st0 s0 agents) as [[out st'] s'].
    cbv zeta in Hl. cbn [fst snd] in *. destruct Hl as (L1 & L2 & L3).
    split; [done|]. intros _. congruence.
Qed.

(** X24: in every state of an Optimization instance the global best
    fitness is at most every stored personal best, and an initialised
    instance holds exactly three targets. *)
Theorem pso_global_best_below_personal st :
  reachable st ->
  (forall i mem, particles st !! i = Some mem ->
     xle (globalBestFitness st) (personalBestFitness mem)) /\
  (initialized st = true -> length (targets st) = 3%nat).
Proof. apply reachable_invariant. Qed.

Lemma pso_global_best_below_personal_witness :
  let st := (tick new [agentAt 0 100 100] DEFAULT_CONFIG [] (SpatialHash.new 60)
               (fun _ => 0)).1.2 in
  reachable st /\
  (forall i mem, particles st !! i = Some mem ->
     xle (globalBestFitness st) (personalBestFitness mem)) /\
  (initialized st = true -> length (targets st) = 3%nat).
Proof.
  cbv zeta.
  assert (Hr : reachable (tick new [agentAt 0 100 100] DEFAULT_CONFIG []
                            (SpatialHash.new 60) (fun _ => 0)).1.2)
    by apply reachable_tick, reachable_new.
  split; [exact Hr|]. exact (pso_global_best_below_personal _ Hr).
Defined.
End PSOInvariants.

(** ** The worker: spawning, pausing and the run invariant *)

Section Spawn.
Import Worker WorkerSpec.





End Spawn.

Section Pausing.
Import Worker WorkerSpec WorkerInvariant.

Lemma sameSimulation_refl w : sameSimulation w w.
Proof. by repeat split. Qed.

Lemma sameSimulation_trans w1 w2 w3 :
  sameSimulation w1 w2 -> sameSimulation w2 w3 -> sameSimulation w1 w3.
Proof.
  intros (A1 & A2 & A3 & A4 & A5 & A6 & A7 & A8) (B1 & B2 & B3 & B4 & B5 & B6 & B7 & B8).
  unfold sameSimulation. repeat split; congruence.
Qed.

Lemma stopLoop_same w : sameSimulation w (stopLoop w) /\ running (stopLoop w) = false.
Proof.
  unfold stopLoop. cbv zeta. destruct (animFrameId (setRunning w false)); by repeat split.
Qed.

(** A timer that fires while the worker is not running does not tick. *)
Lemma timeout_paused w n :
  running w = false ->
  sameSimulation w (react w (Timeout n)) /\ running (react w (Timeout n)) = false.
Proof.
  intros Hr. cbn [react]. destruct (existsb (Nat.eqb n) (timers w)).
  - unfold simLoop. cbn [running]. rewrite Hr. by repeat split.
  - split; [apply sameSimulation_refl|done].
Qed.

Lemma timeouts_paused ns : forall w,
  running w = false ->
  sameSimulation w (fold_left react (map Timeout ns) w) /\
  running (fold_left react (map Timeout ns) w) = false.
Proof.
  induction ns as [|n ns IH]; intros w Hr; cbn [map fold_left].
  - split; [apply sameSimulation_refl|done].
  - destruct (timeout_paused w n Hr) as [H1 H2].
    destruct (IH _ H2) as [H3 H4].
    split; [by eapply sameSimulation_trans|done].
Qed.

(** X26: Pause stops the simulation: after a [PAUSE] message, whatever
    timers fire afterwards, the population, the tick count, the posted
    messages, the anomaly histories and the strategy instance stay as they
    were when the message arrived, and the worker is not running.  After a
    [STEP] message they stay as that single tick left them. *)
Theorem pause_stops_ticks w ns :
  (let w' := fold_left react (map Timeout ns) (onmessage w PAUSE) in
   sameSimulation w w' /\ running w' = false) /\
  (let w' := fold_left react (map Timeout ns) (onmessage w STEP) in
   sameSimulation (simTick (stopLoop w)) w' /\ running w' = false).
Proof.
  cbv zeta. split.
  - cbn [onmessage]. destruct (stopLoop_same w) as [H1 H2].
    destruct (timeouts_paused ns _ H2) as [H3 H4].
    split; [by eapply sameSimulation_trans|done].
  - cbn [onmessage]. apply timeouts_paused.
    destruct (stopLoop_same w) as [_ H2].
    unfold simTick.
    destruct (config (stopLoop w)), (algorithm (stopLoop w)), (spatialHash (stopLoop w));
      try done.
    destruct (algorithmTick _ _ _ _ _ _) as [[updated alg'] s'].
    by destruct (detectAll _ updated).
Qed.
End Pausing.

Section RunInvariant.
Import Worker WorkerSpec WorkerInvariant.

Lemma kindOf_getAlgorithm ty : kindOf (getAlgorithm ty) = ty.
Proof. by destruct ty. Qed.

Lemma algorithmTick_kind alg agents cfg obstacles hash s :
  kindOf (algorithmTick alg agents cfg obstacles hash s).1.2 = kindOf alg.
Proof.
  destruct alg as [|st|st]; cbn [algorithmTick]; [done| |].
  - by destruct (AntColonyAlgorithm.tick st agents cfg obstacles hash s) as [[? ?] ?].
  - by destruct (PSOAlgorithm.tick st agents cfg obstacles hash s) as [[? ?] ?].
Qed.

(** The invariant reads six fields of the worker only. *)
Lemma invariant_fields w w' :
  config w' = config w -> algorithm w' = algorithm w ->
  spatialHash w' = spatialHash w -> tick w' = tick w ->
  posted w' = posted w -> posHistory w' = posHistory w ->
  idle w \/ live w -> idle w' \/ live w'.
Proof.
  intros H1 H2 H3 H4 H5 H6 [Hi|Hl]; [left|right].
  - unfold idle in *. by rewrite H1, H2, H3, H4, H5, H6.
  - unfold live in *. by rewrite H1, H2, H3, H4, H5.
Qed.

Lemma simTick_invariant w : idle w \/ live w -> idle (simTick w) \/ live (simTick w).
Proof.
  intros [Hi|Hl].
  - left. destruct Hi as (Hc & Ha & Hh & Ht & Hp & Hhist).
    unfold simTick. rewrite Hc. by repeat split.
  - right. destruct Hl as (cfg & alg & hash & ags & Hc & Ha & Hh & Hk & Ht & Hp).
    unfold simTick. rewrite Hc, Ha, Hh.
    pose proof (algorithmTick_kind alg (agents w) cfg (obstacles w)
                  (SpatialHash.insertAll hash (agents w)) (rng w)) as Hkind.
    destruct (algorithmTick _ _ _ _ _ _) as [[updated alg'] s'].
    destruct (detectAll (posHistory w) updated) as [flagged hist].
    cbn [fst snd] in Hkind.
    exists cfg, alg', (SpatialHash.insertAll hash (agents w)), flagged.
    cbn [post config algorithm spatialHash tick posted].
    split; [done|]. split; [done|]. split; [done|]. split; [congruence|].
    split; [lia|]. by rewrite last_snoc.
Qed.

Lemma simLoop_invariant w : idle w \/ live w -> idle (simLoop w) \/ live (simLoop w).
Proof.
  intros H. unfold simLoop. destruct (running w); [|done].
  apply (invariant_fields (simTick w)); try done. by apply simTick_invariant.
Qed.

Lemma stopLoop_invariant w : idle w \/ live w -> idle (stopLoop w) \/ live (stopLoop w).
Proof.
  apply invariant_fields; unfold stopLoop; cbv zeta;
    by destruct (animFrameId (setRunning w false)).
Qed.

Lemma merge_selector cfg p :
  p_algorithm p = None -> selector (merge cfg p) = selector cfg.
Proof. intros H. unfold selector, merge. rewrite H. reflexivity. Qed.

Lemma onmessage_invariant w msg :
  idle w \/ live w -> idle (onmessage w msg) \/ live (onmessage w msg).
Proof.
  intros H. destruct msg as [cfg ags obs|p|obs|b|ags| | | |cfg]; cbn [onmessage].
  - right. destruct (if (0 <? length ags)%nat then (ags, rng w) else spawnAgents cfg (rng w))
      as [agents0 s0].
    exists cfg, (getAlgorithm (selector cfg)), (SpatialHash.new (neighborRadius cfg)), agents0.
    cbn [post config algorithm spatialHash tick posted].
    split; [done|]. split; [done|]. split; [done|].
    split; [apply kindOf_getAlgorithm|]. split; [done|]. by rewrite last_snoc.
  - destruct H as [Hi|Hl].
    + left. destruct Hi as (Hc & Ha & Hh & Ht & Hp & Hhist).
      rewrite Hc. by repeat split.
    + right. destruct Hl as (cfg & alg & hash & ags & Hc & Ha & Hh & Hk & Ht & Hp).
      rewrite Hc.
      exists (merge cfg p),
        (if truthyAlgorithm (p_algorithm p) then getAlgorithm (selector (merge cfg p))
         else alg),
        (if truthyNumber (p_neighborRadius p)
         then SpatialHash.new (neighborRadius (merge cfg p)) else hash), ags.
      cbn [config algorithm spatialHash tick posted].
      split; [done|]. split; [by destruct (truthyAlgorithm _); rewrite ?Ha|].
      split; [by destruct (truthyNumber _); rewrite ?Hh|].
      split; [|done].
      destruct (p_algorithm p) as [ty|] eqn:Ep; cbn [truthyAlgorithm].
      * apply kindOf_getAlgorithm.
      * by rewrite merge_selector.
  - revert H. by apply invariant_fields.
  - revert H. by apply invariant_fields.
  - destruct H as [Hi|Hl]; [left|right].
    + destruct Hi as (Hc & Ha & Hh & Ht & Hp & Hhist). unfold idle.
      cbn [config algorithm spatialHash tick posted posHistory].
      rewrite Hhist. unfold fillFirst. destruct ags as [|a0 rest]; [done|].
      by rewrite lookup_empty.
    + destruct Hl as (cfg & alg & hash & ags' & Hl). by exists cfg, alg, hash, ags'.
  - unfold startLoop. apply simLoop_invariant. revert H. by apply invariant_fields.
  - by apply stopLoop_invariant.
  - by apply simTick_invariant, stopLoop_invariant.
  - right. destruct (spawnAgents cfg (rng (stopLoop w))) as [agents0 s0].
    exists cfg, (getAlgorithm (selector cfg)), (SpatialHash.new (neighborRadius cfg)), agents0.
    cbn [post config algorithm spatialHash tick posted].
    split; [done|]. split; [done|]. split; [done|].
    split; [apply kindOf_getAlgorithm|]. split; [done|]. by rewrite last_snoc.
Qed.

Lemma react_invariant w e : idle w \/ live w -> idle (react w e) \/ live (react w e).
Proof.
  intros H. destruct e as [msg|n]; cbn [react].
  - by apply onmessage_invariant.
  - destruct (existsb (Nat.eqb n) (timers w)); [|done].
    apply simLoop_invariant. revert H. by apply invariant_fields.
Qed.

Lemma run_invariant s es : idle (run s es) \/ live (run s es).
Proof.
  unfold run. assert (H : idle (initial s) \/ live (initial s)) by (left; by repeat split).
  revert H. generalize (initial s). induction es as [|e es IH]; intros w H; [done|].
  cbn [fold_left]. by apply IH, react_invariant.
Qed.

(** X27: whatever events the worker has received, it is either idle (no
    [Init] or [Reset] yet: no config, no strategy, no spatial index, tick
    0, nothing posted, no history) or live: it holds a config, a spatial
    index and a strategy instance of the class the config selects, its
    tick count is not negative, and the newest message it posted is the
    snapshot carrying that tick count. *)
Theorem worker_idle_or_live s es : idle (run s es) \/ live (run s es).
Proof. apply run_invariant. Qed.
End RunInvariant.

(** ** The store *)

Section StoreFacts.
Import Store StoreSpec.

Lemma setAgents_history s a k :
  (length (agentsHistory s) <= 300)%nat ->
  (length (agentsHistory (setAgents s a k)) <= 300)%nat /\
  last (agentsHistory (setAgents s a k)) = Some a /\
  removelast (agentsHistory (setAgents s a k))
  = (if (length (agentsHistory s) =? 300)%nat
     then tail (agentsHistory s) else agentsHistory s).
Proof.
  intros Hlen. unfold setAgents. cbv zeta. cbn [agentsHistory].
  rewrite length_app. cbn [length].
  destruct (300 <? length (agentsHistory s) + 1)%nat eqn:E.
  - apply Nat.ltb_lt in E. assert (H300 : length (agentsHistory s) = 300%nat) by lia.
    rewrite H300. cbn [Nat.eqb].
    destruct (agentsHistory s) as [|h hs] eqn:Eh; [simpl in H300; lia|].
    cbn [app tail length] in *. rewrite length_app. cbn [length].
    split; [lia|]. split; [apply last_snoc|apply removelast_last].
  - apply Nat.ltb_ge in E. rewrite length_app. cbn [length].
    split; [lia|]. split; [apply last_snoc|].
    rewrite removelast_last.
    destruct (length (agentsHistory s) =? 300)%nat eqn:E3; [|done].
    apply Nat.eqb_eq in E3. lia.
Qed.

Lemma stepBack_spec s :
  (length (agentsHistory s) <= 1)%nat /\ stepBack s = s \/
  exists previous,
    (2 <= length (agentsHistory s))%nat /\
    last (removelast (agentsHistory s)) = Some previous /\
    stepBack s =
    {| config := config s; agents := previous;
       tick := Z.max 0 (tick s - 1); status := Paused;
       agentsHistory := removelast (agentsHistory s); obstacles := obstacles s;
       layers := layers s; analytics := analytics s;
       selectedAgentId := selectedAgentId s; debugInfo := debugInfo s;
       worker := postMessage
                   (postMessage (worker s) (Worker.SET_AGENTS previous))
                   Worker.PAUSE;
       nextObstacleId := nextObstacleId s |}.
Proof.
  unfold stepBack. destruct (length (agentsHistory s) <=? 1)%nat eqn:E.
  - left. apply Nat.leb_le in E. done.
  - right. apply Nat.leb_gt in E. cbv zeta.
    destruct (last (removelast (agentsHistory s))) as [p|] eqn:El.
    + exists p. split; [lia|done].
    + apply last_None in El.
      destruct (agentsHistory s) as [|a [|b l]]; simpl in *; try lia. done.
Qed.

Lemma removelast_shorter {A} (l : list A) : (length (removelast l) <= length l)%nat.
Proof.
  destruct l as [|x l] using rev_ind; [done|].
  rewrite removelast_last, length_app. simpl. lia.
Qed.

(** One action keeps the invariants of the store. *)
Lemma act_invariant s a :
  (length (agentsHistory s) <= 300)%nat /\ showsNewest s /\ freshIds s ->
  (length (agentsHistory (act s a)) <= 300)%nat /\ showsNewest (act s a) /\
  freshIds (act s a).
Proof.
  intros (H1 & H2 & H0 & H3 & H4).
  destruct a; cbn [act];
    try (split; [exact H1|]; split; [exact H2|]; split; [exact H0|];
         split; [exact H3|exact H4]).
  - (* setAgents *)
    destruct (setAgents_history s newAgents newTick H1) as (L1 & L2 & _).
    split; [exact L1|]. split; [|by split].
    unfold showsNewest. by rewrite L2.
  - (* stepBack *)
    destruct (stepBack_spec s) as [[_ ->]|(p & Hlen & Hlast & ->)].
    + split; [exact H1|]. split; [exact H2|]. by split.
    + cbn [agentsHistory]. pose proof (removelast_shorter (agentsHistory s)).
      split; [lia|]. split; [|by split].
      unfold showsNewest. cbn [agentsHistory agents]. by rewrite Hlast.
  - (* addObstacle *)
    split; [exact H1|]. split; [exact H2|]. unfold freshIds, addObstacle.
    cbn [obstacles nextObstacleId]. split; [lia|]. split.
    + rewrite map_app. cbn [map oid]. apply NoDup_app. split; [done|]. split.
      * intros i Hi Hi'. apply list_elem_of_singleton in Hi'. subst i.
        apply list_elem_of_fmap in Hi as (o & Ho & Hin).
        rewrite Forall_forall in H4. specialize (H4 o Hin). lia.
      * apply NoDup_singleton.
    + apply Forall_app. split.
      * eapply Forall_impl; [exact H4|]. intros o Ho. simpl in Ho. lia.
      * apply Forall_singleton. cbn [oid]. lia.
  - (* clearObstacles *)
    split; [exact H1|]. split; [exact H2|]. split; [exact H0|].
    split; [apply NoDup_nil_2|constructor].
  - (* reset *)
    split; [simpl; lia|]. split; [done|]. by split.
Qed.

Lemma run_invariant_store actions :
  (length (agentsHistory (run actions)) <= 300)%nat /\
  showsNewest (run actions) /\ freshIds (run actions).
Proof.
  unfold run. induction actions as [|a actions IH] using rev_ind.
  - cbn [fold_left]. split; [simpl; lia|]. split; [done|].
    split; [done|]. split; [apply NoDup_nil_2|constructor].
  - rewrite fold_left_app. cbn [fold_left]. by apply act_invariant.
Qed.

(** X28: after any sequence of store actions, the history holds at most
    300 populations, the population shown is the newest entry of the
    history (none when the history is empty), and the obstacle ids are
    pairwise distinct, not negative and below the id counter. *)
Theorem store_history_and_ids_invariant (actions : list Store.Action) :
  (length (agentsHistory (run actions)) <= 300)%nat /\
  showsNewest (run actions) /\
  NoDup (map oid (obstacles (run actions))) /\
  Forall (fun o => (0 <= oid o < nextObstacleId (run actions))%Z)
         (obstacles (run actions)).
Proof.
  destruct (run_invariant_store actions) as (H1 & H2 & _ & H3 & H4). done.
Qed.

Lemma last_tail {A} (l : list A) :
  (2 <= length l)%nat -> last (tail l) = last l.
Proof. destruct l as [|a [|b l]]; simpl; try lia. done. Qed.

(** X29: when the history is not empty, [setAgents] followed by
    [stepBack] shows the population that was shown before, pauses, puts
    the tick at the new tick less one (not below 0), and posts
    SET_AGENTS with that population and then PAUSE; a worker that
    receives the two messages holds that population and is not running. *)
Theorem stepBack_undoes_setAgents
    (actions : list Store.Action) (newAgents : list Agent) (newTick : Z) :
  agentsHistory (run actions) <> [] ->
  let s := run actions in
  let s' := stepBack (setAgents s newAgents newTick) in
  agents s' = agents s /\
  status s' = Paused /\
  tick s' = Z.max 0 (newTick - 1) /\
  agentsHistory s'
  = (if (length (agentsHistory s) =? 300)%nat
     then tail (agentsHistory s) else agentsHistory s) /\
  worker s'
  = postMessage (postMessage (worker s) (Worker.SET_AGENTS (agents s)))
                Worker.PAUSE /\
  forall w : Worker.t,
    let w' := deliver w [Worker.SET_AGENTS (agents s); Worker.PAUSE] in
    Worker.agents w' = agents s /\ Worker.running w' = false /\
    Worker.animFrameId w' = None.
Proof.
  intros Hne s s'.
  destruct (run_invariant_store actions) as (H1 & H2 & _).
  fold s in H1, H2, Hne.
  destruct (setAgents_history s newAgents newTick H1) as (L1 & L2 & L3).
  assert (Hprev : last (removelast (agentsHistory (setAgents s newAgents newTick)))
                  = Some (agents s)).
  { rewrite L3. unfold showsNewest in H2.
    destruct (length (agentsHistory s) =? 300)%nat eqn:E.
    - apply Nat.eqb_eq in E. rewrite last_tail by lia.
      destruct (last (agentsHistory s)) as [n|] eqn:El; [by subst n|].
      apply last_None in El. done.
    - destruct (last (agentsHistory s)) as [n|] eqn:El; [by subst n|].
      apply last_None in El. done. }
  subst s'.
  destruct (stepBack_spec (setAgents s newAgents newTick))
    as [[Hlen Heq]|(p & Hlen & Hlast & ->)].
  - exfalso. destruct (agentsHistory s) as [|h hs] eqn:Eh; [done|].
    unfold setAgents in Hlen. cbv zeta in Hlen. cbn [agentsHistory] in Hlen.
    rewrite Eh in Hlen. cbn [app length] in Hlen. rewrite length_app in Hlen.
    cbn [length] in Hlen.
    destruct (300 <? S (length hs + 1))%nat eqn:E300.
    + apply Nat.ltb_lt in E300. cbn [tail] in Hlen. rewrite length_app in Hlen.
      cbn [length] in Hlen. lia.
    + cbn [length] in Hlen. rewrite length_app in Hlen. cbn [length] in Hlen. lia.
  - rewrite Hprev in Hlast. injection Hlast as <-.
    cbn [agents status tick agentsHistory worker].
    split; [done|]. split; [done|]. split; [done|]. split; [exact L3|].
    split; [done|]. intros w. cbv zeta. unfold deliver. cbn [fold_left].
    unfold Worker.onmessage at 1. unfold Worker.stopLoop. cbv zeta.
    cbn [Worker.onmessage Worker.setRunning Worker.animFrameId Worker.agents
         Worker.running].
    by destruct (Worker.animFrameId w).
Qed.

Lemma stepBack_undoes_setAgents_witness :
  agentsHistory (run [SetAgents [agentAt 0 1 1] 1]) <> [] /\
  agents (stepBack (setAgents (run [SetAgents [agentAt 0 1 1] 1])
                              [agentAt 0 2 2] 2))
  = [agentAt 0 1 1].
Proof.
  split; [done|].
  exact (proj1 (stepBack_undoes_setAgents [SetAgents [agentAt 0 1 1] 1]
                  [agentAt 0 2 2] 2 ltac:(done))).
Defined.

Lemma simTick_keeps w :
  Worker.config (Worker.simTick w) = Worker.config w /\
  Worker.obstacles (Worker.simTick w) = Worker.obstacles w.
Proof.
  unfold Worker.simTick.
  destruct (Worker.config w) as [cfg|] eqn:Ec; [|by rewrite Ec].
  destruct (Worker.algorithm w) as [alg|]; [|by rewrite Ec].
  destruct (Worker.spatialHash w) as [hash|]; [|by rewrite Ec].
  destruct (algorithmTick _ _ _ _ _ _) as [[updated alg'] s'].
  by destruct (Worker.detectAll (Worker.posHistory w) updated) as [flagged hist].
Qed.

Lemma simLoop_keeps w :
  Worker.config (Worker.simLoop w) = Worker.config w /\
  Worker.obstacles (Worker.simLoop w) = Worker.obstacles w.
Proof.
  unfold Worker.simLoop. destruct (Worker.running w); [|done].
  cbn [Worker.config Worker.obstacles]. apply simTick_keeps.
Qed.

Lemma stopLoop_keeps w :
  Worker.config (Worker.stopLoop w) = Worker.config w /\
  Worker.obstacles (Worker.stopLoop w) = Worker.obstacles w.
Proof. unfold Worker.stopLoop. cbv zeta. by destruct (Worker.animFrameId _). Qed.

Lemma agrees_keeps s w w' :
  Worker.config w' = Worker.config w -> Worker.obstacles w' = Worker.obstacles w ->
  agrees s w -> agrees s w'.
Proof. intros Hc Ho [H1 H2]. split; congruence. Qed.

(** X30: a worker that holds the config and the obstacles of the store
    still holds them after any store action other than setWorker and
    sendToWorker, once it has received the messages that the action
    posted; a timer firing in the worker does not change that. *)
Theorem store_and_worker_agree
    (s : Store.t) (w : Worker.t) (a : Store.Action)
    (msgs : list Worker.WorkerInMessage) :
  agrees s w -> worker s = Some msgs -> ownMessages a = true ->
  (exists sent,
     worker (act s a) = Some (msgs ++ sent) /\
     agrees (act s a) (deliver w sent)) /\
  forall n, agrees s (Worker.react w (Worker.Timeout n)).
Proof.
  intros Hag Hw Hown. split.
  2:{ intros n. cbn [Worker.react].
      destruct (existsb (Nat.eqb n) (Worker.timers w)); [|done].
      match goal with |- agrees s (Worker.simLoop ?w0) =>
        destruct (simLoop_keeps w0) as [Hc Ho] end.
      by apply (agrees_keeps s w). }
  destruct Hag as [Hc Ho].
  destruct a; try discriminate Hown; cbn [act];
    try (exists []; rewrite app_nil_r; split; [exact Hw|by split]).
  - (* setConfig *)
    exists [Worker.UPDATE_CONFIG partial]. unfold setConfig.
    cbn [worker config obstacles]. rewrite Hw. split; [done|].
    unfold deliver. cbn [fold_left Worker.onmessage]. rewrite Hc.
    by split.
  - (* stepBack *)
    destruct (stepBack_spec s) as [[_ ->]|(p & Hlen & Hlast & ->)].
    + exists []. rewrite app_nil_r. split; [exact Hw|by split].
    + exists [Worker.SET_AGENTS p; Worker.PAUSE]. cbn [worker]. rewrite Hw.
      cbn [postMessage]. rewrite <- app_assoc. split; [done|].
      unfold deliver. cbn [fold_left].
      match goal with |- agrees ?s0 (Worker.onmessage ?w0 Worker.PAUSE) =>
        change (agrees s0 (Worker.stopLoop w0));
        destruct (stopLoop_keeps w0) as [Hc' Ho'] end.
      split; [rewrite Hc'|rewrite Ho']; cbn; assumption.
  - (* addObstacle *)
    eexists [_]. unfold addObstacle. cbv zeta. cbn [worker config obstacles].
    rewrite Hw. split; [done|]. unfold deliver. by split.
  - (* clearObstacles *)
    exists [Worker.UPDATE_OBSTACLES []]. unfold clearObstacles.
    cbn [worker]. rewrite Hw. split; [done|]. by split.
  - (* play *)
    exists [Worker.PLAY]. unfold play, sendToWorker, setStatus. cbn [worker]. rewrite Hw.
    split; [done|]. unfold deliver. cbn [fold_left Worker.onmessage].
    unfold Worker.startLoop.
    destruct (simLoop_keeps (Worker.setRunning w true)) as [Hc' Ho'].
    split; cbn [config obstacles]; rewrite ?Hc', ?Ho'; done.
  - (* pause *)
    exists [Worker.PAUSE]. unfold pause, sendToWorker, setStatus. cbn [worker]. rewrite Hw.
    split; [done|]. unfold deliver. cbn [fold_left Worker.onmessage].
    destruct (stopLoop_keeps w) as [Hc' Ho'].
    split; cbn [config obstacles]; congruence.
  - (* step *)
    exists [Worker.STEP]. unfold step, sendToWorker, setStatus. cbn [worker]. rewrite Hw.
    split; [done|]. unfold deliver. cbn [fold_left Worker.onmessage].
    destruct (stopLoop_keeps w) as [Hc' Ho'].
    destruct (simTick_keeps (Worker.stopLoop w)) as [Hc'' Ho''].
    split; cbn [config obstacles]; congruence.
  - (* reset *)
    exists [Worker.RESET (config s)]. unfold reset. cbn [worker]. rewrite Hw.
    split; [done|]. unfold deliver. cbn [fold_left Worker.onmessage].
    destruct (stopLoop_keeps w) as [Hc' Ho'].
    destruct (Worker.spawnAgents _ _) as [spawned r].
    split; cbn [config obstacles Worker.post Worker.config Worker.obstacles];
      congruence.
Qed.

Lemma store_and_worker_agree_witness :
  let s := setWorker initial [] in
  let w := Worker.onmessage (Worker.initial (fun _ => 0))
             (Worker.INIT DEFAULT_CONFIG [agentAt 0 100 100] []) in
  agrees s w /\ worker s = Some [] /\ ownMessages (AddObstacle 10 10) = true /\
  exists sent,
    worker (act s (AddObstacle 10 10)) = Some ([] ++ sent) /\
    agrees (act s (AddObstacle 10 10)) (deliver w sent).
Proof.
  intros s w. assert (H : agrees s w) by (split; reflexivity).
  split; [exact H|]. split; [reflexivity|]. split; [reflexivity|].
  exact (proj1 (store_and_worker_agree s w (AddObstacle 10 10) [] H eq_refl eq_refl)).
Defined.

End StoreFacts.
